(** * GogoProxy-Mini: the provider-resolution core, embedded and verified

    The repository holds three generations of one Express proxy:

    - [AniRatio]   the "Gogo first; Jikan fallback" server with the LRU
                   response cache (helpers [jikan], [tryGogoRecent],
                   [tryGogoTop], [mapGogo], [mapJikan] and the routes);
    - [GogoProxy]  [server.js], with [tryLoadLibs], the public fallback [fb]
                   and [mapItem]; [Overlap] has [tryLoadLibs] cut at its
                   [await], for calls that overlap;
    - [GogoMinimal] the earliest [server.js], a bare [/search] route.

    JavaScript values are embedded as the tree [JsVal]; a handler is a
    function in a state-and-exception monad whose state holds what the
    process mutates (the cache, the memoised library handle, the log) and a
    trace of the outbound calls it made. *)

From Stdlib Require Import ZArith List String Ascii Bool Lia.
From Stdlib Require Import DecimalString DecimalZ DecimalPos.
Import ListNotations.
Open Scope string_scope.
Open Scope Z_scope.
Set Warnings "-register-all".

(* ================================================================== *)
(** ** JavaScript values and the operators the handlers use *)

Module Js.

(** JSON-shaped values.  [JNum n] is the Number that the integer [n]
    denotes, the double nearest to it; a string is the sequence of bytes
    of its UTF-8 encoding. *)
Inductive JsVal : Type :=
| JUndef
| JNull
| JBool (b : bool)
| JNum (n : Z)
| JStr (s : string)
| JArr (xs : list JsVal)
| JObj (fields : list (string * JsVal)).

(** A thrown value, as far as the handlers look at one: what [String(e)]
    prints for it, and what [e.message] reads, [None] when that read
    itself throws, as it does on a thrown [null] or [undefined].  Thrown
    values are taken to be ones that [String] can convert, as errors,
    strings, [null] and [undefined] are. *)
Record Exn : Type := mkExn { text : string; message : option JsVal }.

Inductive Res (A : Type) : Type :=
| Ok (a : A)
| Throw (e : Exn).
Arguments Ok {A} a.
Arguments Throw {A} e.

(** An instance of [Error] or of one of its subclasses: [new Error(msg)]
    is [error "Error" msg]. *)
Definition error (name msg : string) : Exn :=
  mkExn (if String.eqb msg "" then name else name ++ ": " ++ msg) (Some (JStr msg)).

(** A TypeError raised by the runtime; the wording of its message, which
    is the engine's, is left empty. *)
Definition TypeError : Exn := error "TypeError" "".

(** [e.message] *)
Definition message_of (e : Exn) : Res JsVal :=
  match message e with
  | Some m => Ok m
  | None => Throw TypeError
  end.

(** [!!v] *)
Definition truthy (v : JsVal) : bool :=
  match v with
  | JUndef | JNull => false
  | JBool b => b
  | JNum n => negb (n =? 0)
  | JStr s => negb (String.eqb s "")
  | JArr _ | JObj _ => true
  end.

(** [v == null] *)
Definition nullish (v : JsVal) : bool :=
  match v with
  | JUndef | JNull => true
  | _ => false
  end.

(** [a || b] and [a ?? b] on values already computed. *)
Definition or (a b : JsVal) : JsVal := if truthy a then a else b.
Definition coalesce (a b : JsVal) : JsVal := if nullish a then b else a.

(** [a || b] where evaluating an operand may throw; [b] counts only when
    [a] is falsy. *)
Definition or_res (a b : Res JsVal) : Res JsVal :=
  match a with
  | Ok v => if truthy v then Ok v else b
  | Throw e => Throw e
  end.

Fixpoint lookup (k : string) (fields : list (string * JsVal)) : JsVal :=
  match fields with
  | [] => JUndef
  | (k', v) :: rest => if String.eqb k k' then v else lookup k rest
  end.

(** The length of a string, which the handlers only test for being zero;
    that does not depend on the encoding. *)
Definition Zlength_str (s : string) : Z := Z.of_nat (String.length s).

(** Reading a property off a value that is known not to be null or
    undefined. *)
Definition prop (v : JsVal) (k : string) : JsVal :=
  match v with
  | JObj fields => lookup k fields
  | JArr xs => if String.eqb k "length" then JNum (Z.of_nat (List.length xs)) else JUndef
  | JStr s => if String.eqb k "length" then JNum (Zlength_str s) else JUndef
  | _ => JUndef
  end.

(** [v.k]: a TypeError on null and undefined. *)
Definition get (v : JsVal) (k : string) : Res JsVal :=
  if nullish v then Throw TypeError else Ok (prop v k).

(** [v?.k] *)
Definition oget (v : JsVal) (k : string) : JsVal :=
  if nullish v then JUndef else prop v k.

(** [v[0]] on a value known not to be null or undefined. *)
Definition first (v : JsVal) : JsVal :=
  match v with
  | JArr (x :: _) => x
  | JObj fields => lookup "0" fields
  | _ => JUndef
  end.

Definition isArray (v : JsVal) : bool :=
  match v with JArr _ => true | _ => false end.

(** The decimal digits of an integer. *)
Definition string_of_Z (n : Z) : string :=
  NilZero.string_of_int (Z.to_int n).

(** The double nearest to a non-negative integer, ties going to the even
    mantissa; [None] is Infinity.  Up to 2^53 every integer is a double;
    beyond, a double is [m * 2^e] with [2^52 <= m < 2^53], and the largest
    one has [e = 971]. *)
Definition nearest_double (a : Z) : option Z :=
  if a <? 2 ^ 53 then Some a
  else
    let e := Z.log2 a - 52 in
    let m0 := a / 2 ^ e in
    let r := a - m0 * 2 ^ e in
    let half := 2 ^ (e - 1) in
    let m := if (half <? r) || ((r =? half) && Z.odd m0) then m0 + 1 else m0 in
    if 2 ^ 1024 <=? m * 2 ^ e then None else Some (m * 2 ^ e).

(** [Number(s)] for a string that spells the integer [n]: the double
    nearest to [n].  An integer beyond the largest double reads as
    Infinity, for which it goes on standing itself. *)
Definition number_of_integer (n : Z) : Z :=
  match nearest_double (Z.abs n) with
  | Some v => Z.sgn n * v
  | None => n
  end.

(** The decimal that [Number::toString] picks for the double [v]: the one
    with the fewest significant digits that still reads back as [v]; of
    two with as many digits the closer one, and of two as close the one
    whose last digit is even.  [step] is the weight of the last digit
    kept, tried from the leading digit down. *)
Fixpoint shortest_decimal (digits : nat) (v step : Z) : Z :=
  match digits with
  | O => v
  | S digits' =>
      let lo := (v / step) * step in
      let hi := lo + step in
      let lo_ok := match nearest_double lo with Some x => x =? v | None => false end in
      let hi_ok := match nearest_double hi with Some x => x =? v | None => false end in
      if lo_ok && hi_ok then
        (if v - lo <? hi - v then lo
         else if hi - v <? v - lo then hi
         else if Z.even (v / step) then lo else hi)
      else if lo_ok then lo
      else if hi_ok then hi
      else shortest_decimal digits' v (step / 10)
  end.

Fixpoint strip_zeros (s : string) : string :=
  match s with
  | EmptyString => EmptyString
  | String c rest =>
      match strip_zeros rest with
      | EmptyString => if Ascii.eqb c "0" then EmptyString else String c EmptyString
      | kept => String c kept
      end
  end.

(** How [Number::toString] writes the decimal [c] out: as it is when it
    has at most 21 digits, else in exponent form. *)
Definition write_decimal (c : Z) : string :=
  let ds := string_of_Z c in
  let n := String.length ds in
  if Nat.leb n 21 then ds
  else
    match strip_zeros ds with
    | EmptyString => ds
    | String d EmptyString => String d ("e+" ++ string_of_Z (Z.of_nat (n - 1)))
    | String d more => String d ("." ++ more ++ "e+" ++ string_of_Z (Z.of_nat (n - 1)))
    end.

(** [String(n)] for a Number.  An integer below 2^53 in size prints its
    digits; a larger one prints the shortest decimal of its double. *)
Definition number_to_string (n : Z) : string :=
  if Z.abs n <? 2 ^ 53 then string_of_Z n
  else
    let sign := if n <? 0 then "-" else "" in
    match nearest_double (Z.abs n) with
    | None => sign ++ "Infinity"
    | Some v =>
        let digits := String.length (string_of_Z v) in
        sign ++ write_decimal (shortest_decimal digits v (10 ^ Z.of_nat (digits - 1)))
    end.

Definition join (sep : string) (parts : list string) : string :=
  match parts with
  | [] => ""
  | p :: ps => fold_left (fun acc q => acc ++ sep ++ q) ps p
  end.

(** Whether an object has a property of its own under [k]. *)
Definition has_own (k : string) (fields : list (string * JsVal)) : bool :=
  existsb (fun kv => String.eqb k (fst kv)) fields.

(** [String(v)], which is also what a template literal and
    [.toString()] produce.  An object whose own [toString] is not a
    function (none of these values is one) cannot be converted: a
    TypeError.  An array converts its elements one by one. *)
Fixpoint to_string (v : JsVal) : Res string :=
  match v with
  | JUndef => Ok "undefined"
  | JNull => Ok "null"
  | JBool true => Ok "true"
  | JBool false => Ok "false"
  | JNum n => Ok (number_to_string n)
  | JStr s => Ok s
  | JArr xs =>
      match
        (fix each (l : list JsVal) : Res (list string) :=
           match l with
           | [] => Ok []
           | x :: rest =>
               match (if nullish x then Ok "" else to_string x) with
               | Throw e => Throw e
               | Ok part =>
                   match each rest with
                   | Throw e => Throw e
                   | Ok parts => Ok (part :: parts)
                   end
               end
           end) xs
      with
      | Throw e => Throw e
      | Ok parts => Ok (join "," parts)
      end
  | JObj fields =>
      if has_own "toString" fields then Throw TypeError else Ok "[object Object]"
  end.

(** White space that [trim] strips: the characters of one byte (tab, line
    feed, vertical tab, form feed, carriage return, space), of two bytes
    (U+00A0) and of three bytes (U+1680, U+2000 to U+200A, U+2028, U+2029,
    U+202F, U+205F, U+3000, U+FEFF), by their UTF-8 encodings. *)
Definition is_ws (c : ascii) : bool :=
  let n := nat_of_ascii c in
  (Nat.eqb n 32 || (Nat.leb 9 n && Nat.leb n 13))%bool.

Definition is_ws2 (a b : ascii) : bool :=
  (Nat.eqb (nat_of_ascii a) 194 && Nat.eqb (nat_of_ascii b) 160)%bool.

Definition is_ws3 (a b c : ascii) : bool :=
  let x := nat_of_ascii a in
  let y := nat_of_ascii b in
  let z := nat_of_ascii c in
  ((Nat.eqb x 225 && Nat.eqb y 154 && Nat.eqb z 128)
   || (Nat.eqb x 226 && Nat.eqb y 128
       && ((Nat.leb 128 z && Nat.leb z 138) || Nat.eqb z 168 || Nat.eqb z 169
           || Nat.eqb z 175))
   || (Nat.eqb x 226 && Nat.eqb y 129 && Nat.eqb z 159)
   || (Nat.eqb x 227 && Nat.eqb y 128 && Nat.eqb z 128)
   || (Nat.eqb x 239 && Nat.eqb y 187 && Nat.eqb z 191))%bool.

(** Dropping the white space a string begins with; [w2] and [w3] tell the
    characters of two and three bytes. *)
Fixpoint strip (w2 : ascii -> ascii -> bool) (w3 : ascii -> ascii -> ascii -> bool)
  (s : string) : string :=
  match s with
  | EmptyString => s
  | String a rest =>
      if is_ws a then strip w2 w3 rest
      else
        match rest with
        | EmptyString => s
        | String b rest2 =>
            if w2 a b then strip w2 w3 rest2
            else
              match rest2 with
              | EmptyString => s
              | String c rest3 => if w3 a b c then strip w2 w3 rest3 else s
              end
        end
  end.

Definition trim_start (s : string) : string := strip is_ws2 is_ws3 s.

Fixpoint rev_str (s acc : string) : string :=
  match s with
  | EmptyString => acc
  | String c rest => rev_str rest (String c acc)
  end.

(** The same from the end: the string is read backwards, and so are the
    characters. *)
Definition trim_end (s : string) : string :=
  rev_str (strip (fun a b => is_ws2 b a) (fun a b c => is_ws3 c b a) (rev_str s "")) "".

(** [s.trim()] *)
Definition trim (s : string) : string := trim_end (trim_start s).

Definition unreserved (c : ascii) : bool :=
  let n := nat_of_ascii c in
  ((Nat.leb 48 n && Nat.leb n 57) || (Nat.leb 65 n && Nat.leb n 90)
   || (Nat.leb 97 n && Nat.leb n 122)
   || existsb (Nat.eqb n) [45; 95; 46; 33; 126; 42; 39; 40; 41]%nat)%bool.

Definition hex_digit (n : nat) : ascii :=
  ascii_of_nat (if Nat.ltb n 10 then 48 + n else 55 + n)%nat.

(** [encodeURIComponent(s)] on the bytes of [s]. *)
Fixpoint encodeURIComponent (s : string) : string :=
  match s with
  | EmptyString => EmptyString
  | String c rest =>
      if unreserved c then String c (encodeURIComponent rest)
      else
        let n := nat_of_ascii c in
        String "%" (String (hex_digit (n / 16)) (String (hex_digit (n mod 16))
          (encodeURIComponent rest)))
  end.

(** [s.startsWith(p)] and [s.slice(n)] *)
Definition startsWith (p s : string) : bool := String.prefix p s.
Definition slice (n : nat) (s : string) : string :=
  String.substring n (String.length s - n) s.

(** [xs.map(f)] for a callback that may throw. *)
Fixpoint map_res (f : JsVal -> Res JsVal) (xs : list JsVal) : Res (list JsVal) :=
  match xs with
  | [] => Ok []
  | x :: rest =>
      match f x with
      | Throw e => Throw e
      | Ok y =>
          match map_res f rest with
          | Throw e => Throw e
          | Ok ys => Ok (y :: ys)
          end
      end
  end.

(** [v.map(f)]: only arrays have [map]. *)
Definition map_method (v : JsVal) (f : JsVal -> Res JsVal) : Res JsVal :=
  match v with
  | JArr xs =>
      match map_res f xs with
      | Ok ys => Ok (JArr ys)
      | Throw e => Throw e
      end
  | _ => Throw TypeError
  end.

End Js.
Import Js.

(* ================================================================== *)
(** ** Effects: what a handler can do besides computing *)

Module Eff.

(** Everything observable a process does, in the order it does it. *)
Inductive Event : Type :=
| Import (name : string)               (* require / import of a package *)
| Native (method : string) (arg : JsVal) (* a call into the optional library *)
| Fetch (url : string)                 (* an outbound HTTP GET *)
| Warn (obj : JsVal)                   (* log.warn *)
| Error (obj : JsVal)                  (* log.error *)
| Console (line : string).             (* console.log *)

(** A running process: its mutable variables and what it did so far. *)
Record Proc (V : Type) : Type := mkProc { vars : V; out : list Event }.
Arguments mkProc {V} vars out.
Arguments vars {V} p.
Arguments out {V} p.

(** An async function body: reads and updates the process, and either
    returns or throws. *)
Definition M (V A : Type) : Type := Proc V -> Res A * Proc V.

Definition ret {V A} (a : A) : M V A := fun p => (Ok a, p).
Definition throw {V A} (e : Exn) : M V A := fun p => (Throw e, p).

Definition bind {V A B} (m : M V A) (k : A -> M V B) : M V B :=
  fun p =>
    match m p with
    | (Ok a, p') => k a p'
    | (Throw e, p') => (Throw e, p')
    end.

(** [try { m } catch (e) { h e }] *)
Definition try_catch {V A} (m : M V A) (h : Exn -> M V A) : M V A :=
  fun p =>
    match m p with
    | (Ok a, p') => (Ok a, p')
    | (Throw e, p') => h e p'
    end.

Definition lift {V A} (r : Res A) : M V A := fun p => (r, p).

Definition emit {V} (ev : Event) : M V unit :=
  fun p => (Ok tt, mkProc (vars p) (out p ++ [ev])).

Definition read {V} : M V V := fun p => (Ok (vars p), p).
Definition write {V} (v : V) : M V unit := fun p => (Ok tt, mkProc v (out p)).

(** A member of the optional library: missing, a plain value, or a
    function of one argument. *)
Inductive Completion : Type :=
| Returned (v : JsVal)
| Thrown (e : Exn).

(** A function either completes on the spot or hands back a promise that
    settles later. *)
Inductive CallResult : Type :=
| Sync (c : Completion)
| Async (c : Completion).

Inductive Member : Type :=
| MAbsent
| MValue (v : JsVal)
| MFun (f : JsVal -> CallResult).

Definition Lib : Type := string -> Member.

(** What an expression evaluates to before [await]. *)
Inductive Awaitable : Type :=
| Plain (v : JsVal)
| Promise (c : Completion).

Definition invoke {V} (r : CallResult) : M V Awaitable :=
  match r with
  | Sync (Returned v) => ret (Plain v)
  | Sync (Thrown e) => throw e
  | Async c => ret (Promise c)
  end.

(** [lib.name] seen as a condition. *)
Definition has_member (lib : Lib) (name : string) : bool :=
  match lib name with
  | MAbsent => false
  | MValue v => truthy v
  | MFun _ => true
  end.

(** [lib.name(arg)] *)
Definition call {V} (lib : Lib) (name : string) (arg : JsVal) : M V Awaitable :=
  match lib name with
  | MFun f => bind (emit (Native name arg)) (fun _ => invoke (f arg))
  | _ => throw TypeError
  end.

(** [lib.name?.(arg)] *)
Definition call_opt {V} (lib : Lib) (name : string) (arg : JsVal) : M V Awaitable :=
  match lib name with
  | MAbsent => ret (Plain JUndef)
  | MValue v => if nullish v then ret (Plain JUndef) else throw TypeError
  | MFun f => bind (emit (Native name arg)) (fun _ => invoke (f arg))
  end.

(** [a ?? b], with [b] evaluated only when needed. *)
Definition coalesce_m {V} (a : M V Awaitable) (b : M V Awaitable) : M V Awaitable :=
  bind a (fun x =>
    match x with
    | Plain JUndef | Plain JNull => b
    | _ => ret x
    end).

(** [await a] *)
Definition await {V} (a : Awaitable) : M V JsVal :=
  match a with
  | Plain v => ret v
  | Promise (Returned v) => ret v
  | Promise (Thrown e) => throw e
  end.

(** What [fetch(url)] does: the request fails, or a response arrives with
    a status and a body that parses as JSON or does not. *)
Inductive FetchResult : Type :=
| Rejects (e : Exn)
| Responds (status : Z) (json : Res JsVal).

(** [r.ok] *)
Definition ok_status (status : Z) : bool := (200 <=? status) && (status <=? 299).

(** An HTTP response of the proxy: [res.status(code).json(body)]. *)
Record Response : Type := mkResponse { status : Z; body : JsVal }.

End Eff.
Import Eff.

Declare Scope eff_scope.
Delimit Scope eff_scope with eff.
Notation "x <- m ;; k" := (bind m (fun x => k))
  (at level 61, m at next level, right associativity) : eff_scope.
Notation "m ;; k" := (bind m (fun _ => k))
  (at level 61, right associativity) : eff_scope.
Notation "'let?' x := r 'in' k" :=
  (match r with Ok x => k | Throw e => Throw e end)
  (at level 61, x name, r at next level, right associativity) : eff_scope.
(** [a || b] when reading [a] or [b] may throw. *)
Notation "a <||> b" := (Js.or_res a b)
  (at level 51, right associativity) : eff_scope.
Open Scope eff_scope.

(* ================================================================== *)
(** ** The response cache *)

Module Lru.

(** Modelled from the spec: a cache entry, [{ key, value, expiresAt }]. *)
Record Entry : Type := mkEntry { e_key : string; e_value : JsVal; e_expires : Z }.

(** Modelled from the spec: the [LRU] class of the [lru-cache] package,
    which the server constructs ([new LRU({ max, ttl })]) and calls
    ([has], [get], [set]) but does not contain.  A bounded-capacity,
    time-to-live map: on insert at capacity the least-recently-used entry
    is evicted; on read an entry past its TTL is treated as absent and
    removed.  Entries are kept most recently used first; times are in
    milliseconds. *)
Record t : Type := mk { max : nat; ttl : Z; entries : list Entry }.

(** Modelled from the spec: [new LRU({ max, ttl })], an empty cache. *)
Definition create (max : nat) (ttl : Z) : t := mk max ttl [].

(** Modelled from the spec: an entry is past its TTL once the clock has
    moved beyond [expiresAt]. *)
Definition stale (now : Z) (e : Entry) : bool := e_expires e <? now.

(** Modelled from the spec: the map part of the cache, lookup by key. *)
Fixpoint find (k : string) (es : list Entry) : option Entry :=
  match es with
  | [] => None
  | e :: rest => if String.eqb k (e_key e) then Some e else find k rest
  end.

(** Modelled from the spec: the map part of the cache, removal by key. *)
Fixpoint remove (k : string) (es : list Entry) : list Entry :=
  match es with
  | [] => []
  | e :: rest => if String.eqb k (e_key e) then remove k rest else e :: remove k rest
  end.

Definition keys (c : t) : list string := List.map e_key (entries c).

(** Modelled from the spec: [cache.has(key)], true for a present entry
    that has not passed its TTL. *)
Definition has (now : Z) (k : string) (c : t) : bool :=
  match find k (entries c) with
  | Some e => negb (stale now e)
  | None => false
  end.

(** Modelled from the spec: [cache.get(key)].  A live entry is returned
    and becomes the most recently used; an entry past its TTL is removed
    and reads as absent, wherever it stood in the recency order. *)
Definition get (now : Z) (k : string) (c : t) : JsVal * t :=
  match find k (entries c) with
  | None => (JUndef, c)
  | Some e =>
      if stale now e then (JUndef, mk (max c) (ttl c) (remove k (entries c)))
      else (e_value e, mk (max c) (ttl c) (e :: remove k (entries c)))
  end.

(** Modelled from the spec: [cache.set(key, value, { ttl })].  The entry
    becomes the most recently used; when that takes the cache past its
    capacity the least recently used entry, the last one, is dropped. *)
Definition set (now : Z) (k : string) (v : JsVal) (ttl_opt : option Z) (c : t) : t :=
  let life := match ttl_opt with Some l => l | None => ttl c end in
  let es := mkEntry k v (now + life) :: remove k (entries c) in
  mk (max c) (ttl c) (if Nat.ltb (max c) (List.length es) then removelast es else es).

End Lru.

Declare Scope js_scope.
Delimit Scope js_scope with js.
Notation "a || b" := (Js.or a b) (at level 50, left associativity) : js_scope.
Notation "a ?? b" := (Js.coalesce a b) (at level 50, left associativity) : js_scope.

(* ================================================================== *)
(** ** AniRatio proxy: Gogo first, Jikan fallback *)

Module AniRatio.

(** The process state is the one mutable object, [cache]. *)
Definition Task := M Lru.t.

(** [const cache = new LRU({ max: 300, ttl: 1000 * 60 * 5 })] *)
Definition cache : Lru.t := Lru.create 300 (1000 * 60 * 5).

(** [let gogo = null; try { gogo = require('gogoanime-api-new') } catch (e) {}],
    run once when the module is evaluated. *)
Definition load_gogo (require : string -> Res Lib) : Task (option Lib) :=
  emit (Import "gogoanime-api-new");;
  match require "gogoanime-api-new" with
  | Ok lib => ret (Some lib)
  | Throw _ => ret None
  end.

Definition ok (data : JsVal) : Response := mkResponse 200 data.
Definition err (code : Z) (msg : string) : Response :=
  mkResponse code (JObj [("error", JStr msg)]).

Definition mapGogo_item (x : JsVal) : Res JsVal :=
  let? title := get x "title" <||> get x "name" <||> Ok (JStr "Unknown") in
  let? image_url := get x "image" <||> get x "poster" <||> get x "image_url" <||> Ok (JStr "") in
  let? anime_id :=
    get x "id" <||> get x "slug" <||> get x "animeId" <||> get x "anime_id" <||> Ok (JStr "") in
  let? synopsis := get x "description" <||> get x "synopsis" <||> Ok (JStr "") in
  Ok (JObj [("title", title); ("image_url", image_url);
            ("anime_id", anime_id); ("synopsis", synopsis)]).

(** [function mapGogo(items = [])] *)
Definition mapGogo (items : JsVal) : Res JsVal :=
  let items := match items with JUndef => JArr [] | _ => items end in
  map_method items mapGogo_item.

Definition mapJikan_item (x : JsVal) : Res JsVal :=
  let? title := get x "title" <||> Ok (JStr "Unknown") in
  let? image_url :=
    (let? images := get x "images" in Ok (oget (oget images "jpg") "image_url")) <||>
    (let? images := get x "images" in Ok (oget (oget images "webp") "image_url")) <||>
    Ok (JStr "") in
  let? mal_id := get x "mal_id" in
  let? id_text := to_string mal_id in
  let? synopsis := get x "synopsis" <||> Ok (JStr "") in
  Ok (JObj [("title", title); ("image_url", image_url);
            ("anime_id", JStr ("mal-" ++ id_text)); ("synopsis", synopsis)]).

(** [function mapJikan(items = [])] *)
Definition mapJikan (items : JsVal) : Res JsVal :=
  let items := match items with JUndef => JArr [] | _ => items end in
  map_method items mapJikan_item.

(** [`https://api.jikan.moe/v4${path}`] and [`jk:${url}`] *)
Definition jikan_url (path : string) : string := "https://api.jikan.moe/v4" ++ path.
Definition jikan_key (path : string) : string := "jk:" ++ jikan_url path.

Section Handlers.

(** The library handle left by [load_gogo], the clock, and the network, as
    one request sees them. *)
Variable gogo : option Lib.
Variable now : Z.
Variable fetch : string -> FetchResult.

Definition cache_has (key : string) : Task bool :=
  c <- read;; ret (Lru.has now key c).

Definition cache_get (key : string) : Task JsVal :=
  c <- read;; write (snd (Lru.get now key c));; ret (fst (Lru.get now key c)).

Definition cache_set (key : string) (v : JsVal) (ttl : option Z) : Task unit :=
  c <- read;; write (Lru.set now key v ttl c).

(** [async function jikan(path)] *)
Definition jikan (path : string) : Task JsVal :=
  let url := jikan_url path in
  let key := jikan_key path in
  hit <- cache_has key;;
  if hit then cache_get key
  else
    emit (Fetch url);;
    match fetch url with
    | Rejects e => throw e
    | Responds status json =>
        if negb (ok_status status)
        then throw (error "Error" ("Jikan " ++ number_to_string status))
        else
          j <- lift json;;
          cache_set key j (Some (1000 * 60 * 3));;
          ret j
    end.

(** The shared tail of [tryGogoRecent] and [tryGogoTop]:
    [(await ...) || []], then [Array.isArray(list) ? list : (list.results || [])]. *)
Definition as_list (a : Awaitable) : Task JsVal :=
  v <- await a;;
  let list := (v || JArr [])%js in
  if isArray list then ret list
  else (r <- lift (get list "results");; ret (r || JArr [])%js).

(** [async function tryGogoRecent(page = 1)] *)
Definition tryGogoRecent (page : JsVal) : Task JsVal :=
  match gogo with
  | None => ret (JArr [])
  | Some g =>
      try_catch
        (a <- coalesce_m (call_opt g "recent" page) (call_opt g "fetchRecentReleases" page);;
         as_list a)
        (fun e =>
           emit (Warn (JObj [("msg", JStr "gogo recent failed"); ("e", JStr (text e))]));;
           ret (JArr []))
  end.

(** [async function tryGogoTop(page = 1)] *)
Definition tryGogoTop (page : JsVal) : Task JsVal :=
  match gogo with
  | None => ret (JArr [])
  | Some g =>
      try_catch
        (a <- coalesce_m (call_opt g "topAiring" page) (call_opt g "trending" page);;
         as_list a)
        (fun e =>
           emit (Warn (JObj [("msg", JStr "gogo top failed"); ("e", JStr (text e))]));;
           ret (JArr []))
  end.

(** [Number(req.query.page || 1)] for a page parameter that is missing
    ([None]) or spells an integer ([Some n]): the double nearest to that
    integer.  Parameters that spell a fraction or no number at all are
    not modelled. *)
Definition page_of (page : option Z) : Z :=
  match page with Some n => number_of_integer n | None => 1 end.

Definition failed (fields : list (string * JsVal)) (code : string) (e : Exn)
  : Task Response :=
  emit (Error (JObj (fields ++ [("e", JStr (text e))])));; ret (err 500 code).

(** [app.get('/recent', ...)] *)
Definition recent (page : option Z) : Task Response :=
  try_catch
    (let page := page_of page in
     data <- tryGogoRecent (JNum page);;
     len <- lift (get data "length");;
     if negb (truthy len) then
       (jk <- jikan ("/seasons/now?limit=24&page=" ++ number_to_string page);;
        jd <- lift (get jk "data");;
        data <- lift (mapJikan jd);;
        ret (ok data))
     else (m <- lift (mapGogo data);; ret (ok m)))
    (failed [("route", JStr "recent")] "recent_failed").

(** [app.get('/top-airing', ...)], also served as [/trending]. *)
Definition top_airing (page : option Z) : Task Response :=
  try_catch
    (let page := page_of page in
     data <- tryGogoTop (JNum page);;
     len <- lift (get data "length");;
     if negb (truthy len) then
       (jk <- jikan ("/top/anime?filter=airing&limit=24&page=" ++ number_to_string page);;
        jd <- lift (get jk "data");;
        data <- lift (mapJikan jd);;
        ret (ok data))
     else (m <- lift (mapGogo data);; ret (ok m)))
    (failed [("route", JStr "top-airing")] "top_failed").

(** The [if (gogo?.search) { ... }] block of the search route: [Some] when
    it returns a response, [None] when control falls out of it. *)
Definition search_gogo (q : string) : Task (option Response) :=
  match gogo with
  | None => ret None
  | Some g =>
      if has_member g "search" then
        (a <- call g "search" (JStr q);;
         gv <- await a;;
         let results := if isArray gv then gv else (oget gv "results" || JArr [])%js in
         len <- lift (get results "length");;
         if truthy len then
           (m <- lift (mapGogo results);;
            ret (Some (ok (JObj [("results", m); ("provider", JStr "gogo")]))))
         else ret None)
      else ret None
  end.

(** [app.get('/search', ...)]; [q] is [req.query.q].  The conversion of
    the parameter stands before the [try]. *)
Definition search (q : JsVal) : Task Response :=
  s <- lift (to_string (q || JStr "")%js);;
  let q := trim s in
  if String.eqb q "" then ret (ok (JObj [("results", JArr [])]))
  else
    try_catch
      (r <- search_gogo q;;
       match r with
       | Some resp => ret resp
       | None =>
           jk <- jikan ("/anime?q=" ++ encodeURIComponent q ++ "&limit=24");;
           jd <- lift (get jk "data");;
           m <- lift (mapJikan jd);;
           ret (ok (JObj [("results", m); ("provider", JStr "jikan")]))
       end)
      (failed [("route", JStr "search")] "search_failed").

Definition unknown_details : JsVal :=
  JObj [("title", JStr "Unknown"); ("image_url", JStr "");
        ("description", JStr ""); ("episodes", JNum 0)].

(** [app.get('/anime/:id', ...)] *)
Definition anime (id : string) : Task Response :=
  try_catch
    (if startsWith "mal-" id then
       (let malId := slice 4 id in
        jk <- jikan ("/anime/" ++ malId);;
        jd <- lift (get jk "data");;
        let d := (jd || JObj [])%js in
        ret (ok (JObj [("title", prop d "title");
                       ("image_url",
                         (oget (oget (prop d "images") "jpg") "image_url" || JStr "")%js);
                       ("description", (prop d "synopsis" || JStr "")%js);
                       ("episodes", (prop d "episodes" ?? JNum 0)%js)])))
     else
       match gogo with
       | Some g =>
           if has_member g "animeDetails" then
             (a <- call g "animeDetails" (JStr id);; d <- await a;; ret (ok d))
           else ret (ok unknown_details)
       | None => ret (ok unknown_details)
       end)
    (failed [("route", JStr "anime"); ("id", JStr id)] "anime_failed").

(** [app.get('/stream', ...)]; [ep] is [req.query.ep].  The conversion of
    the parameter stands before the [try]. *)
Definition stream (ep : JsVal) : Task Response :=
  ep <- lift (to_string (ep || JStr "")%js);;
  if String.eqb ep "" then ret (err 400 "missing_ep")
  else
    try_catch
      (match gogo with
       | Some g =>
           if has_member g "sources" then
             (a <- call g "sources" (JStr ep);; s <- await a;; ret (ok s))
           else ret (ok (JObj [("sources", JArr [])]))
       | None => ret (ok (JObj [("sources", JArr [])]))
       end)
      (failed [("route", JStr "stream"); ("ep", JStr ep)] "stream_failed").

End Handlers.

(** The capability routes of the server, each with the parameter it
    reads: [page] is [req.query.page], missing or spelling an integer;
    [q] and [ep] are [req.query.q] and [req.query.ep], any value the
    query parser yields; [id] is [req.params.id]. *)
Inductive Request : Type :=
| Recent (page : option Z)
| TopAiring (page : option Z)
| Trending (page : option Z)
| Search (q : JsVal)
| Anime (id : string)
| Stream (ep : JsVal).

Definition handle (gogo : option Lib) (now : Z) (fetch : string -> FetchResult)
  (r : Request) : Task Response :=
  match r with
  | Recent page => recent gogo now fetch page
  | TopAiring page | Trending page => top_airing gogo now fetch page
  | Search q => search gogo now fetch q
  | Anime id => anime gogo now fetch id
  | Stream ep => stream gogo ep
  end.

(** A request together with the clock and network it meets. *)
Record Arrival : Type :=
  mkArrival { at_time : Z; net : string -> FetchResult; req : Request }.

(** Requests served one after the other, each answered before the next
    arrives.  The run ends with the first handler that throws: nobody
    handles its rejection. *)
Fixpoint serve (gogo : option Lib) (arrivals : list Arrival) : Task (list Response) :=
  match arrivals with
  | [] => ret []
  | a :: rest =>
      r <- handle gogo (at_time a) (net a) (req a);;
      rs <- serve gogo rest;;
      ret (r :: rs)
  end.

(** The life of the process: load the library once, then serve. *)
Definition main (require : string -> Res Lib) (arrivals : list Arrival)
  : Task (list Response) :=
  gogo <- load_gogo require;; serve gogo arrivals.

Definition boot : Proc Lru.t := mkProc cache [].

End AniRatio.

(* ================================================================== *)
(** ** server.js: optional library loaded on demand, public fallback *)

Module GogoProxy.

(** The process state is the one mutable variable, [goLib]. *)
Definition Task := M (option Lib).

(** What [new GoGo()] does: yields the library instance or throws. *)
Definition Ctor : Type := Res Lib.

(** The namespace [await import(name)] resolves to, as far as
    [tryLoadLibs] reads it: [mod.GoGoAnime], [mod.default?.GoGoAnime] and
    [mod.default], each present (and truthy) or not. *)
Record ModuleNs : Type := mkModule {
  m_GoGoAnime : option Ctor;
  m_default_GoGoAnime : option Ctor;
  m_default : option Ctor
}.

(** [mod.GoGoAnime || mod.default?.GoGoAnime || mod.default] *)
Definition pick (ns : ModuleNs) : option Ctor :=
  match m_GoGoAnime ns with
  | Some c => Some c
  | None =>
      match m_default_GoGoAnime ns with
      | Some c => Some c
      | None => m_default ns
      end
  end.

Definition candidates : list string := ["gogoanime-api"; "gogoanime-api-new"].

Definition FALLBACK_BASES : list string := ["https://jaybeeanime.vercel.app"].

(** [const mapItem = (a) => ({ ... })] *)
Definition mapItem (a : JsVal) : JsVal :=
  JObj [("id", (oget a "id" || oget a "animeId" || oget a "slug" || oget a "url"
                || oget a "alias" || JStr "")%js);
        ("title", (oget a "title" || oget a "name" || oget a "animeTitle" || JStr "")%js);
        ("cover", (oget a "cover" || oget a "image_url" || oget a "image" || oget a "img"
                   || oget a "poster" || oget a "pic" || JStr "")%js);
        ("tags", (oget a "genres" || oget a "genre" || JArr [])%js)].

(** [res.json(body)] *)
Definition json (body : JsVal) : Response := mkResponse 200 body.

(** [(data?.data || data?.results || data) || []] *)
Definition items_of (data : JsVal) : JsVal :=
  ((oget data "data" || oget data "results" || data) || JArr [])%js.

(** [w?.url || w?.stream || (Array.isArray(w?.sources) ? (w.sources[0]?.file || '') : '')],
    then [{ url: url || '' }] *)
Definition source_of (w : JsVal) : JsVal :=
  let url :=
    (oget w "url" || oget w "stream"
     || (if isArray (oget w "sources")
         then (oget (first (oget w "sources")) "file" || JStr "")
         else JStr ""))%js in
  JObj [("url", (url || JStr "")%js)].

(** The object the episodes route builds from one episode of the library;
    the template literal is evaluated only when the episode has no
    [title]. *)
Definition mapEpisode (e : JsVal) : Res JsVal :=
  let? title :=
    (if truthy (oget e "title") then Ok (oget e "title")
     else
       let? number := to_string (oget e "number" || JStr "")%js in
       Ok (JStr ("Episode " ++ number))) in
  Ok (JObj [("id", (oget e "id" || oget e "episodeId" || oget e "url" || JStr "")%js);
            ("number",
              (oget e "number" || oget e "epNum" || oget e "episode" || JStr "")%js);
            ("title", title)]).

Section Handlers.

(** The module loader and the network, as one request sees them. *)
Variable import : string -> Res ModuleNs.
Variable fetch : string -> FetchResult.

(** The [for (const name of candidates)] loop of [tryLoadLibs] and what
    follows it. *)
Fixpoint load_from (names : list string) : Task (option Lib) :=
  match names with
  | [] =>
      emit (Console "[gogo] no optional lib found; using public fallback only");;
      write None;;
      ret None
  | name :: rest =>
      r <- try_catch
             (emit (Import name);;
              ns <- lift (import name);;
              match pick ns with
              | Some GoGo =>
                  lib <- lift GoGo;;
                  write (Some lib);;
                  emit (Console ("[gogo] using optional lib: " ++ name));;
                  ret (Some lib)
              | None => ret None
              end)
             (fun _ => ret None);;
      match r with
      | Some lib => ret (Some lib)
      | None => load_from rest
      end
  end.

(** [async function tryLoadLibs()] *)
Definition tryLoadLibs : Task (option Lib) :=
  goLib <- read;;
  match goLib with
  | Some lib => ret (Some lib)
  | None => load_from candidates
  end.

(** The [for (const base of FALLBACK_BASES)] loop of [fb]. *)
Fixpoint fb_from (bases : list string) (path : string) : Task JsVal :=
  match bases with
  | [] => ret JNull
  | base :: rest =>
      r <- try_catch
             (emit (Fetch (base ++ path));;
              match fetch (base ++ path) with
              | Rejects e => throw e
              | Responds status body =>
                  if ok_status status then (j <- lift body;; ret (Some j))
                  else ret None
              end)
             (fun _ => ret None);;
      match r with
      | Some j => ret j
      | None => fb_from rest path
      end
  end.

(** [async function fb(path)] *)
Definition fb (path : string) : Task JsVal := fb_from FALLBACK_BASES path.

(** The block [if (lib?.name) { try { const d = await lib.name(arg); return
    res.json(render d) } catch {} }] every route opens with: [Some] when it
    returns a response, [None] when control falls out of it. *)
Definition via_lib (lib : option Lib) (name : string) (arg : JsVal)
  (render : JsVal -> Res JsVal) : Task (option Response) :=
  match lib with
  | None => ret None
  | Some l =>
      if has_member l name then
        try_catch
          (a <- call l name arg;;
           d <- await a;;
           r <- lift (render d);;
           ret (Some (json r)))
          (fun _ => ret None)
      else ret None
  end.

Definition or_else (r : option Response) (k : Task Response) : Task Response :=
  match r with
  | Some resp => ret resp
  | None => k
  end.

(** [app.get('/trending', ...)] *)
Definition trending : Task Response :=
  lib <- tryLoadLibs;;
  r <- via_lib lib "trending" JUndef (fun data => map_method data (fun a => Ok (mapItem a)));;
  or_else r (data <- fb "/trending";; ret (json (items_of data))).

(** [app.get('/recent', ...)] *)
Definition recent : Task Response :=
  lib <- tryLoadLibs;;
  r <- via_lib lib "recentEpisodes" JUndef
         (fun data => map_method data (fun a => Ok (mapItem a)));;
  or_else r (data <- fb "/recent";; ret (json (items_of data))).

(** [app.get('/genres', ...)] *)
Definition genres : Task Response :=
  lib <- tryLoadLibs;;
  r <- via_lib lib "genres" JUndef
         (fun data => Ok (if isArray data then data else (oget data "genres" || JArr [])%js));;
  or_else r (data <- fb "/genres";; ret (json (oget data "genres" || data || JArr [])%js)).

(** [app.get('/search', ...)]; [q] is [req.query.q].  No [try] stands
    around the conversion of the parameter. *)
Definition search (q : JsVal) : Task Response :=
  s <- lift (to_string (q || JStr "")%js);;
  let q := trim s in
  if String.eqb q "" then ret (json (JArr []))
  else
    lib <- tryLoadLibs;;
    r <- via_lib lib "search" (JStr q)
           (fun data => map_method data (fun a => Ok (mapItem a)));;
    or_else r (data <- fb ("/search?q=" ++ encodeURIComponent q);;
               ret (json (items_of data))).

(** [app.get('/anime/:id', ...)] *)
Definition anime (id : string) : Task Response :=
  lib <- tryLoadLibs;;
  r <- via_lib lib "animeDetails" (JStr id)
         (fun d => Ok (JObj
            [("title", (oget d "title" || oget d "name" || oget d "animeTitle" || JStr "")%js);
             ("cover", (oget d "cover" || oget d "image" || oget d "poster" || JStr "")%js);
             ("description",
               (oget d "description" || oget d "synopsis" || oget d "summary" || JStr "")%js)]));;
  or_else r
    (d <- fb ("/anime/" ++ encodeURIComponent id);;
     ret (json (JObj
       [("title",
          (oget d "title" || oget d "name" || oget d "animeTitle" || JStr "Unknown")%js);
        ("cover", (oget d "cover" || oget d "image" || oget d "poster" || JStr "")%js);
        ("description",
          (oget d "description" || oget d "synopsis" || oget d "summary" || JStr "")%js)]))).

(** [app.get('/anime/:id/episodes', ...)] *)
Definition episodes (id : string) : Task Response :=
  lib <- tryLoadLibs;;
  r <- via_lib lib "episodes" (JStr id)
         (fun eps => map_method (eps || JArr [])%js mapEpisode);;
  or_else r (data <- fb ("/anime/" ++ encodeURIComponent id ++ "/episodes");;
             ret (json (items_of data))).

(** [app.get('/watch/:episode_id', ...)] *)
Definition watch (eid : string) : Task Response :=
  lib <- tryLoadLibs;;
  r <- via_lib lib "sources" (JStr eid) (fun w => Ok (source_of w));;
  or_else r (w <- fb ("/watch/" ++ encodeURIComponent eid);; ret (json (source_of w))).

End Handlers.

(** The capability routes of [server.js], each with the parameter it
    reads: [q] is [req.query.q], any value the query parser yields; [id]
    and [eid] are the route parameters. *)
Inductive Request : Type :=
| Trending
| Recent
| Genres
| Search (q : JsVal)
| Anime (id : string)
| Episodes (id : string)
| Watch (eid : string).

Definition handle (import : string -> Res ModuleNs) (fetch : string -> FetchResult)
  (r : Request) : Task Response :=
  match r with
  | Trending => trending import fetch
  | Recent => recent import fetch
  | Genres => genres import fetch
  | Search q => search import fetch q
  | Anime id => anime import fetch id
  | Episodes id => episodes import fetch id
  | Watch eid => watch import fetch eid
  end.

(** Requests served one after the other, each answered before the next
    arrives; the run ends with the first handler that throws.  Calls of
    [tryLoadLibs] that overlap are the matter of [Overlap] below. *)
Fixpoint serve (import : string -> Res ModuleNs) (fetch : string -> FetchResult)
  (reqs : list Request) : Task (list Response) :=
  match reqs with
  | [] => ret []
  | r :: rest =>
      x <- handle import fetch r;;
      xs <- serve import fetch rest;;
      ret (x :: xs)
  end.

(** [let goLib = null], nothing done yet. *)
Definition boot : Proc (option Lib) := mkProc None [].

End GogoProxy.

(* ================================================================== *)
(** ** server.js: calls of [tryLoadLibs] that overlap *)

Module Overlap.

(** An async function in flight: it has settled, or it is suspended at an
    [await] and holds what it does once it is resumed, up to its next
    [await] or its end. *)
Inductive Thread (V A : Type) : Type :=
| Settled (r : Res A)
| Suspended (resume : M V (Thread V A)).

Arguments Settled {V A} r.
Arguments Suspended {V A} resume.

(** Resuming a call until it settles, nothing else running in between. *)
Fixpoint finish {V A} (t : Thread V A) : M V A :=
  fun p =>
    match t with
    | Settled r => (r, p)
    | Suspended resume =>
        match resume p with
        | (Ok t', p') => finish t' p'
        | (Throw e, p') => (Throw e, p')
        end
    end.

Section Loader.

Variable import : string -> Res GogoProxy.ModuleNs.

(** The loop of [tryLoadLibs], cut at [await import(name)]: the import is
    started, the call is suspended, and the rest of the iteration runs
    when it is resumed. *)
Fixpoint load_from (names : list string)
  : GogoProxy.Task (Thread (option Lib) (option Lib)) :=
  match names with
  | [] =>
      emit (Console "[gogo] no optional lib found; using public fallback only");;
      write None;;
      ret (Settled (Ok None))
  | name :: rest =>
      emit (Import name);;
      ret (Suspended
             (r <- try_catch
                     (ns <- lift (import name);;
                      match GogoProxy.pick ns with
                      | Some GoGo =>
                          lib <- lift GoGo;;
                          write (Some lib);;
                          emit (Console ("[gogo] using optional lib: " ++ name));;
                          ret (Some lib)
                      | None => ret None
                      end)
                     (fun _ => ret None);;
              match r with
              | Some lib => ret (Settled (Ok (Some lib)))
              | None => load_from rest
              end))
  end.

(** [async function tryLoadLibs()], run up to its first [await]: [goLib]
    is tested when the function is called. *)
Definition tryLoadLibs : GogoProxy.Task (Thread (option Lib) (option Lib)) :=
  goLib <- read;;
  match goLib with
  | Some lib => ret (Settled (Ok (Some lib)))
  | None => load_from GogoProxy.candidates
  end.

(** Two calls, the second made while the first is suspended at its
    import, as when a second request arrives before the first has its
    library; then each is resumed, the first one first. *)
Definition two_calls : GogoProxy.Task (option Lib * option Lib) :=
  first <- tryLoadLibs;;
  second <- tryLoadLibs;;
  a <- finish first;;
  b <- finish second;;
  ret (a, b).

End Loader.

End Overlap.

(* ================================================================== *)
(** ** The earliest server.js: one library, one route *)

Module GogoMinimal.

Definition Task := M unit.

(** [let GoGoAnime; try { const gogo = await import('gogoanime-api');
    GoGoAnime = new gogo.GoGoAnime() } catch (err) { console.error(...) }] *)
Definition load (import : string -> Res Lib) : Task (option Lib) :=
  emit (Import "gogoanime-api");;
  match import "gogoanime-api" with
  | Ok lib => ret (Some lib)
  | Throw e => emit (Console ("Failed to load gogoanime-api: " ++ text e));; ret None
  end.

(** [app.get('/search', ...)]; [q] is [req.query.q]. *)
Definition search (GoGoAnime : option Lib) (q : JsVal) : Task Response :=
  let q := (q || JStr "")%js in
  if negb (truthy q) then ret (mkResponse 200 (JArr []))
  else
    try_catch
      (match GoGoAnime with
       | None => throw TypeError
       | Some g =>
           a <- call g "search" q;;
           results <- await a;;
           ret (mkResponse 200 results)
       end)
      (fun err =>
         msg <- lift (message_of err);;
         ret (mkResponse 500 (JObj [("error", msg)]))).

End GogoMinimal.

(* ================================================================== *)
(** ** Vocabulary of the properties *)

(** The white space characters of ECMAScript, each as the bytes of its
    UTF-8 encoding. *)
Definition utf8 (bytes : list nat) : string :=
  fold_right (fun b s => String (ascii_of_nat b) s) EmptyString bytes.

Definition white_space : list string :=
  List.map utf8
    [[9]; [10]; [11]; [12]; [13]; [32];              (* TAB LF VT FF CR SP *)
     [194; 160];                                     (* U+00A0 no-break space *)
     [225; 154; 128];                                (* U+1680 *)
     [226; 128; 128]; [226; 128; 129]; [226; 128; 130]; [226; 128; 131];
     [226; 128; 132]; [226; 128; 133]; [226; 128; 134]; [226; 128; 135];
     [226; 128; 136]; [226; 128; 137]; [226; 128; 138]; (* U+2000 to U+200A *)
     [226; 128; 168]; [226; 128; 169];               (* U+2028, U+2029 *)
     [226; 128; 175];                                (* U+202F *)
     [226; 129; 159];                                (* U+205F *)
     [227; 128; 128];                                (* U+3000 ideographic space *)
     [239; 187; 191]]%nat.                           (* U+FEFF *)

(** A string of white space only (the empty string included). *)
Inductive all_ws : string -> Prop :=
| ws_none : all_ws ""
| ws_more (w rest : string) : In w white_space -> all_ws rest -> all_ws (w ++ rest).

(** The title chain in the words of the specification: [title], else
    [name], else [animeTitle], else the literal "Unknown". *)
Definition claimed_title (x : JsVal) : JsVal :=
  (oget x "title" || oget x "name" || oget x "animeTitle" || JStr "Unknown")%js.

(** Every listed field of a record holds a value other than null and
    undefined. *)
Definition present (keys : list string) (item : JsVal) : bool :=
  forallb (fun k => negb (nullish (prop item k))) keys.

(** A query parameter that is missing, empty or white space only. *)
Definition blank (q : JsVal) : Prop :=
  match q with
  | JUndef => True
  | JStr s => all_ws s
  | _ => False
  end.

(** A cache filled to capacity with distinct keys, [k0] the oldest. *)
Definition full_cache : Lru.t :=
  fold_left
    (fun c i => Lru.set 0 ("k" ++ string_of_Z (Z.of_nat i)) JNull None c)
    (seq 0 300) AniRatio.cache.


(** No candidate package can be imported. *)
Definition unavailable (import : string -> Res GogoProxy.ModuleNs) : Prop :=
  forall name, exists e, import name = Throw e.

Definition is_import (ev : Event) : bool :=
  match ev with Import _ => true | _ => false end.

Definition is_native (ev : Event) : bool :=
  match ev with Native _ _ => true | _ => false end.


Definition count (f : Event -> bool) (evs : list Event) : nat :=
  List.length (filter f evs).

(** What a computation does to a process: it keeps the invariant [I] of
    the variables, and everything it adds to the trace satisfies [P]. *)
Definition Sound {V A} (I : V -> Prop) (P : Event -> Prop) (m : M V A) : Prop :=
  forall p, I (vars p) ->
    I (vars (snd (m p))) /\
    exists evs, out (snd (m p)) = (out p ++ evs)%list /\ Forall P evs.



(** An event other than the loading of a package. *)
Definition quiet (ev : Event) : Prop := is_import ev = false.

(** A network on which every request is answered 200 with one record. *)
Definition net_up : string -> FetchResult :=
  fun _ => Responds 200
    (Ok (JObj [("data", JArr [JObj [("mal_id", JNum 21); ("title", JStr "One Piece")]])])).

(** A network on which every request comes back 503. *)
Definition net_down : string -> FetchResult :=
  fun _ => Responds 503 (Throw (error "SyntaxError" "Unexpected token")).

(** A machine without any of the optional packages. *)
Definition no_packages : string -> Res GogoProxy.ModuleNs :=
  fun _ => Throw (error "Error" "Cannot find package").

(** The search text of a request: [req.query.q], converted and trimmed.
    Reading it throws when [String] cannot convert the parameter. *)
Definition query_text (q : JsVal) : Res string :=
  let? s := to_string (q || JStr "")%js in Ok (trim s).

(** Requests of [server.js] that get as far as [tryLoadLibs]: all but a
    search without text, or whose text cannot be read. *)
Definition loads (r : GogoProxy.Request) : bool :=
  match r with
  | GogoProxy.Search q =>
      match query_text q with
      | Ok text => negb (String.eqb text "")
      | Throw _ => false
      end
  | _ => true
  end.

(** What is left of a route of [server.js] once the library block is
    skipped: the call to [fb] and the rendering of its answer. *)
Definition fallback_half (fetch : string -> FetchResult) (r : GogoProxy.Request)
  : GogoProxy.Task Response :=
  match r with
  | GogoProxy.Trending =>
      data <- GogoProxy.fb fetch "/trending";;
      ret (GogoProxy.json (GogoProxy.items_of data))
  | GogoProxy.Recent =>
      data <- GogoProxy.fb fetch "/recent";;
      ret (GogoProxy.json (GogoProxy.items_of data))
  | GogoProxy.Genres =>
      data <- GogoProxy.fb fetch "/genres";;
      ret (GogoProxy.json (oget data "genres" || data || JArr [])%js)
  | GogoProxy.Search q =>
      text <- lift (query_text q);;
      data <- GogoProxy.fb fetch ("/search?q=" ++ encodeURIComponent text);;
      ret (GogoProxy.json (GogoProxy.items_of data))
  | GogoProxy.Anime id =>
      d <- GogoProxy.fb fetch ("/anime/" ++ encodeURIComponent id);;
      ret (GogoProxy.json (JObj
        [("title",
           (oget d "title" || oget d "name" || oget d "animeTitle" || JStr "Unknown")%js);
         ("cover", (oget d "cover" || oget d "image" || oget d "poster" || JStr "")%js);
         ("description",
           (oget d "description" || oget d "synopsis" || oget d "summary" || JStr "")%js)]))
  | GogoProxy.Episodes id =>
      data <- GogoProxy.fb fetch ("/anime/" ++ encodeURIComponent id ++ "/episodes");;
      ret (GogoProxy.json (GogoProxy.items_of data))
  | GogoProxy.Watch eid =>
      w <- GogoProxy.fb fetch ("/watch/" ++ encodeURIComponent eid);;
      ret (GogoProxy.json (GogoProxy.source_of w))
  end.




(** The shape the server's cache keeps: capacity 300, distinct keys, at
    most 300 entries. *)
Definition well_formed (c : Lru.t) : Prop :=
  Lru.max c = 300%nat /\ NoDup (Lru.keys c) /\ (List.length (Lru.entries c) <= 300)%nat.


(** A call that comes back with the value [v], at once or through a
    promise. *)
Definition resolves_to (r : CallResult) (v : JsVal) : Prop :=
  r = Sync (Returned v) \/ r = Async (Returned v).

(** A call that fails with [e]: it throws, or its promise rejects. *)
Definition fails_with (r : CallResult) (e : Exn) : Prop :=
  r = Sync (Thrown e) \/ r = Async (Thrown e).

(** A library with the one method [name], which answers [r] to every
    argument. *)
Definition lib_with (name : string) (r : CallResult) : Lib :=
  fun k => if String.eqb k name then MFun (fun _ => r) else MAbsent.

(** The Jikan path of the recent releases. *)
Definition recent_path (page : option Z) : string :=
  "/seasons/now?limit=24&page=" ++ number_to_string (AniRatio.page_of page).

(** The Jikan path of a search for [text]. *)
Definition search_path (text : string) : string :=
  "/anime?q=" ++ encodeURIComponent text ++ "&limit=24".






(** An event other than a call into the optional library. *)
Definition not_native (ev : Event) : Prop := is_native ev = false.

(** The item sequence in the words of the specification: [data], then
    [results], then the raw body, the first present non-null one. *)
Definition claimed_items (body : JsVal) : JsVal :=
  (oget body "data" ?? oget body "results" ?? body)%js.

(** A request to [url] that yields no JSON: it fails, or the status is
    outside 200-299, or the body does not parse. *)
Definition no_json (r : FetchResult) : Prop :=
  match r with
  | Rejects _ => True
  | Responds status body => ok_status status = false \/ exists e, body = Throw e
  end.

(** A Jikan that answers every request 200 with the given body. *)
Definition jikan_says (jk : JsVal) : string -> FetchResult :=
  fun _ => Responds 200 (Ok jk).

(** A network where the first mirror answers 200 with a page that is not
    JSON and the second with a JSON body. *)
Definition first_mirror_html : string -> FetchResult :=
  fun url =>
    if String.prefix "https://a.example" url then Responds 200 (Throw (error "SyntaxError" "Unexpected token"))
    else Responds 200 (Ok (JObj [("data", JArr [JObj [("id", JStr "bleach")]])])).

(** A computation that always returns, with a result satisfying [Q]. *)
Definition Returns {V A} (Q : A -> Prop) (m : M V A) : Prop :=
  forall p, exists a p', m p = (Ok a, p') /\ Q a.

(** A computation whose result, when it returns, satisfies [Q]. *)
Definition Ensures {V A} (Q : A -> Prop) (m : M V A) : Prop :=
  forall p a p', m p = (Ok a, p') -> Q a.


(** The two ways a request to [server.js] ends: with an answer, which
    satisfies [Q]; or, for a search whose parameter [String] cannot
    convert, with that error thrown out of the handler and the process
    left as it was. *)
Definition ends_with (Q : Response -> Prop) (r : GogoProxy.Request)
  (p : Proc (option Lib)) (outcome : Res Response * Proc (option Lib)) : Prop :=
  match outcome with
  | (Ok resp, _) => Q resp
  | (Throw e, p') =>
      p' = p /\ exists q, r = GogoProxy.Search q /\ query_text q = Throw e
  end.

(** ** Vocabulary of the further properties *)






(** The Jikan path a request of the AniRatio server looks up when there
    is no library, if it looks one up at all. *)
Definition jikan_path_of (r : AniRatio.Request) : option string :=
  match r with
  | AniRatio.Recent page => Some (recent_path page)
  | AniRatio.TopAiring page | AniRatio.Trending page =>
      Some ("/top/anime?filter=airing&limit=24&page="
              ++ number_to_string (AniRatio.page_of page))
  | AniRatio.Search q =>
      match query_text q with
      | Ok text => if String.eqb text "" then None else Some (search_path text)
      | Throw _ => None
      end
  | AniRatio.Anime id =>
      if startsWith "mal-" id then Some ("/anime/" ++ slice 4 id) else None
  | AniRatio.Stream _ => None
  end.

(** The cache keys a sequence of requests can look up, in order. *)
Definition keys_of (arrivals : list AniRatio.Arrival) : list string :=
  flat_map (fun a => match jikan_path_of (AniRatio.req a) with
                     | Some path => [AniRatio.jikan_key path]
                     | None => []
                     end) arrivals.

(** The entry [e] is in the cache, and the entries used more recently
    than it are entries of the keys [touched], each key once. *)
Definition held (e : Lru.Entry) (touched : list string) (c : Lru.t) : Prop :=
  exists front back,
    Lru.entries c = (front ++ e :: back)%list /\
    NoDup (List.map Lru.e_key front) /\
    incl (List.map Lru.e_key front) touched.

(** [n] detail requests, each for another id, on a network that answers. *)
Definition other_lookups (n : nat) : list AniRatio.Arrival :=
  List.map (fun i => AniRatio.mkArrival 0 net_up
                       (AniRatio.Anime ("mal-" ++ string_of_Z (Z.of_nat i))))
           (seq 1000 n).


(** A candidate package that yields no library: the import fails, the
    module exports no constructor, or the constructor throws. *)
Definition unusable (r : Res GogoProxy.ModuleNs) : Prop :=
  match r with
  | Throw _ => True
  | Ok ns => GogoProxy.pick ns = None \/ exists e, GogoProxy.pick ns = Some (Throw e)
  end.

(** The library method a route of [server.js] calls, and its argument. *)
Definition lib_method (r : GogoProxy.Request) : string :=
  match r with
  | GogoProxy.Trending => "trending"
  | GogoProxy.Recent => "recentEpisodes"
  | GogoProxy.Genres => "genres"
  | GogoProxy.Search _ => "search"
  | GogoProxy.Anime _ => "animeDetails"
  | GogoProxy.Episodes _ => "episodes"
  | GogoProxy.Watch _ => "sources"
  end.

Definition lib_arg (r : GogoProxy.Request) : JsVal :=
  match r with
  | GogoProxy.Trending | GogoProxy.Recent | GogoProxy.Genres => JUndef
  | GogoProxy.Search q =>
      match query_text q with Ok text => JStr text | Throw _ => JUndef end
  | GogoProxy.Anime id | GogoProxy.Episodes id => JStr id
  | GogoProxy.Watch eid => JStr eid
  end.

(** The routes of [server.js] that answer a sequence of catalog items. *)
Definition lists_items (r : GogoProxy.Request) : bool :=
  match r with
  | GogoProxy.Trending | GogoProxy.Recent | GogoProxy.Search _ => true
  | _ => false
  end.

(** A library whose [recent] resolves to two records. *)
Definition two_recent : Lib :=
  lib_with "recent"
    (Async (Returned (JArr [JObj [("title", JStr "Bleach"); ("id", JStr "bleach")];
                            JObj [("name", JStr "Naruto")]]))).



(** A string that does not begin with white space, [w2] and [w3] telling
    the white space of two and three bytes. *)
Definition starts_clean (w2 : ascii -> ascii -> bool)
  (w3 : ascii -> ascii -> ascii -> bool) (s : string) : Prop :=
  match s with
  | EmptyString => True
  | String a rest =>
      is_ws a = false /\
      match rest with
      | EmptyString => True
      | String b rest2 =>
          w2 a b = false /\
          match rest2 with
          | EmptyString => True
          | String c _ => w3 a b c = false
          end
      end
  end.




(* ================================================================== *)
(** * Properties *)

(** ** The operators on sample values *)

Example to_string_of_array :
  to_string (JArr [JStr "a"; JNull; JNum (-12); JNum 0]) = Ok "a,,-12,0".
Proof. reflexivity. Qed.

Example to_string_of_objects :
  to_string (JObj [("q", JStr "x")]) = Ok "[object Object]" /\
  to_string (JObj [("toString", JStr "x")]) = Throw TypeError /\
  to_string (JArr [JStr "a"; JObj [("toString", JNum 1)]]) = Throw TypeError.
Proof. repeat split. Qed.

Example number_to_string_of_large_numbers :
  number_of_integer 9007199254740993 = 9007199254740992 /\
  number_of_integer (- 9007199254740995) = - 9007199254740996 /\
  number_to_string 9007199254740993 = "9007199254740992" /\
  number_to_string (2 ^ 64) = "18446744073709552000" /\
  number_to_string (10 ^ 21) = "1e+21" /\
  number_to_string (- 2 ^ 70) = "-1.1805916207174113e+21" /\
  number_to_string (2 ^ 1024) = "Infinity".
Proof. repeat split; vm_compute; reflexivity. Qed.

Example trim_strips_both_ends :
  trim "  one piece  " = "one piece" /\
  trim (utf8 [194; 160; 32; 120; 32; 227; 128; 128; 239; 187; 191]%nat) = "x".
Proof. split; reflexivity. Qed.

Example encodeURIComponent_escapes :
  encodeURIComponent "one piece&x" = "one%20piece%26x".
Proof. reflexivity. Qed.

Example slice_drops_prefix :
  startsWith "mal-" "mal-21" = true /\ slice 4 "mal-21" = "21".
Proof. split; reflexivity. Qed.

Example or_takes_first_truthy :
  (JStr "" || JNum 0 || JStr "x")%js = JStr "x" /\ (JNum 0 ?? JStr "x")%js = JNum 0.
Proof. split; reflexivity. Qed.

(** ** The cache *)

Section LruFacts.

Import Lru.

Lemma remove_fresh (k : string) (es : list Entry) :
  ~ In k (List.map e_key es) -> remove k es = es.
Proof.
  induction es as [|e es IH]; simpl; intros Hk; [reflexivity|].
  destruct (String.eqb_spec k (e_key e)) as [->|Hne].
  - exfalso. apply Hk. now left.
  - f_equal. apply IH. intros Hin. apply Hk. now right.
Qed.

Lemma remove_gone (k : string) (es : list Entry) :
  ~ In k (List.map e_key (remove k es)).
Proof.
  induction es as [|e es IH]; simpl; [tauto|].
  destruct (String.eqb_spec k (e_key e)) as [->|Hne]; [exact IH|].
  simpl. intros [Heq|Hin]; [congruence | now apply IH].
Qed.

Lemma remove_subset (k k' : string) (es : list Entry) :
  In k' (List.map e_key (remove k es)) -> In k' (List.map e_key es).
Proof.
  induction es as [|e es IH]; simpl; [tauto|].
  destruct (String.eqb k (e_key e)); simpl; intuition.
Qed.

Lemma remove_NoDup (k : string) (es : list Entry) :
  NoDup (List.map e_key es) -> NoDup (List.map e_key (remove k es)).
Proof.
  induction es as [|e es IH]; simpl; intros Hnd; [constructor|].
  inversion Hnd as [|? ? Hnotin Hrest]; subst.
  destruct (String.eqb k (e_key e)); [now apply IH|].
  simpl. constructor; [|now apply IH].
  intros Hin. apply Hnotin. eapply remove_subset; eassumption.
Qed.

Lemma find_key (k : string) (es : list Entry) (e : Entry) :
  find k es = Some e -> e_key e = k /\ In e es.
Proof.
  induction es as [|e' es IH]; simpl; [discriminate|].
  destruct (String.eqb_spec k (e_key e')) as [->|Hne].
  - intros [= ->]. auto.
  - intros H. destruct (IH H). auto.
Qed.

Lemma map_removelast {A B} (f : A -> B) (l : list A) :
  List.map f (removelast l) = removelast (List.map f l).
Proof.
  induction l as [|a [|b l] IH]; simpl in *; [reflexivity..|].
  now rewrite IH.
Qed.

Lemma removelast_NoDup {A} (l : list A) : NoDup l -> NoDup (removelast l).
Proof.
  destruct l as [|a l] using rev_ind; [trivial|].
  rewrite removelast_last. intros H.
  apply NoDup_remove_1 in H. now rewrite app_nil_r in H.
Qed.

Lemma last_not_in_removelast {A} (l : list A) (d : A) :
  NoDup l -> ~ In (last l d) (removelast l).
Proof.
  destruct l as [|a l] using rev_ind; [simpl; tauto|].
  rewrite removelast_last, last_last. intros H.
  apply NoDup_remove_2 in H. now rewrite app_nil_r in H.
Qed.

Lemma last_In {A} (l : list A) (d : A) : l <> [] -> In (last l d) l.
Proof.
  induction l as [|a [|b l] IH]; intros Hne; [congruence | now left |].
  right. apply IH. discriminate.
Qed.

(** The keys of a cache stay distinct under [set] and [get]. *)
Lemma set_NoDup (now : Z) (k : string) (v : JsVal) (life : option Z) (c : t) :
  NoDup (keys c) -> NoDup (keys (set now k v life c)).
Proof.
  unfold keys, set. cbn [entries]. intros Hnd.
  assert (Hcons : NoDup (List.map e_key
            (mkEntry k v (now + match life with Some l => l | None => ttl c end)
               :: remove k (entries c)))).
  { cbn [List.map e_key]. constructor; [apply remove_gone | now apply remove_NoDup]. }
  destruct (Nat.ltb _ _); [|exact Hcons].
  rewrite map_removelast. now apply removelast_NoDup.
Qed.

Lemma get_NoDup (now : Z) (k : string) (c : t) :
  NoDup (keys c) -> NoDup (keys (snd (get now k c))).
Proof.
  unfold keys, get. intros Hnd.
  destruct (find k (entries c)) as [e|] eqn:Hf; [|exact Hnd].
  destruct (find_key _ _ _ Hf) as [Hk _].
  destruct (stale now e); cbn [snd entries].
  - now apply remove_NoDup.
  - cbn [List.map]. rewrite Hk. constructor; [apply remove_gone | now apply remove_NoDup].
Qed.

(** A cache never grows past its capacity. *)
Lemma set_bounded (now : Z) (k : string) (v : JsVal) (life : option Z) (c : t) :
  (List.length (entries c) <= max c)%nat ->
  (List.length (entries (set now k v life c)) <= max c)%nat.
Proof.
  unfold set. cbn [entries]. intros Hle.
  set (es := _ :: remove k (entries c)).
  assert (Hlen : (List.length es <= S (List.length (entries c)))%nat).
  { subst es. cbn [List.length]. apply le_n_S.
    clear. induction (entries c) as [|e l IH]; simpl; [lia|].
    destruct (String.eqb k (e_key e)); simpl; lia. }
  destruct (Nat.ltb_spec (max c) (List.length es)) as [Hgt|Hok]; [|exact Hok].
  assert (Hrl : List.length (removelast es) = pred (List.length es)).
  { subst es. generalize (remove k (entries c)) as l. intros l.
    rewrite <- (rev_involutive (_ :: l)). destruct (rev (_ :: l)) eqn:E.
    - reflexivity.
    - simpl. rewrite removelast_last. rewrite !length_app. simpl. lia. }
  lia.
Qed.

Lemma remove_shorter (k : string) (es : list Entry) :
  (List.length (remove k es) <= List.length es)%nat.
Proof.
  induction es as [|e es IH]; simpl; [lia|].
  destruct (String.eqb k (e_key e)); simpl; lia.
Qed.

Lemma remove_found_shorter (k : string) (es : list Entry) (e : Entry) :
  find k es = Some e -> (S (List.length (remove k es)) <= List.length es)%nat.
Proof.
  induction es as [|e' es IH]; simpl; [discriminate|].
  destruct (String.eqb k (e_key e')).
  - intros _. pose proof (remove_shorter k es). lia.
  - intros H. specialize (IH H). simpl. lia.
Qed.

Lemma get_bounded (now : Z) (k : string) (c : t) :
  (List.length (entries (snd (get now k c))) <= List.length (entries c))%nat.
Proof.
  unfold get. destruct (find k (entries c)) as [e|] eqn:Hf; [|cbn; lia].
  destruct (stale now e); cbn [snd entries List.length].
  - apply remove_shorter.
  - now apply remove_found_shorter with (e := e).
Qed.

Lemma get_max (now : Z) (k : string) (c : t) : max (snd (get now k c)) = max c.
Proof.
  unfold get. destruct (find k (entries c)) as [e|]; [|reflexivity].
  now destruct (stale now e).
Qed.

Lemma remove_keys (k : string) (es : list Entry) :
  List.map e_key (remove k es) = List.remove string_dec k (List.map e_key es).
Proof.
  induction es as [|e es IH]; simpl; [reflexivity|].
  destruct (String.eqb_spec k (e_key e)) as [Heq|Hne];
    destruct (string_dec k (e_key e)) as [Heq'|Hne']; try contradiction; [exact IH|].
  simpl. now rewrite IH.
Qed.

Lemma remove_once (k : string) (es : list Entry) (e : Entry) :
  NoDup (List.map e_key es) -> find k es = Some e ->
  S (List.length (remove k es)) = List.length es.
Proof.
  induction es as [|e' es IH]; simpl; [discriminate|]. intros Hnd.
  inversion Hnd as [|? ? Hnotin Hrest]; subst.
  destruct (String.eqb_spec k (e_key e')) as [->|Hne].
  - intros _. now rewrite remove_fresh.
  - intros Hf. simpl. now rewrite (IH Hrest Hf).
Qed.

(** A live entry that is read becomes the most recently used. *)
Lemma get_live (now : Z) (k : string) (c : t) (e : Entry) :
  find k (entries c) = Some e -> now <= e_expires e ->
  has now k c = true /\
  fst (get now k c) = e_value e /\
  keys (snd (get now k c)) = k :: List.remove string_dec k (keys c).
Proof.
  intros Hf Hlive. destruct (find_key _ _ _ Hf) as [Hk _].
  assert (Hst : stale now e = false) by (apply Z.ltb_ge; exact Hlive).
  unfold has, get, keys. rewrite Hf, Hst. cbn [fst snd negb entries List.map].
  now rewrite Hk, remove_keys.
Qed.

(** A key stored in a cache that is full takes the place of the last
    one. *)
Lemma set_full (now : Z) (k : string) (v : JsVal) (life : option Z) (c : t) :
  (0 < max c)%nat -> List.length (entries c) = max c -> ~ In k (keys c) ->
  keys (set now k v life c) = k :: removelast (keys c).
Proof.
  intros Hpos Hlen Hfresh. unfold keys, set. cbn [entries].
  rewrite (remove_fresh k (entries c) Hfresh). cbn [List.length]. rewrite Hlen.
  destruct (Nat.ltb_spec (max c) (S (max c))) as [_|Hle]; [|lia].
  rewrite map_removelast. cbn [List.map e_key].
  destruct (List.map e_key (entries c)) as [|k0 ks] eqn:E; [|reflexivity].
  apply (f_equal (@List.length _)) in E. rewrite length_map, Hlen in E.
  cbn [List.length] in E. lia.
Qed.

(** In a cache that is full, the entry dropped for a new key is the one
    least recently used, not the one least recently stored: an entry that
    has just been read stays. *)
Lemma set_after_get (now later : Z) (k k' : string) (v : JsVal) (life : option Z)
  (c : t) (e : Entry) :
  (1 < max c)%nat -> List.length (entries c) = max c -> NoDup (keys c) ->
  find k (entries c) = Some e -> now <= e_expires e -> ~ In k' (keys c) ->
  keys (set later k' v life (snd (get now k c)))
    = k' :: k :: removelast (List.remove string_dec k (keys c)).
Proof.
  intros Hpos Hlen Hnd Hf Hlive Hfresh.
  destruct (get_live now k c e Hf Hlive) as (_ & _ & Hkeys).
  destruct (find_key _ _ _ Hf) as [Hk Hin].
  assert (Hentries : entries (snd (get now k c)) = e :: remove k (entries c)).
  { unfold get. rewrite Hf.
    assert (Hst : stale now e = false) by (apply Z.ltb_ge; exact Hlive).
    now rewrite Hst. }
  pose proof (remove_once k (entries c) e Hnd Hf) as Hone.
  rewrite set_full.
  - rewrite Hkeys.
    destruct (List.remove string_dec k (keys c)) as [|k0 ks] eqn:E; [|reflexivity].
    unfold keys in E. rewrite <- remove_keys in E.
    apply (f_equal (@List.length _)) in E. rewrite length_map in E.
    cbn [List.length] in E. lia.
  - rewrite get_max. lia.
  - rewrite get_max, Hentries. cbn [List.length]. lia.
  - rewrite Hkeys. intros [->|Hin'].
    + apply Hfresh. unfold keys. rewrite <- Hk. now apply in_map.
    + apply in_remove in Hin'. now apply Hfresh.
Qed.

End LruFacts.

Lemma jikan_miss (now : Z) (fetch : string -> FetchResult) (path : string)
  (p : Proc Lru.t) (status : Z) (j : JsVal) :
  Lru.has now (AniRatio.jikan_key path) (vars p) = false ->
  fetch (AniRatio.jikan_url path) = Responds status (Ok j) ->
  ok_status status = true ->
  AniRatio.jikan now fetch path p =
    (Ok j,
     mkProc (Lru.set now (AniRatio.jikan_key path) j (Some (3 * 60 * 1000)) (vars p))
            (out p ++ [Fetch (AniRatio.jikan_url path)])).
Proof.
  intros Hmiss Hfetch Hok.
  unfold AniRatio.jikan, AniRatio.cache_has, AniRatio.cache_set, bind, read, ret,
    emit, write, lift.
  cbn [vars out]. rewrite Hmiss. cbn [vars out]. rewrite Hfetch, Hok. reflexivity.
Qed.

Lemma jikan_hit (now : Z) (fetch : string -> FetchResult) (path : string)
  (p : Proc Lru.t) :
  Lru.has now (AniRatio.jikan_key path) (vars p) = true ->
  AniRatio.jikan now fetch path p =
    (Ok (fst (Lru.get now (AniRatio.jikan_key path) (vars p))),
     mkProc (snd (Lru.get now (AniRatio.jikan_key path) (vars p))) (out p)).
Proof.
  intros Hhit.
  unfold AniRatio.jikan, AniRatio.cache_has, AniRatio.cache_get, bind, read, ret, write.
  cbn [vars out]. rewrite Hhit. reflexivity.
Qed.

(** ** Blank search queries *)

Lemma strip_white (w rest : string) :
  In w white_space -> trim_start (w ++ rest) = trim_start rest.
Proof.
  intros Hin. unfold white_space in Hin. cbn [List.map] in Hin.
  repeat (destruct Hin as [<-|Hin]; [reflexivity|]). destruct Hin.
Qed.

Lemma trim_start_blank (s : string) : all_ws s -> trim_start s = "".
Proof.
  induction 1 as [|w rest Hw _ IH]; [reflexivity|].
  now rewrite (strip_white w rest Hw).
Qed.

Lemma trim_blank (s : string) : all_ws s -> trim s = "".
Proof. intros H. unfold trim. now rewrite (trim_start_blank s H). Qed.

Lemma blank_query_text (q : JsVal) : blank q -> query_text q = Ok "".
Proof.
  destruct q as [| | | |s| |]; cbn [blank]; try contradiction; [reflexivity|].
  intros H. unfold query_text, Js.or. cbn [truthy].
  destruct (String.eqb_spec s "") as [->|_]; cbn [negb to_string]; [reflexivity|].
  now rewrite (trim_blank s H).
Qed.

(** What the two trimming search routes do once the text is read. *)
Lemma search_reads_text (gogo : option Lib) (now : Z) (fetch : string -> FetchResult)
  (q : JsVal) (text : string) (p : Proc Lru.t) :
  query_text q = Ok text ->
  AniRatio.search gogo now fetch q p =
    (if String.eqb text "" then ret (AniRatio.ok (JObj [("results", JArr [])]))
     else
       try_catch
         (r <- AniRatio.search_gogo gogo text;;
          match r with
          | Some resp => ret resp
          | None =>
              jk <- AniRatio.jikan now fetch
                      ("/anime?q=" ++ encodeURIComponent text ++ "&limit=24");;
              jd <- lift (get jk "data");;
              m <- lift (AniRatio.mapJikan jd);;
              ret (AniRatio.ok (JObj [("results", m); ("provider", JStr "jikan")]))
          end)
         (AniRatio.failed [("route", JStr "search")] "search_failed")) p.
Proof.
  unfold query_text, AniRatio.search, bind, lift.
  destruct (to_string (q || JStr "")%js) as [s|e]; [|discriminate].
  now intros [= <-].
Qed.

Lemma search_unread (gogo : option Lib) (now : Z) (fetch : string -> FetchResult)
  (q : JsVal) (e : Exn) (p : Proc Lru.t) :
  query_text q = Throw e -> AniRatio.search gogo now fetch q p = (Throw e, p).
Proof.
  unfold query_text, AniRatio.search, bind, lift.
  destruct (to_string (q || JStr "")%js) as [s|e']; [discriminate|].
  now intros [= <-].
Qed.

Lemma proxy_search_reads_text (import : string -> Res GogoProxy.ModuleNs)
  (fetch : string -> FetchResult) (q : JsVal) (text : string) (p : Proc (option Lib)) :
  query_text q = Ok text ->
  GogoProxy.search import fetch q p =
    (if String.eqb text "" then ret (GogoProxy.json (JArr []))
     else
       lib <- GogoProxy.tryLoadLibs import;;
       r <- GogoProxy.via_lib lib "search" (JStr text)
              (fun data => map_method data (fun a => Ok (GogoProxy.mapItem a)));;
       GogoProxy.or_else r
         (data <- GogoProxy.fb fetch ("/search?q=" ++ encodeURIComponent text);;
          ret (GogoProxy.json (GogoProxy.items_of data)))) p.
Proof.
  unfold query_text, GogoProxy.search, bind at 1, lift.
  destruct (to_string (q || JStr "")%js) as [s|e]; [|discriminate].
  now intros [= <-].
Qed.

Lemma proxy_search_unread (import : string -> Res GogoProxy.ModuleNs)
  (fetch : string -> FetchResult) (q : JsVal) (e : Exn) (p : Proc (option Lib)) :
  query_text q = Throw e -> GogoProxy.search import fetch q p = (Throw e, p).
Proof.
  unfold query_text, GogoProxy.search, bind, lift.
  destruct (to_string (q || JStr "")%js) as [s|e']; [discriminate|].
  now intros [= <-].
Qed.

(** C10.  A search request whose query parameter is missing, empty or
    white space only, the white space of Unicode included (a no-break
    space, an ideographic space), is answered at once, with status 200 and
    an empty result, and the process is left exactly as it was: no library
    call, no library load, no HTTP request, no cache access. *)
Theorem blank_search_short_circuits :
  forall (q : JsVal), blank q ->
  (forall gogo now fetch p,
      AniRatio.search gogo now fetch q p
        = (Ok (mkResponse 200 (JObj [("results", JArr [])])), p)) /\
  (forall import fetch p,
      GogoProxy.search import fetch q p = (Ok (mkResponse 200 (JArr [])), p)).
Proof.
  intros q Hq. pose proof (blank_query_text q Hq) as Ht.
  split; intros.
  - now rewrite (search_reads_text gogo now fetch q "" p Ht).
  - now rewrite (proxy_search_reads_text import fetch q "" p Ht).
Qed.

Lemma blank_search_short_circuits_witness :
  blank (JStr (utf8 [32; 194; 160; 9; 227; 128; 128; 32]%nat)) /\
  AniRatio.search None 0 (fun _ => Rejects (error "FetchError" "down"))
    (JStr (utf8 [32; 194; 160; 9; 227; 128; 128; 32]%nat)) AniRatio.boot
    = (Ok (mkResponse 200 (JObj [("results", JArr [])])), AniRatio.boot) /\
  GogoProxy.search (fun _ => Throw (error "Error" "missing"))
    (fun _ => Rejects (error "FetchError" "down")) JUndef
    GogoProxy.boot = (Ok (mkResponse 200 (JArr [])), GogoProxy.boot).
Proof.
  assert (Hin : forall w, existsb (String.eqb w) white_space = true -> In w white_space).
  { intros w H. apply existsb_exists in H as (x & Hx & Heq).
    apply String.eqb_eq in Heq. now subst. }
  assert (Hb : blank (JStr (utf8 [32; 194; 160; 9; 227; 128; 128; 32]%nat))).
  { cbn [blank].
    apply (ws_more (utf8 [32]%nat)); [now apply Hin|].
    apply (ws_more (utf8 [194; 160]%nat)); [now apply Hin|].
    apply (ws_more (utf8 [9]%nat)); [now apply Hin|].
    apply (ws_more (utf8 [227; 128; 128]%nat)); [now apply Hin|].
    apply (ws_more (utf8 [32]%nat) ""); [now apply Hin|].
    constructor. }
  split; [exact Hb|]. split.
  - apply (proj1 (blank_search_short_circuits _ Hb)).
  - apply (proj2 (blank_search_short_circuits JUndef Logic.I)).
Defined.

(** ** The normalizers *)

Lemma get_ok (x : JsVal) (k : string) : nullish x = false -> get x k = Ok (prop x k).
Proof. intros H. unfold get. now rewrite H. Qed.

Lemma or_res_ok (a b : JsVal) : (Ok a <||> Ok b) = Ok (a || b)%js.
Proof. unfold or_res, Js.or. now destruct (truthy a). Qed.

Lemma or_truthy_l (a b : JsVal) : truthy a = true -> (a || b)%js = a.
Proof. intros H. unfold Js.or. now rewrite H. Qed.

Lemma or_assoc (a b c : JsVal) : ((a || b) || c)%js = (a || (b || c))%js.
Proof. unfold Js.or. destruct (truthy a) eqn:Ha; [now rewrite Ha | reflexivity]. Qed.

Lemma truthy_not_nullish (a : JsVal) : truthy a = true -> nullish a = false.
Proof. now destruct a. Qed.

Lemma or_not_nullish (a b : JsVal) : nullish b = false -> nullish (a || b)%js = false.
Proof.
  intros Hb. unfold Js.or. destruct (truthy a) eqn:Ha; [|exact Hb].
  now apply truthy_not_nullish.
Qed.

Lemma mapGogo_item_ok (x : JsVal) :
  nullish x = false ->
  AniRatio.mapGogo_item x =
    Ok (JObj
      [("title", (prop x "title" || prop x "name" || JStr "Unknown")%js);
       ("image_url",
         (prop x "image" || prop x "poster" || prop x "image_url" || JStr "")%js);
       ("anime_id",
         (prop x "id" || prop x "slug" || prop x "animeId" || prop x "anime_id"
          || JStr "")%js);
       ("synopsis", (prop x "description" || prop x "synopsis" || JStr "")%js)]).
Proof.
  intros H. unfold AniRatio.mapGogo_item.
  rewrite !(get_ok x _ H), !or_res_ok, !or_assoc. reflexivity.
Qed.

Lemma mapJikan_item_ok (x : JsVal) (id_text : string) :
  nullish x = false ->
  to_string (prop x "mal_id") = Ok id_text ->
  AniRatio.mapJikan_item x =
    Ok (JObj
      [("title", (prop x "title" || JStr "Unknown")%js);
       ("image_url",
         (oget (oget (prop x "images") "jpg") "image_url"
          || oget (oget (prop x "images") "webp") "image_url" || JStr "")%js);
       ("anime_id", JStr ("mal-" ++ id_text));
       ("synopsis", (prop x "synopsis" || JStr "")%js)]).
Proof.
  intros H Hid. unfold AniRatio.mapJikan_item.
  rewrite !(get_ok x _ H). cbv iota. rewrite Hid, !or_res_ok, !or_assoc. reflexivity.
Qed.

Lemma mapJikan_item_raises (x : JsVal) (e : Exn) :
  nullish x = false ->
  to_string (prop x "mal_id") = Throw e ->
  AniRatio.mapJikan_item x = Throw e.
Proof.
  intros H Hid. unfold AniRatio.mapJikan_item.
  rewrite !(get_ok x _ H). cbv iota. rewrite Hid, !or_res_ok. reflexivity.
Qed.

Lemma map_res_each (f : JsVal -> Res JsVal) (xs : list JsVal) :
  Forall (fun x => exists y, f x = Ok y) xs ->
  exists ys, map_res f xs = Ok ys /\ Forall2 (fun x y => f x = Ok y) xs ys.
Proof.
  induction 1 as [|x xs [y Hy] _ [ys [Hys Hall]]]; simpl.
  - exists []. split; [reflexivity | constructor].
  - rewrite Hy, Hys. exists (y :: ys). split; [reflexivity | now constructor].
Qed.

Lemma present_cons (k : string) (ks : list string) (item : JsVal) :
  nullish (prop item k) = false -> present ks item = true ->
  present (k :: ks) item = true.
Proof. intros H1 H2. unfold present in *. simpl. now rewrite H1, H2. Qed.

Ltac present_fields :=
  repeat (apply present_cons; [cbn [prop lookup]; simpl String.eqb; cbv iota;
                               repeat apply or_not_nullish; reflexivity |]);
  reflexivity.

(** C4 (amended).  On a raw item that is a value other than null and
    undefined, [mapGogo] returns a record and never raises, and every
    field of the record is non-null: each is the first truthy candidate of
    its chain, else a literal.  [mapJikan] does the same when [String] can
    convert the item's [mal_id], which the id is built from; when it
    cannot, as for a [mal_id] that is an object with a [toString] of its
    own, [mapJikan] raises that TypeError.  [mapItem] returns such a
    record on any raw value at all.  The chains are the ones of the code:
    the title of [mapGogo] is [title], else [name], else "Unknown" (no
    [animeTitle]); that of [mapJikan] is [title], else "Unknown"; that of
    [mapItem] is [title], else [name], else [animeTitle], else the empty
    string, and [mapItem] produces an id and tags but no synopsis.  A
    sequence is mapped item by item, in order, and a missing sequence as
    the empty one. *)
Theorem normalizers_total_on_records :
  forall (x : JsVal) (xs : list JsVal),
  nullish x = false ->
  Forall (fun y => nullish y = false) xs ->
  (exists item,
      AniRatio.mapGogo_item x = Ok item /\
      present ["title"; "image_url"; "anime_id"; "synopsis"] item = true /\
      prop item "title" = (prop x "title" || prop x "name" || JStr "Unknown")%js /\
      prop item "image_url" =
        (prop x "image" || prop x "poster" || prop x "image_url" || JStr "")%js /\
      prop item "anime_id" =
        (prop x "id" || prop x "slug" || prop x "animeId" || prop x "anime_id"
         || JStr "")%js /\
      prop item "synopsis" = (prop x "description" || prop x "synopsis" || JStr "")%js) /\
  (forall id_text, to_string (prop x "mal_id") = Ok id_text ->
   exists item,
      AniRatio.mapJikan_item x = Ok item /\
      present ["title"; "image_url"; "anime_id"; "synopsis"] item = true /\
      prop item "title" = (prop x "title" || JStr "Unknown")%js /\
      prop item "image_url" =
        (oget (oget (prop x "images") "jpg") "image_url"
         || oget (oget (prop x "images") "webp") "image_url" || JStr "")%js /\
      prop item "anime_id" = JStr ("mal-" ++ id_text) /\
      prop item "synopsis" = (prop x "synopsis" || JStr "")%js) /\
  (forall e, to_string (prop x "mal_id") = Throw e ->
      AniRatio.mapJikan_item x = Throw e) /\
  (forall a,
      present ["id"; "title"; "cover"; "tags"] (GogoProxy.mapItem a) = true /\
      prop (GogoProxy.mapItem a) "id" =
        (oget a "id" || oget a "animeId" || oget a "slug" || oget a "url"
         || oget a "alias" || JStr "")%js /\
      prop (GogoProxy.mapItem a) "title" =
        (oget a "title" || oget a "name" || oget a "animeTitle" || JStr "")%js /\
      prop (GogoProxy.mapItem a) "cover" =
        (oget a "cover" || oget a "image_url" || oget a "image" || oget a "img"
         || oget a "poster" || oget a "pic" || JStr "")%js /\
      prop (GogoProxy.mapItem a) "tags" =
        (oget a "genres" || oget a "genre" || JArr [])%js /\
      prop (GogoProxy.mapItem a) "synopsis" = JUndef) /\
  (exists ys, AniRatio.mapGogo (JArr xs) = Ok (JArr ys)
              /\ Forall2 (fun y item => AniRatio.mapGogo_item y = Ok item) xs ys) /\
  (Forall (fun y => exists id_text, to_string (prop y "mal_id") = Ok id_text) xs ->
   exists ys, AniRatio.mapJikan (JArr xs) = Ok (JArr ys)
              /\ Forall2 (fun y item => AniRatio.mapJikan_item y = Ok item) xs ys) /\
  AniRatio.mapGogo JUndef = Ok (JArr []) /\
  AniRatio.mapJikan JUndef = Ok (JArr []).
Proof.
  intros x xs Hx Hxs.
  split.
  { eexists. split; [apply (mapGogo_item_ok x Hx)|].
    split; [present_fields | repeat split]. }
  split.
  { intros id_text Hid. eexists. split; [apply (mapJikan_item_ok x id_text Hx Hid)|].
    split; [present_fields | repeat split]. }
  split; [intros e He; now apply mapJikan_item_raises|].
  split.
  { intros a. split; [unfold GogoProxy.mapItem; present_fields | repeat split]. }
  split.
  { unfold AniRatio.mapGogo, map_method.
    destruct (map_res_each AniRatio.mapGogo_item xs) as (ys & -> & Hall).
    - eapply Forall_impl; [|exact Hxs]. intros y Hy. eexists.
      apply (mapGogo_item_ok y Hy).
    - now exists ys. }
  split; [|split; reflexivity].
  intros Hids. unfold AniRatio.mapJikan, map_method.
  destruct (map_res_each AniRatio.mapJikan_item xs) as (ys & -> & Hall).
  - rewrite Forall_forall in Hxs, Hids. apply Forall_forall. intros y Hy.
    destruct (Hids y Hy) as [id_text Hid]. eexists.
    apply (mapJikan_item_ok y id_text (Hxs y Hy) Hid).
  - now exists ys.
Qed.

Lemma normalizers_total_on_records_witness :
  nullish (JObj [("mal_id", JNum 21)]) = false /\
  Forall (fun y => nullish y = false) [JObj [("name", JStr "Bleach")]; JStr "raw"] /\
  (exists item,
      AniRatio.mapJikan_item (JObj [("mal_id", JNum 21)]) = Ok item /\
      prop item "title" = JStr "Unknown" /\
      prop item "anime_id" = JStr "mal-21") /\
  (exists ys,
      AniRatio.mapGogo (JArr [JObj [("name", JStr "Bleach")]; JStr "raw"]) = Ok (JArr ys)
      /\ Forall2 (fun y item => AniRatio.mapGogo_item y = Ok item)
           [JObj [("name", JStr "Bleach")]; JStr "raw"] ys).
Proof.
  assert (H1 : nullish (JObj [("mal_id", JNum 21)]) = false) by reflexivity.
  assert (H2 : Forall (fun y => nullish y = false)
                 [JObj [("name", JStr "Bleach")]; JStr "raw"])
    by (repeat constructor).
  destruct (normalizers_total_on_records (JObj [("mal_id", JNum 21)]) _ H1 H2)
    as (_ & Hjikan & _ & _ & Hlist & _).
  destruct (Hjikan "21" eq_refl) as (item & Hitem & _ & Htitle & _ & Hid & _).
  split; [exact H1|]. split; [exact H2|]. split.
  - exists item. now repeat split.
  - exact Hlist.
Defined.

(** C4 as stated fails.  [mapGogo] does not look at [animeTitle]: an item
    that carries only that name gets the title "Unknown", where the chain
    of the claim gives the name.  [mapItem] ends its title chain with the
    empty string, not "Unknown", and produces no synopsis.  And the
    normalizers do raise: [mapGogo] and [mapJikan] a TypeError on a
    sequence that holds null, [mapJikan] also on an item whose [mal_id]
    [String] cannot convert. *)
Lemma normalizers_counterexample :
  AniRatio.mapGogo_item (JObj [("animeTitle", JStr "Bleach")])
    = Ok (JObj [("title", JStr "Unknown"); ("image_url", JStr "");
                ("anime_id", JStr ""); ("synopsis", JStr "")]) /\
  claimed_title (JObj [("animeTitle", JStr "Bleach")]) = JStr "Bleach" /\
  prop (GogoProxy.mapItem (JObj [])) "title" = JStr "" /\
  claimed_title (JObj []) = JStr "Unknown" /\
  prop (GogoProxy.mapItem (JObj [])) "synopsis" = JUndef /\
  AniRatio.mapGogo (JArr [JNull]) = Throw TypeError /\
  AniRatio.mapJikan (JArr [JNull]) = Throw TypeError /\
  AniRatio.mapJikan (JArr [JObj [("mal_id", JObj [("toString", JNum 1)])]])
    = Throw TypeError.
Proof. repeat split. Qed.

(** ** Reasoning about computations *)

Section SoundRules.

Context {V : Type} (I : V -> Prop) (P : Event -> Prop).

Lemma sound_still {A} (m : M V A) :
  (forall p, snd (m p) = p) -> Sound I P m.
Proof.
  intros H p HI. rewrite H. split; [exact HI|].
  exists []. now rewrite app_nil_r.
Qed.

Lemma sound_ret {A} (a : A) : Sound I P (ret a).
Proof. now apply sound_still. Qed.

Lemma sound_throw {A} (e : Exn) : Sound I P (@throw V A e).
Proof. now apply sound_still. Qed.

Lemma sound_lift {A} (r : Res A) : Sound I P (lift r).
Proof. now apply sound_still. Qed.

Lemma sound_read : Sound I P (@read V).
Proof. now apply sound_still. Qed.

Lemma sound_emit (ev : Event) : P ev -> Sound I P (emit ev).
Proof.
  intros Hev p HI. split; [exact HI|]. exists [ev]. split; [reflexivity|].
  now constructor.
Qed.

Lemma sound_write (v : V) : I v -> Sound I P (write v).
Proof.
  intros Hv p _. split; [exact Hv|]. exists []. simpl. now rewrite app_nil_r.
Qed.

Lemma sound_bind {A B} (m : M V A) (k : A -> M V B) :
  Sound I P m -> (forall a, Sound I P (k a)) -> Sound I P (bind m k).
Proof.
  intros Hm Hk p HI. unfold bind.
  destruct (Hm p HI) as (HI1 & evs1 & Hout1 & HP1).
  destruct (m p) as [[a|e] p1]; cbn [snd] in *.
  - destruct (Hk a p1 HI1) as (HI2 & evs2 & Hout2 & HP2).
    split; [exact HI2|]. exists (evs1 ++ evs2)%list.
    rewrite Hout2, Hout1, app_assoc. split; [reflexivity|].
    apply Forall_app. now split.
  - split; [exact HI1|]. now exists evs1.
Qed.

Lemma sound_try_catch {A} (m : M V A) (h : Exn -> M V A) :
  Sound I P m -> (forall e, Sound I P (h e)) -> Sound I P (try_catch m h).
Proof.
  intros Hm Hh p HI. unfold try_catch.
  destruct (Hm p HI) as (HI1 & evs1 & Hout1 & HP1).
  destruct (m p) as [[a|e] p1]; cbn [snd] in *.
  - split; [exact HI1|]. now exists evs1.
  - destruct (Hh e p1 HI1) as (HI2 & evs2 & Hout2 & HP2).
    split; [exact HI2|]. exists (evs1 ++ evs2)%list.
    rewrite Hout2, Hout1, app_assoc. split; [reflexivity|].
    apply Forall_app. now split.
Qed.

Lemma sound_invoke (r : CallResult) : Sound I P (invoke r).
Proof. destruct r as [[v|e]|c]; simpl; auto using sound_ret, sound_throw. Qed.

Lemma sound_await (a : Awaitable) : Sound I P (await a).
Proof. destruct a as [v|[v|e]]; simpl; auto using sound_ret, sound_throw. Qed.

Lemma sound_call (lib : Lib) (name : string) (arg : JsVal) :
  P (Native name arg) -> Sound I P (call lib name arg).
Proof.
  intros HP. unfold call. destruct (lib name); auto using sound_throw.
  apply sound_bind; [now apply sound_emit | intros _; apply sound_invoke].
Qed.

Lemma sound_call_opt (lib : Lib) (name : string) (arg : JsVal) :
  P (Native name arg) -> Sound I P (call_opt lib name arg).
Proof.
  intros HP. unfold call_opt. destruct (lib name) as [|v|f].
  - apply sound_ret.
  - destruct (nullish v); auto using sound_ret, sound_throw.
  - apply sound_bind; [now apply sound_emit | intros _; apply sound_invoke].
Qed.

Lemma sound_coalesce_m (a b : M V Awaitable) :
  Sound I P a -> Sound I P b -> Sound I P (coalesce_m a b).
Proof.
  intros Ha Hb. unfold coalesce_m. apply sound_bind; [exact Ha|].
  intros [[]|c]; auto using sound_ret.
Qed.

End SoundRules.

Create HintDb sound.
#[local] Hint Resolve sound_ret sound_throw sound_lift sound_read sound_invoke
  sound_await : sound.

(** One syntax-directed step of a soundness proof. *)
Ltac sound_step :=
  lazymatch goal with
  | |- Sound _ _ (bind _ _) => apply sound_bind; [|intros ?]
  | |- Sound _ _ (try_catch _ _) => apply sound_try_catch; [|intros ?]
  | |- Sound _ _ (coalesce_m _ _) => apply sound_coalesce_m
  | |- Sound _ _ (emit _) => apply sound_emit; try reflexivity; try exact Logic.I
  | |- Sound _ _ (call _ _ _) => apply sound_call; try reflexivity; try exact Logic.I
  | |- Sound _ _ (call_opt _ _ _) =>
      apply sound_call_opt; try reflexivity; try exact Logic.I
  | |- Sound _ _ (if ?b then _ else _) => destruct b
  | |- Sound _ _ (match ?x with _ => _ end) => destruct x
  | |- Sound _ _ _ => solve [auto with sound]
  end.

(** ** What the AniRatio handlers do to the cache and the trace *)





(** [jikan] touches the cache through [get] and [set] only, at the key of
    its path only, and emits nothing but its own HTTP request. *)
Lemma jikan_sound_at (I : Lru.t -> Prop) (P : Event -> Prop) (now : Z)
  (fetch : string -> FetchResult) (path : string) :
  (forall url, P (Fetch url)) ->
  (forall c, I c -> I (snd (Lru.get now (AniRatio.jikan_key path) c))) ->
  (forall c j status,
      I c -> fetch (AniRatio.jikan_url path) = Responds status (Ok j) ->
      ok_status status = true ->
      I (Lru.set now (AniRatio.jikan_key path) j (Some (1000 * 60 * 3)) c)) ->
  Sound I P (AniRatio.jikan now fetch path).
Proof.
  intros HP Hget Hset p HI.
  unfold AniRatio.jikan, AniRatio.cache_has, AniRatio.cache_get, AniRatio.cache_set,
    bind, read, ret, write, emit, lift, throw.
  cbn [vars out].
  destruct (Lru.has now (AniRatio.jikan_key path) (vars p)) eqn:Hhas; cbn [snd vars out].
  - split; [now apply Hget|]. exists []. now rewrite app_nil_r.
  - assert (Hev : exists evs,
               (out p ++ [Fetch (AniRatio.jikan_url path)])%list = (out p ++ evs)%list
               /\ Forall P evs)
      by (eexists; split; [reflexivity | constructor; [apply HP | constructor]]).
    destruct (fetch (AniRatio.jikan_url path)) as [e|status [j|e]] eqn:Hf;
      cbn [snd vars out]; [now split| |].
    + destruct (ok_status status) eqn:Hok; cbn [negb snd vars out]; [|now split].
      split; [|exact Hev]. now apply (Hset _ _ status).
    + destruct (ok_status status); cbn [negb snd vars out]; now split.
Qed.

Lemma jikan_sound_with (I : Lru.t -> Prop) (P : Event -> Prop) (now : Z)
  (fetch : string -> FetchResult) (path : string) :
  (forall url, P (Fetch url)) ->
  (forall c k, I c -> I (snd (Lru.get now k c))) ->
  (forall c j status,
      I c -> fetch (AniRatio.jikan_url path) = Responds status (Ok j) ->
      ok_status status = true ->
      I (Lru.set now (AniRatio.jikan_key path) j (Some (1000 * 60 * 3)) c)) ->
  Sound I P (AniRatio.jikan now fetch path).
Proof.
  intros HP Hget Hset. apply jikan_sound_at; [exact HP | | exact Hset].
  intros c. apply Hget.
Qed.


Lemma jikan_quiet (now : Z) (fetch : string -> FetchResult) (path : string) :
  Sound (fun _ => True) quiet (AniRatio.jikan now fetch path).
Proof. apply jikan_sound_with; [reflexivity | trivial | trivial]. Qed.

Lemma handle_sound_with (I : Lru.t -> Prop) (gogo : option Lib) (now : Z)
  (fetch : string -> FetchResult) (r : AniRatio.Request) :
  (forall path, Sound I quiet (AniRatio.jikan now fetch path)) ->
  Sound I quiet (AniRatio.handle gogo now fetch r).
Proof.
  intros Hj.
  destruct r; cbn [AniRatio.handle];
    unfold AniRatio.recent, AniRatio.top_airing, AniRatio.search, AniRatio.anime,
      AniRatio.stream, AniRatio.tryGogoRecent, AniRatio.tryGogoTop, AniRatio.as_list,
      AniRatio.search_gogo, AniRatio.failed;
    repeat first [apply Hj | sound_step].
Qed.

(** A request touches the cache at the key of its own Jikan path, if it
    has one, and nowhere else. *)
Lemma handle_sound_own (I : Lru.t -> Prop) (gogo : option Lib) (now : Z)
  (fetch : string -> FetchResult) (r : AniRatio.Request) :
  (forall path, jikan_path_of r = Some path ->
                Sound I quiet (AniRatio.jikan now fetch path)) ->
  Sound I quiet (AniRatio.handle gogo now fetch r).
Proof.
  intros Hj.
  destruct r as [page|page|page|q|id|ep]; cbn [AniRatio.handle].
  - unfold AniRatio.recent, AniRatio.tryGogoRecent, AniRatio.as_list, AniRatio.failed.
    repeat first [apply Hj; reflexivity | sound_step].
  - unfold AniRatio.top_airing, AniRatio.tryGogoTop, AniRatio.as_list, AniRatio.failed.
    repeat first [apply Hj; reflexivity | sound_step].
  - unfold AniRatio.top_airing, AniRatio.tryGogoTop, AniRatio.as_list, AniRatio.failed.
    repeat first [apply Hj; reflexivity | sound_step].
  - cbn [jikan_path_of] in Hj.
    destruct (query_text q) as [text|e] eqn:Hq.
    + intros p HI. rewrite (search_reads_text gogo now fetch q text p Hq).
      revert p HI. change (Sound I quiet
        (if String.eqb text "" then ret (AniRatio.ok (JObj [("results", JArr [])]))
         else
           try_catch
             (r <- AniRatio.search_gogo gogo text;;
              match r with
              | Some resp => ret resp
              | None =>
                  jk <- AniRatio.jikan now fetch
                          ("/anime?q=" ++ encodeURIComponent text ++ "&limit=24");;
                  jd <- lift (get jk "data");;
                  m <- lift (AniRatio.mapJikan jd);;
                  ret (AniRatio.ok (JObj [("results", m); ("provider", JStr "jikan")]))
              end)
             (AniRatio.failed [("route", JStr "search")] "search_failed"))).
      destruct (String.eqb text ""); [apply sound_ret|].
      unfold AniRatio.search_gogo, AniRatio.failed.
      repeat first [apply Hj; reflexivity | sound_step].
    + intros p HI. rewrite (search_unread gogo now fetch q e p Hq). cbn [snd].
      split; [exact HI|]. exists []. now rewrite app_nil_r.
  - cbn [jikan_path_of] in Hj. unfold AniRatio.anime, AniRatio.failed.
    destruct (startsWith "mal-" id);
      repeat first [apply Hj; reflexivity | sound_step].
  - unfold AniRatio.stream, AniRatio.failed. repeat sound_step.
Qed.


Lemma serve_quiet (gogo : option Lib) (arrivals : list AniRatio.Arrival) :
  Sound (fun _ => True) quiet (AniRatio.serve gogo arrivals).
Proof.
  induction arrivals as [|a rest IH]; cbn [AniRatio.serve].
  - apply sound_ret.
  - apply sound_bind.
    + apply handle_sound_with. intros path. apply jikan_quiet.
    + intros r. apply sound_bind; [exact IH | intros rs; apply sound_ret].
Qed.


(** The server keeps its cache well formed: [jikan] touches it through
    [get] and [set] only. *)
Lemma serve_well_formed (gogo : option Lib) (arrivals : list AniRatio.Arrival) :
  Sound well_formed quiet (AniRatio.serve gogo arrivals).
Proof.
  induction arrivals as [|a rest IH]; cbn [AniRatio.serve].
  - apply sound_ret.
  - apply sound_bind.
    + apply handle_sound_with. intros path. apply jikan_sound_with.
      * reflexivity.
      * intros c k (Hmax & Hnd & Hlen). repeat split.
        -- now rewrite get_max.
        -- now apply get_NoDup.
        -- pose proof (get_bounded (AniRatio.at_time a) k c). lia.
      * intros c j status (Hmax & Hnd & Hlen) _ _. repeat split.
        -- exact Hmax.
        -- now apply set_NoDup.
        -- rewrite <- Hmax. apply set_bounded. lia.
    + intros r. apply sound_bind; [exact IH | intros rs; apply sound_ret].
Qed.

(** C6.  The response cache is a bounded least-recently-used map with
    capacity 300 and a default TTL of 5 minutes; the Jikan lookups are
    stored for 3 minutes.  Inserting a 301st distinct key evicts exactly
    the least recently used of the prior 300 and keeps the other 299, and
    on read an entry past its TTL is absent (and removed) wherever it
    stands in the recency order.  Use is what counts, not insertion: a
    live entry that is read becomes the most recently used, a lookup that
    [jikan] answers from the cache is such a read, and an entry read just
    before the 301st key arrives stays while the least recently used of
    the others goes.  Whatever the server has served, its cache holds at
    most 300 entries, under distinct keys. *)
Theorem cache_bounded_lru_ttl :
  (Lru.max AniRatio.cache = 300%nat /\ Lru.ttl AniRatio.cache = 5 * 60 * 1000) /\
  (forall now fetch path p status j,
      Lru.has now (AniRatio.jikan_key path) (vars p) = false ->
      fetch (AniRatio.jikan_url path) = Responds status (Ok j) ->
      ok_status status = true ->
      AniRatio.jikan now fetch path p =
        (Ok j,
         mkProc (Lru.set now (AniRatio.jikan_key path) j
                   (Some (3 * 60 * 1000)) (vars p))
                (out p ++ [Fetch (AniRatio.jikan_url path)]))) /\
  (forall c now k v life,
      Lru.max c = 300%nat ->
      List.length (Lru.entries c) = 300%nat ->
      NoDup (Lru.keys c) ->
      ~ In k (Lru.keys c) ->
      Lru.keys (Lru.set now k v life c) = k :: removelast (Lru.keys c) /\
      ~ In (last (Lru.keys c) "") (Lru.keys (Lru.set now k v life c))) /\
  (forall c now k v life,
      (0 < Lru.max c)%nat ->
      Lru.find k (Lru.entries (Lru.set now k v life c)) =
        Some (Lru.mkEntry k v
                (now + match life with Some l => l | None => Lru.ttl c end))) /\
  (forall c now k e,
      Lru.find k (Lru.entries c) = Some e ->
      Lru.e_expires e < now ->
      Lru.has now k c = false /\
      fst (Lru.get now k c) = JUndef /\
      ~ In k (Lru.keys (snd (Lru.get now k c)))) /\
  (forall c now k e,
      Lru.find k (Lru.entries c) = Some e ->
      now <= Lru.e_expires e ->
      Lru.has now k c = true /\
      fst (Lru.get now k c) = Lru.e_value e /\
      Lru.keys (snd (Lru.get now k c)) = k :: List.remove string_dec k (Lru.keys c)) /\
  (forall now fetch path p e,
      Lru.find (AniRatio.jikan_key path) (Lru.entries (vars p)) = Some e ->
      now <= Lru.e_expires e ->
      AniRatio.jikan now fetch path p =
        (Ok (Lru.e_value e),
         mkProc (snd (Lru.get now (AniRatio.jikan_key path) (vars p))) (out p)) /\
      Lru.keys (snd (Lru.get now (AniRatio.jikan_key path) (vars p)))
        = AniRatio.jikan_key path
            :: List.remove string_dec (AniRatio.jikan_key path) (Lru.keys (vars p))) /\
  (forall c now later k e k' v life,
      Lru.max c = 300%nat ->
      List.length (Lru.entries c) = 300%nat ->
      NoDup (Lru.keys c) ->
      Lru.find k (Lru.entries c) = Some e ->
      now <= Lru.e_expires e ->
      ~ In k' (Lru.keys c) ->
      Lru.keys (Lru.set later k' v life (snd (Lru.get now k c)))
        = k' :: k :: removelast (List.remove string_dec k (Lru.keys c)) /\
      ~ In (last (List.remove string_dec k (Lru.keys c)) "")
           (Lru.keys (Lru.set later k' v life (snd (Lru.get now k c))))) /\
  (forall gogo arrivals,
      well_formed (vars (snd (AniRatio.serve gogo arrivals AniRatio.boot)))).
Proof.
  split; [split; reflexivity|].
  split.
  { intros now fetch path p status j. apply jikan_miss. }
  split.
  { intros c now k v life Hmax Hlen Hnd Hfresh.
    assert (Hkeys : Lru.keys (Lru.set now k v life c) = k :: removelast (Lru.keys c))
      by (apply set_full; [lia | lia | exact Hfresh]).
    split; [exact Hkeys|].
    rewrite Hkeys. intros [Heq|Hin].
    - apply Hfresh. rewrite Heq.
      destruct (Lru.keys c) as [|k0 ks] eqn:E.
      + unfold Lru.keys in E. apply (f_equal (@List.length _)) in E.
        rewrite length_map, Hlen in E. discriminate.
      + apply last_In. discriminate.
    - revert Hin. now apply last_not_in_removelast. }
  split.
  { intros c now k v life Hpos. unfold Lru.set. cbn [Lru.entries].
    set (e := Lru.mkEntry k v _).
    destruct (Lru.remove k (Lru.entries c)) as [|e1 es] eqn:E.
    - cbn [List.length]. destruct (Nat.ltb_spec (Lru.max c) 1) as [Hlt|_]; [lia|].
      simpl. now rewrite String.eqb_refl.
    - destruct (Nat.ltb _ _); simpl; now rewrite String.eqb_refl. }
  split.
  { intros c now k e Hfind Hexp.
    unfold Lru.has, Lru.get. rewrite Hfind.
    assert (Hst : Lru.stale now e = true) by (apply Z.ltb_lt; exact Hexp).
    rewrite Hst. cbn [fst snd negb]. repeat split.
    unfold Lru.keys. cbn [Lru.entries]. apply remove_gone. }
  split.
  { intros c now k e. apply get_live. }
  split.
  { intros now fetch path p e Hfind Hlive.
    destruct (get_live now _ _ e Hfind Hlive) as (Hhas & Hval & Hkeys).
    split; [|exact Hkeys].
    now rewrite (jikan_hit now fetch path p Hhas), Hval. }
  split.
  { intros c now later k e k' v life Hmax Hlen Hnd Hfind Hlive Hfresh.
    assert (Hkeys : Lru.keys (Lru.set later k' v life (snd (Lru.get now k c)))
                    = k' :: k :: removelast (List.remove string_dec k (Lru.keys c)))
      by (apply (set_after_get now later k k' v life c e); try assumption; lia).
    split; [exact Hkeys|].
    rewrite Hkeys.
    assert (Hnd' : NoDup (List.remove string_dec k (Lru.keys c))).
    { unfold Lru.keys. rewrite <- remove_keys. now apply remove_NoDup. }
    assert (Hne : List.remove string_dec k (Lru.keys c) <> []).
    { intros E. unfold Lru.keys in E. rewrite <- remove_keys in E.
      apply (f_equal (@List.length _)) in E. rewrite length_map in E.
      pose proof (remove_once k (Lru.entries c) e Hnd Hfind) as Hone.
      cbn [List.length] in E. lia. }
    pose proof (last_In _ "" Hne) as Hlast.
    intros [Heq|[Heq|Hin]].
    - apply Hfresh. rewrite Heq. now apply in_remove in Hlast.
    - rewrite <- Heq in Hlast. now apply in_remove in Hlast.
    - revert Hin. now apply last_not_in_removelast. }
  intros gogo arrivals.
  apply (serve_well_formed gogo arrivals AniRatio.boot).
  repeat split; [constructor | cbn; lia].
Qed.

Lemma fill_NoDup (f : nat -> string) (l : list nat) (c : Lru.t) :
  NoDup (Lru.keys c) ->
  NoDup (Lru.keys (fold_left (fun c i => Lru.set 0 (f i) JNull None c) l c)).
Proof.
  revert c. induction l as [|i l IH]; intros c Hc; simpl; [exact Hc|].
  apply IH. now apply set_NoDup.
Qed.

Lemma existsb_not_in (k : string) (l : list string) :
  existsb (String.eqb k) l = false -> ~ In k l.
Proof.
  intros Hex Hin.
  assert (Ht : existsb (String.eqb k) l = true).
  { apply existsb_exists. exists k. split; [exact Hin | apply String.eqb_refl]. }
  congruence.
Qed.

Lemma cache_bounded_lru_ttl_witness :
  (Lru.max full_cache = 300%nat /\
   List.length (Lru.entries full_cache) = 300%nat /\
   NoDup (Lru.keys full_cache) /\
   ~ In "k300" (Lru.keys full_cache) /\
   last (Lru.keys full_cache) "" = "k0" /\
   last (List.remove string_dec "k0" (Lru.keys full_cache)) "" = "k1") /\
  (Lru.keys (Lru.set 7 "k300" (JStr "x") None full_cache)
     = "k300" :: removelast (Lru.keys full_cache) /\
   ~ In (last (Lru.keys full_cache) "")
        (Lru.keys (Lru.set 7 "k300" (JStr "x") None full_cache))) /\
  (Lru.keys (Lru.set 7 "k300" (JStr "x") None (snd (Lru.get 5 "k0" full_cache)))
     = "k300" :: "k0" :: removelast (List.remove string_dec "k0" (Lru.keys full_cache)) /\
   ~ In (last (List.remove string_dec "k0" (Lru.keys full_cache)) "")
        (Lru.keys (Lru.set 7 "k300" (JStr "x") None (snd (Lru.get 5 "k0" full_cache))))) /\
  (Lru.has 180001 "k299" full_cache = true /\
   Lru.has 300001 "k299" full_cache = false /\
   fst (Lru.get 300001 "k299" full_cache) = JUndef /\
   ~ In "k299" (Lru.keys (snd (Lru.get 300001 "k299" full_cache)))).
Proof.
  assert (Hmax : Lru.max full_cache = 300%nat) by (vm_compute; reflexivity).
  assert (Hlen : List.length (Lru.entries full_cache) = 300%nat)
    by (vm_compute; reflexivity).
  assert (Hnd : NoDup (Lru.keys full_cache)) by (apply fill_NoDup; constructor).
  assert (Hfresh : ~ In "k300" (Lru.keys full_cache))
    by (apply existsb_not_in; vm_compute; reflexivity).
  destruct cache_bounded_lru_ttl as (_ & _ & Hevict & _ & Hexpire & _ & _ & Hused & _).
  split; [|split; [|split]].
  - repeat split; try assumption; vm_compute; reflexivity.
  - exact (Hevict full_cache 7 "k300" (JStr "x") None Hmax Hlen Hnd Hfresh).
  - apply (Hused full_cache 5 7 "k0" (Lru.mkEntry "k0" JNull 300000) "k300" (JStr "x") None
             Hmax Hlen Hnd); [vm_compute; reflexivity | simpl; lia | exact Hfresh].
  - split; [vm_compute; reflexivity|].
    apply (Hexpire full_cache 300001 "k299" (Lru.mkEntry "k299" JNull 300000)).
    + vm_compute; reflexivity.
    + simpl. lia.
Defined.

(** Read through [jikan], an entry moves to the front: of two bodies
    stored one after the other, the first is the most recently used again
    once it has been served from the cache. *)
Example jikan_hit_counts_as_use :
  Lru.keys (vars (snd (AniRatio.serve None
                         [AniRatio.mkArrival 0 net_up (AniRatio.Anime "mal-1");
                          AniRatio.mkArrival 1 net_up (AniRatio.Anime "mal-2")]
                         AniRatio.boot)))
    = [AniRatio.jikan_key "/anime/2"; AniRatio.jikan_key "/anime/1"] /\
  Lru.keys (vars (snd (AniRatio.serve None
                         [AniRatio.mkArrival 0 net_up (AniRatio.Anime "mal-1");
                          AniRatio.mkArrival 1 net_up (AniRatio.Anime "mal-2");
                          AniRatio.mkArrival 2 net_down (AniRatio.Anime "mal-1")]
                         AniRatio.boot)))
    = [AniRatio.jikan_key "/anime/1"; AniRatio.jikan_key "/anime/2"].
Proof. split; reflexivity. Qed.




(** ** Loading the optional library *)

Lemma count_app (f : Event -> bool) (xs ys : list Event) :
  count f (xs ++ ys) = (count f xs + count f ys)%nat.
Proof. unfold count. now rewrite filter_app, length_app. Qed.

Lemma count_none (f : Event -> bool) (evs : list Event) :
  Forall (fun ev => f ev = false) evs -> count f evs = 0%nat.
Proof.
  induction 1 as [|ev evs Hev _ IH]; [reflexivity|].
  unfold count in *. simpl. now rewrite Hev.
Qed.

Lemma count_quiet (evs : list Event) : Forall quiet evs -> count is_import evs = 0%nat.
Proof. apply count_none. Qed.

Lemma tryLoadLibs_retries (import : string -> Res GogoProxy.ModuleNs)
  (p : Proc (option Lib)) :
  unavailable import -> vars p = None ->
  GogoProxy.tryLoadLibs import p =
    (Ok None,
     mkProc None
       (out p ++ [Import "gogoanime-api"; Import "gogoanime-api-new";
                  Console "[gogo] no optional lib found; using public fallback only"])).
Proof.
  intros Himp Hnone.
  destruct (Himp "gogoanime-api") as [e1 H1].
  destruct (Himp "gogoanime-api-new") as [e2 H2].
  unfold GogoProxy.tryLoadLibs, GogoProxy.candidates, GogoProxy.load_from,
    bind, try_catch, read, ret, write, emit, lift.
  cbn [vars out]. rewrite Hnone, H1. cbn [vars out]. rewrite H2. cbn [vars out].
  now rewrite <- !app_assoc.
Qed.

Lemma fb_sound (I : option Lib -> Prop) (fetch : string -> FetchResult) (path : string) :
  Sound I quiet (GogoProxy.fb fetch path).
Proof.
  unfold GogoProxy.fb. induction GogoProxy.FALLBACK_BASES as [|base rest IH];
    cbn [GogoProxy.fb_from]; repeat sound_step.
Qed.

Lemma fallback_half_sound (I : option Lib -> Prop) (fetch : string -> FetchResult)
  (r : GogoProxy.Request) :
  Sound I quiet (fallback_half fetch r).
Proof.
  destruct r; cbn [fallback_half]; repeat first [apply fb_sound | sound_step].
Qed.

Lemma loads_search (q : JsVal) :
  loads (GogoProxy.Search q) = true ->
  exists text, query_text q = Ok text /\ String.eqb text "" = false.
Proof.
  cbn [loads]. destruct (query_text q) as [text|e]; [|discriminate].
  intros H. exists text. split; [reflexivity | now apply negb_true_iff].
Qed.

Lemma fallback_half_search (fetch : string -> FetchResult) (q : JsVal) (text : string)
  (p : Proc (option Lib)) :
  query_text q = Ok text ->
  fallback_half fetch (GogoProxy.Search q) p =
    (data <- GogoProxy.fb fetch ("/search?q=" ++ encodeURIComponent text);;
     ret (GogoProxy.json (GogoProxy.items_of data))) p.
Proof. intros Hq. cbn [fallback_half]. unfold bind at 1, lift. now rewrite Hq. Qed.

Lemma lib_arg_search (q : JsVal) (text : string) :
  query_text q = Ok text -> lib_arg (GogoProxy.Search q) = JStr text.
Proof. intros Hq. cbn [lib_arg]. now rewrite Hq. Qed.

(** With no package to import, a route that reaches [tryLoadLibs] probes
    both candidates, finds nothing, and goes on with its fallback half. *)
Lemma handle_after_failed_load (import : string -> Res GogoProxy.ModuleNs)
  (fetch : string -> FetchResult) (r : GogoProxy.Request) (p : Proc (option Lib)) :
  unavailable import -> vars p = None -> loads r = true ->
  GogoProxy.handle import fetch r p =
    fallback_half fetch r
      (mkProc None
         (out p ++ [Import "gogoanime-api"; Import "gogoanime-api-new";
                    Console "[gogo] no optional lib found; using public fallback only"])).
Proof.
  intros Himp Hnone Hloads.
  pose proof (tryLoadLibs_retries import p Himp Hnone) as Hload.
  destruct r; cbn [GogoProxy.handle];
    try (cbn [fallback_half];
         unfold GogoProxy.trending, GogoProxy.recent, GogoProxy.genres,
           GogoProxy.anime, GogoProxy.episodes, GogoProxy.watch;
         unfold bind at 1; rewrite Hload; reflexivity).
  destruct (loads_search q Hloads) as (text & Hq & Hne).
  rewrite (proxy_search_reads_text import fetch q text p Hq), Hne.
  rewrite (fallback_half_search fetch q text _ Hq).
  unfold bind at 1. rewrite Hload. reflexivity.
Qed.

(** C7 (amended).  The AniRatio server loads its library exactly once, when
    the process starts, whatever it serves afterwards.  In [server.js],
    [tryLoadLibs] memoizes a successful load only: once a candidate has
    loaded, later calls return it without importing anything; as long as
    no candidate loads, [goLib] stays null and every capability call that
    reaches [tryLoadLibs] imports both candidates again. *)
Theorem library_load_memoisation :
  forall (import : string -> Res GogoProxy.ModuleNs) (fetch : string -> FetchResult)
         (p : Proc (option Lib)),
  unavailable import ->
  vars p = None ->
  (forall require arrivals,
      count is_import (out (snd (AniRatio.main require arrivals AniRatio.boot))) = 1%nat) /\
  (forall any_import lib q,
      vars q = Some lib -> GogoProxy.tryLoadLibs any_import q = (Ok (Some lib), q)) /\
  (forall good_import ns lib q,
      vars q = None ->
      good_import "gogoanime-api" = Ok ns -> GogoProxy.pick ns = Some (Ok lib) ->
      GogoProxy.tryLoadLibs good_import q =
        (Ok (Some lib),
         mkProc (Some lib)
           (out q ++ [Import "gogoanime-api";
                      Console "[gogo] using optional lib: gogoanime-api"]))) /\
  GogoProxy.tryLoadLibs import p =
    (Ok None,
     mkProc None
       (out p ++ [Import "gogoanime-api"; Import "gogoanime-api-new";
                  Console "[gogo] no optional lib found; using public fallback only"])) /\
  (forall r, loads r = true ->
      vars (snd (GogoProxy.handle import fetch r p)) = None /\
      count is_import (out (snd (GogoProxy.handle import fetch r p)))
        = (count is_import (out p) + 2)%nat).
Proof.
  intros import fetch p Himp Hnone.
  split.
  { intros require arrivals. unfold AniRatio.main, AniRatio.load_gogo, bind, emit.
    cbn [vars out AniRatio.boot app].
    set (p1 := mkProc AniRatio.cache [Import "gogoanime-api-new"]).
    assert (Hserve : forall g,
              count is_import (out (snd (AniRatio.serve g arrivals p1))) = 1%nat).
    { intros g. destruct (serve_quiet g arrivals p1 Logic.I) as (_ & evs & -> & Hq).
      now rewrite count_app, (count_quiet evs Hq). }
    destruct (require "gogoanime-api-new"); cbn [ret]; apply Hserve. }
  split.
  { intros any_import lib q Hq. unfold GogoProxy.tryLoadLibs, bind, read, ret.
    now rewrite Hq. }
  split.
  { intros good_import ns lib q Hq Hns Hpick.
    unfold GogoProxy.tryLoadLibs, GogoProxy.candidates, GogoProxy.load_from,
      bind, try_catch, read, ret, write, emit, lift.
    cbn [vars out]. rewrite Hq, Hns. cbn [vars out]. rewrite Hpick. cbn [vars out].
    now rewrite <- !app_assoc. }
  split; [now apply tryLoadLibs_retries|].
  intros r Hr. rewrite (handle_after_failed_load import fetch r p Himp Hnone Hr).
  set (p1 := mkProc None _).
  destruct (fallback_half_sound (fun v => v = None) fetch r p1 eq_refl)
    as (Hvars & evs & -> & Hq).
  split; [exact Hvars|].
  rewrite count_app, (count_quiet evs Hq). subst p1. cbn [out].
  rewrite count_app. change (count is_import [_; _; _]) with 2%nat. lia.
Qed.

Lemma library_load_memoisation_witness :
  unavailable no_packages /\
  vars GogoProxy.boot = None /\
  GogoProxy.tryLoadLibs no_packages GogoProxy.boot =
    (Ok None,
     mkProc None
       [Import "gogoanime-api"; Import "gogoanime-api-new";
        Console "[gogo] no optional lib found; using public fallback only"]) /\
  count is_import
    (out (snd (GogoProxy.handle no_packages net_down GogoProxy.Recent GogoProxy.boot)))
    = 2%nat.
Proof.
  assert (H1 : unavailable no_packages) by (intros name; now eexists).
  assert (H2 : vars GogoProxy.boot = None) by reflexivity.
  destruct (library_load_memoisation no_packages net_down GogoProxy.boot H1 H2)
    as (_ & _ & _ & Hretry & Hcount).
  split; [exact H1|]. split; [exact H2|]. split; [exact Hretry|].
  exact (proj2 (Hcount GogoProxy.Recent eq_refl)).
Defined.

(** C7 as stated fails on [server.js].  On a machine without the packages
    two requests in a row import both candidates twice over: the failed
    load is not remembered. *)
Lemma load_counterexample :
  out (snd (GogoProxy.serve no_packages net_down
              [GogoProxy.Recent; GogoProxy.Recent] GogoProxy.boot))
    = [Import "gogoanime-api"; Import "gogoanime-api-new";
       Console "[gogo] no optional lib found; using public fallback only";
       Fetch "https://jaybeeanime.vercel.app/recent";
       Import "gogoanime-api"; Import "gogoanime-api-new";
       Console "[gogo] no optional lib found; using public fallback only";
       Fetch "https://jaybeeanime.vercel.app/recent"] /\
  count is_import
    (out (snd (GogoProxy.serve no_packages net_down
                 [GogoProxy.Recent; GogoProxy.Recent] GogoProxy.boot))) = 4%nat.
Proof. split; reflexivity. Qed.

(** ** Computations that cannot fail *)

Section ReturnRules.

Context {V : Type}.

Lemma returns_ret {A} (Q : A -> Prop) (a : A) : Q a -> Returns Q (@ret V A a).
Proof. intros Ha p. now exists a, p. Qed.

Lemma returns_bind {A B} (Q1 : A -> Prop) (Q2 : B -> Prop) (m : M V A) (k : A -> M V B) :
  Returns Q1 m -> (forall a, Q1 a -> Returns Q2 (k a)) -> Returns Q2 (bind m k).
Proof.
  intros Hm Hk p. destruct (Hm p) as (a & p1 & Hmp & Ha).
  destruct (Hk a Ha p1) as (b & p2 & Hkp & Hb).
  exists b, p2. unfold bind. now rewrite Hmp.
Qed.

Lemma returns_try_catch {A} (Q : A -> Prop) (m : M V A) (h : Exn -> M V A) :
  Ensures Q m -> (forall e, Returns Q (h e)) -> Returns Q (try_catch m h).
Proof.
  intros Hm Hh p. unfold try_catch.
  destruct (m p) as [[a|e] p1] eqn:Hmp.
  - exists a, p1. split; [reflexivity|]. now apply (Hm p a p1).
  - apply Hh.
Qed.

Lemma ensures_any {A} (m : M V A) : Ensures (fun _ => True) m.
Proof. intros p a p' _. exact Logic.I. Qed.


Lemma ensures_bind {A B} (Q : B -> Prop) (m : M V A) (k : A -> M V B) :
  (forall a, Ensures Q (k a)) -> Ensures Q (bind m k).
Proof.
  intros Hk p b p'. unfold bind. destruct (m p) as [[a|e] p1]; [|discriminate].
  apply Hk.
Qed.

End ReturnRules.

Lemma tryLoadLibs_returns (import : string -> Res GogoProxy.ModuleNs) :
  Returns (fun _ => True) (GogoProxy.tryLoadLibs import).
Proof.
  assert (Hloop : forall names, Returns (fun _ => True) (GogoProxy.load_from import names)).
  { induction names as [|name rest IH]; cbn [GogoProxy.load_from].
    - apply returns_bind with (Q1 := fun _ => True); [intros p; now eexists _, _|].
      intros _ _. apply returns_bind with (Q1 := fun _ => True);
        [intros p; now eexists _, _ | intros _ _; now apply returns_ret].
    - apply returns_bind with (Q1 := fun _ => True).
      + apply returns_try_catch; [apply ensures_any | intros e; now apply returns_ret].
      + intros [lib|] _; [now apply returns_ret | exact IH]. }
  unfold GogoProxy.tryLoadLibs.
  apply returns_bind with (Q1 := fun _ => True); [intros p; now eexists _, _|].
  intros [lib|] _; [now apply returns_ret | apply Hloop].
Qed.

Lemma fb_returns (fetch : string -> FetchResult) (path : string) :
  Returns (fun _ => True) (GogoProxy.fb fetch path).
Proof.
  unfold GogoProxy.fb. induction GogoProxy.FALLBACK_BASES as [|base rest IH];
    cbn [GogoProxy.fb_from]; [now apply returns_ret|].
  apply returns_bind with (Q1 := fun _ => True).
  - apply returns_try_catch; [apply ensures_any | intros e; now apply returns_ret].
  - intros [j|] _; [now apply returns_ret | exact IH].
Qed.

Lemma returns_ends_with (Q : Response -> Prop) (r : GogoProxy.Request)
  (m : GogoProxy.Task Response) (p : Proc (option Lib)) :
  Returns Q m -> ends_with Q r p (m p).
Proof. intros H. destruct (H p) as (resp & p' & -> & HQ). exact HQ. Qed.

(** A route of [server.js] past its parameters: the library block, then
    the fallback.  It answers whenever both renderings are sound. *)
Lemma route_returns (Q : Response -> Prop) (import : string -> Res GogoProxy.ModuleNs)
  (fetch : string -> FetchResult) (name : string) (arg : JsVal)
  (render : JsVal -> Res JsVal) (tail : JsVal -> JsVal) (path : string) :
  (forall d x, render d = Ok x -> Q (GogoProxy.json x)) ->
  (forall data, Q (GogoProxy.json (tail data))) ->
  Returns Q
    (lib <- GogoProxy.tryLoadLibs import;;
     x <- GogoProxy.via_lib lib name arg render;;
     GogoProxy.or_else x
       (data <- GogoProxy.fb fetch path;; ret (GogoProxy.json (tail data)))).
Proof.
  intros Hrender Htail.
  apply returns_bind with (Q1 := fun _ => True); [apply tryLoadLibs_returns|].
  intros lib _.
  apply returns_bind
    with (Q1 := fun x => match x with Some resp => Q resp | None => True end).
  - unfold GogoProxy.via_lib. destruct lib as [l|]; [|now apply returns_ret].
    destruct (has_member l name); [|now apply returns_ret].
    apply returns_try_catch; [|intros e; now apply returns_ret].
    apply ensures_bind. intros a. apply ensures_bind. intros d.
    intros p x p'. unfold bind, lift, ret.
    destruct (render d) as [y|e] eqn:Hy; [|discriminate].
    intros [= <- _]. now apply (Hrender d y).
  - intros [resp|] Hresp; cbn [GogoProxy.or_else]; [now apply returns_ret|].
    apply returns_bind with (Q1 := fun _ => True); [apply fb_returns|].
    intros data _. apply returns_ret. apply Htail.
Qed.


(** ** Nothing found anywhere *)






(** ** Search *)

Lemma map_res_pure (f : JsVal -> JsVal) (xs : list JsVal) :
  map_res (fun a => Ok (f a)) xs = Ok (List.map f xs).
Proof. induction xs as [|x xs IH]; simpl; [reflexivity | now rewrite IH]. Qed.

Lemma call_resolves {V} (g : Lib) (name : string) (arg : JsVal)
  (f : JsVal -> CallResult) (v : JsVal) (p : Proc V) :
  g name = MFun f -> resolves_to (f arg) v ->
  bind (call g name arg) await p
    = (Ok v, mkProc (vars p) (out p ++ [Native name arg])).
Proof.
  intros Hg Hf. unfold call, bind, emit. rewrite Hg. cbn [vars out].
  destruct Hf as [-> | ->]; reflexivity.
Qed.

Lemma call_fails {V} (g : Lib) (name : string) (arg : JsVal)
  (f : JsVal -> CallResult) (e : Exn) (p : Proc V) :
  g name = MFun f -> fails_with (f arg) e ->
  bind (call g name arg) await p
    = (Throw e, mkProc (vars p) (out p ++ [Native name arg])).
Proof.
  intros Hg Hf. unfold call, bind, emit. rewrite Hg. cbn [vars out].
  destruct Hf as [-> | ->]; reflexivity.
Qed.

Lemma bind_assoc {V A B C} (m : M V A) (k : A -> M V B) (h : B -> M V C) (p : Proc V) :
  bind (bind m k) h p = bind m (fun a => bind (k a) h) p.
Proof. unfold bind. destruct (m p) as [[a|e] p']; reflexivity. Qed.

Lemma bind_eq {V A B} (m : M V A) (k : A -> M V B) (p p' : Proc V) (a : A) :
  m p = (Ok a, p') -> bind m k p = k a p'.
Proof. intros H. unfold bind. now rewrite H. Qed.

Lemma bind_ext {V A B} (m : M V A) (k k' : A -> M V B) (p : Proc V) :
  (forall a q, k a q = k' a q) -> bind m k p = bind m k' p.
Proof. intros H. unfold bind. destruct (m p) as [[a|e] q]; [apply H | reflexivity]. Qed.

Lemma bind_throws {V A B} (m : M V A) (k : A -> M V B) (p p' : Proc V) (e : Exn) :
  m p = (Throw e, p') -> bind m k p = (Throw e, p').
Proof. intros H. unfold bind. now rewrite H. Qed.

Lemma nonempty_length_truthy (xs : list JsVal) :
  xs <> [] -> truthy (JNum (Z.of_nat (List.length xs))) = true.
Proof. destruct xs; [congruence | reflexivity]. Qed.

(** What the library block of the AniRatio search route does with an
    answer [gv] of [gogo.search]. *)
Lemma search_gogo_resolves (g : Lib) (f : JsVal -> CallResult) (text : string)
  (gv : JsVal) (p : Proc Lru.t) :
  g "search" = MFun f ->
  resolves_to (f (JStr text)) gv ->
  AniRatio.search_gogo (Some g) text p =
    (let results := if isArray gv then gv else (oget gv "results" || JArr [])%js in
     len <- lift (get results "length");;
     if truthy len then
       (m <- lift (AniRatio.mapGogo results);;
        ret (Some (AniRatio.ok (JObj [("results", m); ("provider", JStr "gogo")]))))
     else ret None)
    (mkProc (vars p) (out p ++ [Native "search" (JStr text)])).
Proof.
  intros Hg Hf. unfold AniRatio.search_gogo, has_member. rewrite Hg.
  rewrite <- bind_assoc.
  now rewrite (bind_eq _ _ _ _ _ (call_resolves g "search" (JStr text) f gv p Hg Hf)).
Qed.

(** C2 (amended).  For a search with text, when [gogo.search] exists and
    answers: if the answer (a sequence, or the [results] of an object)
    is a non-empty sequence, the AniRatio server replies
    [{ results: mapGogo(...), provider: "gogo" }] and neither Jikan nor the
    cache is touched; if it is empty, the server goes on exactly as a
    server without library, with one [jikan] lookup: on a cold cache one
    HTTP request, whose body is stored and whose [data] is replied as
    [{ results: mapJikan(data), provider: "jikan" }]; on a live entry no
    request at all.  In [server.js] the reply is the bare mapped sequence
    without a provider tag, and a sequence answered by the library, empty
    or not, is final: the fallback is not called. *)
Theorem search_provenance :
  forall (q : JsVal) (text : string) (g : Lib) (f : JsVal -> CallResult) (gv : JsVal)
         (xs : list JsVal),
  query_text q = Ok text ->
  String.eqb text "" = false ->
  g "search" = MFun f ->
  resolves_to (f (JStr text)) gv ->
  (if isArray gv then gv else (oget gv "results" || JArr [])%js) = JArr xs ->
  (forall now fetch p m,
      xs <> [] -> AniRatio.mapGogo (JArr xs) = Ok m ->
      AniRatio.search (Some g) now fetch q p =
        (Ok (mkResponse 200 (JObj [("results", m); ("provider", JStr "gogo")])),
         mkProc (vars p) (out p ++ [Native "search" (JStr text)]))) /\
  (forall now fetch p,
      xs = [] ->
      AniRatio.search (Some g) now fetch q p =
        AniRatio.search None now fetch q
          (mkProc (vars p) (out p ++ [Native "search" (JStr text)]))) /\
  (forall now fetch p status jk jd m,
      Lru.has now (AniRatio.jikan_key (search_path text)) (vars p) = false ->
      fetch (AniRatio.jikan_url (search_path text)) = Responds status (Ok jk) ->
      ok_status status = true ->
      get jk "data" = Ok jd -> AniRatio.mapJikan jd = Ok m ->
      AniRatio.search None now fetch q p =
        (Ok (mkResponse 200 (JObj [("results", m); ("provider", JStr "jikan")])),
         mkProc (Lru.set now (AniRatio.jikan_key (search_path text)) jk
                   (Some (3 * 60 * 1000)) (vars p))
                (out p ++ [Fetch (AniRatio.jikan_url (search_path text))]))) /\
  (forall now fetch p jd m,
      Lru.has now (AniRatio.jikan_key (search_path text)) (vars p) = true ->
      get (fst (Lru.get now (AniRatio.jikan_key (search_path text)) (vars p)))
          "data" = Ok jd ->
      AniRatio.mapJikan jd = Ok m ->
      AniRatio.search None now fetch q p =
        (Ok (mkResponse 200 (JObj [("results", m); ("provider", JStr "jikan")])),
         mkProc (snd (Lru.get now (AniRatio.jikan_key (search_path text))
                        (vars p)))
                (out p))) /\
  (forall import fetch p,
      vars p = Some g -> gv = JArr xs ->
      GogoProxy.search import fetch q p =
        (Ok (mkResponse 200 (JArr (List.map GogoProxy.mapItem xs))),
         mkProc (Some g) (out p ++ [Native "search" (JStr text)]))).
Proof.
  intros q text g f gv xs Hq Htext Hg Hf Hres.
  split.
  { intros now fetch p m Hne Hm.
    rewrite (search_reads_text _ now fetch q text p Hq), Htext.
    unfold try_catch. unfold bind at 1.
    rewrite (search_gogo_resolves g f text gv p Hg Hf).
    cbv zeta. rewrite Hres. unfold bind, lift, ret, get. cbn [nullish prop String.eqb
      Ascii.eqb Bool.eqb]. rewrite (nonempty_length_truthy xs Hne), Hm. reflexivity. }
  split.
  { intros now fetch p ->.
    rewrite (search_reads_text (Some g) now fetch q text p Hq),
      (search_reads_text None now fetch q text _ Hq), Htext.
    unfold try_catch. unfold bind at 1.
    rewrite (search_gogo_resolves g f text gv p Hg Hf).
    cbv zeta. rewrite Hres. reflexivity. }
  split.
  { intros now fetch p status jk jd m Hmiss Hfetch Hok Hdata Hm.
    rewrite (search_reads_text _ now fetch q text p Hq), Htext.
    fold (search_path text).
    unfold try_catch, AniRatio.search_gogo, bind, ret, lift.
    rewrite (jikan_miss now fetch _ p status jk Hmiss Hfetch Hok), Hdata, Hm.
    reflexivity. }
  split.
  { intros now fetch p jd m Hhit Hdata Hm.
    rewrite (search_reads_text _ now fetch q text p Hq), Htext.
    fold (search_path text).
    unfold try_catch, AniRatio.search_gogo, bind, ret, lift.
    rewrite (jikan_hit now fetch _ p Hhit), Hdata, Hm. reflexivity. }
  intros import fetch p Hp ->.
  rewrite (proxy_search_reads_text import fetch q text p Hq), Htext.
  unfold GogoProxy.tryLoadLibs, GogoProxy.via_lib, has_member, bind at 1 2, read, ret at 1.
  rewrite Hp, Hg. unfold try_catch. unfold bind at 1.
  rewrite <- bind_assoc.
  rewrite (bind_eq _ _ _ _ _ (call_resolves g "search" (JStr text) f _ p Hg Hf)).
  unfold bind, lift, ret, map_method. rewrite map_res_pure. cbn [GogoProxy.or_else ret].
  now rewrite Hp.
Qed.

Lemma search_provenance_witness :
  query_text (JStr " naruto ") = Ok "naruto" /\
  resolves_to (Async (Returned (JObj [("results", JArr [])]))) (JObj [("results", JArr [])]) /\
  AniRatio.search (Some (lib_with "search" (Async (Returned (JObj [("results", JArr [])])))))
    0 net_up (JStr " naruto ") AniRatio.boot
  = AniRatio.search None 0 net_up (JStr " naruto ")
      (mkProc AniRatio.cache [Native "search" (JStr "naruto")]).
Proof.
  assert (H1 : query_text (JStr " naruto ") = Ok "naruto") by reflexivity.
  assert (H2 : resolves_to (Async (Returned (JObj [("results", JArr [])])))
                 (JObj [("results", JArr [])])) by (right; reflexivity).
  split; [exact H1|]. split; [exact H2|].
  destruct (search_provenance (JStr " naruto ") "naruto"
              (lib_with "search" (Async (Returned (JObj [("results", JArr [])]))))
              (fun _ => Async (Returned (JObj [("results", JArr [])])))
              (JObj [("results", JArr [])]) [] H1 eq_refl eq_refl H2 eq_refl)
    as (_ & Hempty & _).
  exact (Hempty 0 net_up AniRatio.boot eq_refl).
Defined.

(** C2 as stated fails.  In [server.js] a library that answers the empty
    sequence ends the request: the reply is the bare [[]], with no
    provider tag, and the fallback, though reachable, is not called.  In
    the AniRatio server an empty answer of the library does lead to
    Jikan, but when Jikan answers 503 the reply is a 500 without results
    or tag. *)
Lemma search_counterexample :
  GogoProxy.search no_packages net_up (JStr "naruto")
    (mkProc (Some (lib_with "search" (Async (Returned (JArr []))))) [])
  = (Ok (mkResponse 200 (JArr [])),
     mkProc (Some (lib_with "search" (Async (Returned (JArr [])))))
       [Native "search" (JStr "naruto")]) /\
  AniRatio.search (Some (lib_with "search" (Async (Returned (JArr [])))))
    0 net_down (JStr "naruto") AniRatio.boot
  = (Ok (mkResponse 500 (JObj [("error", JStr "search_failed")])),
     mkProc AniRatio.cache
       [Native "search" (JStr "naruto");
        Fetch "https://api.jikan.moe/v4/anime?q=naruto&limit=24";
        Error (JObj [("route", JStr "search"); ("e", JStr "Error: Jikan 503")])]).
Proof. split; reflexivity. Qed.

(** ** Alias probing *)










(** ** Details by prefixed id *)

Lemma anime_without_library_calls (now : Z) (fetch : string -> FetchResult) (id : string) :
  Sound (fun _ => True) not_native (AniRatio.anime None now fetch id).
Proof.
  assert (Hj : forall path,
             Sound (fun _ => True) not_native (AniRatio.jikan now fetch path))
    by (intros path; apply jikan_sound_with; [reflexivity | trivial | trivial]).
  unfold AniRatio.anime, AniRatio.failed. repeat first [apply Hj | sound_step].
Qed.

(** C8 (amended).  A details request whose id starts with [mal-] is served
    from Jikan alone: the answer is the same with and without the library,
    and no library call is made.  When the Jikan lookup succeeds with a
    body other than null the reply is 200 and its [episodes] is the
    upstream [data.episodes] handed through as it is, with 0 in its place
    when that field is absent or null; so it is a non-negative integer
    whenever upstream sends one or none.  When the lookup succeeds with
    the body null, reading [data] off it throws, and when the lookup
    fails, the reply is 500 with the code [anime_failed], the error being
    logged with the route and the id. *)
Theorem prefixed_details_go_to_jikan :
  forall (gogo : option Lib) (now : Z) (fetch : string -> FetchResult) (id : string)
         (p : Proc Lru.t),
  startsWith "mal-" id = true ->
  AniRatio.anime gogo now fetch id p = AniRatio.anime None now fetch id p /\
  count is_native (out (snd (AniRatio.anime gogo now fetch id p)))
    = count is_native (out p) /\
  (forall jk p',
      AniRatio.jikan now fetch ("/anime/" ++ slice 4 id) p = (Ok jk, p') ->
      nullish jk = false ->
      exists resp,
        AniRatio.anime gogo now fetch id p = (Ok resp, p') /\
        status resp = 200 /\
        prop (body resp) "episodes"
          = (prop (prop jk "data" || JObj [])%js "episodes" ?? JNum 0)%js /\
        (nullish (prop (prop jk "data" || JObj [])%js "episodes") = true ->
         prop (body resp) "episodes" = JNum 0) /\
        (forall n, prop (prop jk "data" || JObj [])%js "episodes" = JNum n ->
                   prop (body resp) "episodes" = JNum n)) /\
  (forall jk p',
      AniRatio.jikan now fetch ("/anime/" ++ slice 4 id) p = (Ok jk, p') ->
      nullish jk = true ->
      exists e,
        get jk "data" = Throw e /\
        AniRatio.anime gogo now fetch id p =
          (Ok (mkResponse 500 (JObj [("error", JStr "anime_failed")])),
           mkProc (vars p')
             (out p' ++ [Error (JObj [("route", JStr "anime"); ("id", JStr id);
                                      ("e", JStr (text e))])]))) /\
  (forall e p',
      AniRatio.jikan now fetch ("/anime/" ++ slice 4 id) p = (Throw e, p') ->
      AniRatio.anime gogo now fetch id p =
        (Ok (mkResponse 500 (JObj [("error", JStr "anime_failed")])),
         mkProc (vars p')
           (out p' ++ [Error (JObj [("route", JStr "anime"); ("id", JStr id);
                                    ("e", JStr (text e))])]))).
Proof.
  intros gogo now fetch id p Hmal.
  assert (Hsame : AniRatio.anime gogo now fetch id p = AniRatio.anime None now fetch id p)
    by (unfold AniRatio.anime; now rewrite Hmal).
  split; [exact Hsame|]. split.
  { rewrite Hsame.
    destruct (anime_without_library_calls now fetch id p Logic.I) as (_ & evs & -> & Hq).
    rewrite count_app, (count_none is_native evs Hq). lia. }
  split.
  { intros jk p' Hjk Hnn. rewrite Hsame. unfold AniRatio.anime. rewrite Hmal.
    unfold try_catch, bind, lift, ret. rewrite Hjk, (get_ok jk "data" Hnn).
    eexists. split; [reflexivity|]. split; [reflexivity|].
    cbn [body prop lookup String.eqb Ascii.eqb Bool.eqb].
    split; [reflexivity|]. split.
    - intros Hnull. unfold coalesce. now rewrite Hnull.
    - intros n Hn. now rewrite Hn. }
  split.
  { intros jk p' Hjk Hnull. exists TypeError.
    assert (Hget : get jk "data" = Throw TypeError) by (unfold get; now rewrite Hnull).
    split; [exact Hget|].
    rewrite Hsame. unfold AniRatio.anime. rewrite Hmal.
    unfold try_catch, bind, lift. rewrite Hjk, Hget. reflexivity. }
  intros e p' Hjk. rewrite Hsame. unfold AniRatio.anime. rewrite Hmal.
  unfold try_catch, bind. rewrite Hjk. reflexivity.
Qed.

Lemma prefixed_details_go_to_jikan_witness :
  startsWith "mal-" "mal-21" = true /\
  (exists resp,
      AniRatio.anime (Some (lib_with "animeDetails" (Async (Thrown (error "Error" "unused")))))
        0 (jikan_says (JObj [("data", JObj [("title", JStr "One Piece")])]))
        "mal-21" AniRatio.boot
      = (Ok resp,
         mkProc (Lru.set 0 "jk:https://api.jikan.moe/v4/anime/21"
                   (JObj [("data", JObj [("title", JStr "One Piece")])])
                   (Some 180000) AniRatio.cache)
                [Fetch "https://api.jikan.moe/v4/anime/21"]) /\
      prop (body resp) "episodes" = JNum 0).
Proof.
  split; [reflexivity|].
  destruct (prefixed_details_go_to_jikan
              (Some (lib_with "animeDetails" (Async (Thrown (error "Error" "unused")))))
              0 (jikan_says (JObj [("data", JObj [("title", JStr "One Piece")])]))
              "mal-21" AniRatio.boot eq_refl) as (_ & _ & Hok & _).
  destruct (Hok (JObj [("data", JObj [("title", JStr "One Piece")])])
              (mkProc (Lru.set 0 "jk:https://api.jikan.moe/v4/anime/21"
                         (JObj [("data", JObj [("title", JStr "One Piece")])])
                         (Some 180000) AniRatio.cache)
                      [Fetch "https://api.jikan.moe/v4/anime/21"])
              eq_refl eq_refl) as (resp & Hresp & _ & _ & Hzero & _).
  exists resp. split; [exact Hresp|]. now apply Hzero.
Defined.

(** C8 as stated fails on the episode count.  [GET /anime/mal-21] hands an
    upstream [episodes] through unchecked, so a negative number or a
    string goes out as it came in; and when Jikan answers 429 the reply is
    a 500 that carries no episode count at all. *)
Lemma prefixed_details_counterexample :
  fst (AniRatio.anime None 0
         (jikan_says (JObj [("data", JObj [("title", JStr "One Piece");
                                           ("episodes", JNum (-1))])]))
         "mal-21" AniRatio.boot)
  = Ok (mkResponse 200
          (JObj [("title", JStr "One Piece"); ("image_url", JStr "");
                 ("description", JStr ""); ("episodes", JNum (-1))])) /\
  fst (AniRatio.anime None 0
         (jikan_says (JObj [("data", JObj [("episodes", JStr "?")])]))
         "mal-21" AniRatio.boot)
  = Ok (mkResponse 200
          (JObj [("title", JUndef); ("image_url", JStr "");
                 ("description", JStr ""); ("episodes", JStr "?")])) /\
  fst (AniRatio.anime None 0 (fun _ => Responds 429 (Ok (JObj []))) "mal-21" AniRatio.boot)
  = Ok (mkResponse 500 (JObj [("error", JStr "anime_failed")])).
Proof. repeat split. Qed.

(** ** The public fallback *)

Section Fallback.

Variable fetch : string -> FetchResult.
Variable path : string.

Lemma fb_from_skip (base : string) (rest : list string) (p : Proc (option Lib)) :
  no_json (fetch (base ++ path)) ->
  GogoProxy.fb_from fetch (base :: rest) path p =
    GogoProxy.fb_from fetch rest path (mkProc (vars p) (out p ++ [Fetch (base ++ path)])).
Proof.
  intros Hbad. cbn [GogoProxy.fb_from]. unfold bind at 1, try_catch, bind at 1, emit.
  cbn [vars out]. unfold no_json in Hbad.
  destruct (fetch (base ++ path)) as [e|status body]; [reflexivity|].
  destruct Hbad as [Hst | [e ->]].
  - now rewrite Hst.
  - destruct (ok_status status); reflexivity.
Qed.

Lemma fb_from_take (base : string) (rest : list string) (p : Proc (option Lib))
  (status : Z) (j : JsVal) :
  fetch (base ++ path) = Responds status (Ok j) -> ok_status status = true ->
  GogoProxy.fb_from fetch (base :: rest) path p =
    (Ok j, mkProc (vars p) (out p ++ [Fetch (base ++ path)])).
Proof.
  intros Hf Hok. cbn [GogoProxy.fb_from]. unfold bind at 1, try_catch, bind at 1, emit.
  cbn [vars out]. now rewrite Hf, Hok.
Qed.

Lemma fb_from_first_good (before : list string) (base : string) (after : list string)
  (p : Proc (option Lib)) (status : Z) (j : JsVal) :
  Forall (fun b => no_json (fetch (b ++ path))) before ->
  fetch (base ++ path) = Responds status (Ok j) -> ok_status status = true ->
  GogoProxy.fb_from fetch (before ++ base :: after) path p =
    (Ok j,
     mkProc (vars p)
       (out p ++ List.map (fun b => Fetch (b ++ path)) (before ++ [base]))).
Proof.
  intros Hbefore Hf Hok. revert p.
  induction Hbefore as [|b before Hb _ IH]; intros p.
  - now apply (fb_from_take base after p status j).
  - cbn [app List.map]. rewrite (fb_from_skip b _ p Hb), IH. cbn [vars out].
    now rewrite <- app_assoc.
Qed.

Lemma fb_from_none (bases : list string) (p : Proc (option Lib)) :
  Forall (fun b => no_json (fetch (b ++ path))) bases ->
  GogoProxy.fb_from fetch bases path p =
    (Ok JNull, mkProc (vars p) (out p ++ List.map (fun b => Fetch (b ++ path)) bases)).
Proof.
  intros Hall. revert p. induction Hall as [|b bases Hb _ IH]; intros p.
  - cbn. rewrite app_nil_r. now destruct p.
  - cbn [List.map]. rewrite (fb_from_skip b _ p Hb), IH. cbn [vars out].
    now rewrite <- app_assoc.
Qed.

End Fallback.

(** C9 (amended).  [fb] requests its base URLs in order and returns the
    JSON body of the first whose request succeeds with a status in
    200-299 and whose body parses; a base that fails, answers another
    status or sends a body that is not JSON is passed over, and when no
    base is left [fb] returns null.  It never throws.  Of a body the
    routes take the first truthy one of [data], [results] and the body
    itself, and the empty sequence when none is truthy; a candidate that
    is null, undefined, false, 0 or the empty string is passed over.  On
    bodies whose [data] and [results] are each a sequence, an object,
    null or absent, that is the first present non-null candidate. *)
Theorem fallback_order_and_parse :
  forall (fetch : string -> FetchResult) (path : string) (p : Proc (option Lib))
         (body : JsVal),
  (forall before base after status j,
      Forall (fun b => no_json (fetch (b ++ path))) before ->
      fetch (base ++ path) = Responds status (Ok j) -> ok_status status = true ->
      GogoProxy.fb_from fetch (before ++ base :: after) path p =
        (Ok j,
         mkProc (vars p)
           (out p ++ List.map (fun b => Fetch (b ++ path)) (before ++ [base])))) /\
  (forall bases,
      Forall (fun b => no_json (fetch (b ++ path))) bases ->
      GogoProxy.fb_from fetch bases path p =
        (Ok JNull,
         mkProc (vars p) (out p ++ List.map (fun b => Fetch (b ++ path)) bases))) /\
  (forall status j,
      fetch ("https://jaybeeanime.vercel.app" ++ path) = Responds status (Ok j) ->
      ok_status status = true ->
      GogoProxy.fb fetch path p =
        (Ok j, mkProc (vars p) (out p ++ [Fetch ("https://jaybeeanime.vercel.app" ++ path)]))) /\
  (no_json (fetch ("https://jaybeeanime.vercel.app" ++ path)) ->
   GogoProxy.fb fetch path p =
     (Ok JNull,
      mkProc (vars p) (out p ++ [Fetch ("https://jaybeeanime.vercel.app" ++ path)]))) /\
  (truthy (oget body "data") = true -> GogoProxy.items_of body = oget body "data") /\
  (truthy (oget body "data") = false -> truthy (oget body "results") = true ->
   GogoProxy.items_of body = oget body "results") /\
  (truthy (oget body "data") = false -> truthy (oget body "results") = false ->
   truthy body = true -> GogoProxy.items_of body = body) /\
  (truthy (oget body "data") = false -> truthy (oget body "results") = false ->
   truthy body = false -> GogoProxy.items_of body = JArr []) /\
  (truthy body = true ->
   (nullish (oget body "data") = true \/ truthy (oget body "data") = true) ->
   (nullish (oget body "results") = true \/ truthy (oget body "results") = true) ->
   GogoProxy.items_of body = claimed_items body).
Proof.
  intros fetch path p body.
  split;
    [intros before base after status j H1 H2 H3;
     exact (fb_from_first_good fetch path before base after p status j H1 H2 H3)|].
  split; [intros; now apply fb_from_none|].
  split; [intros status j Hf Hok; now apply (fb_from_take fetch path _ [] p status j Hf Hok)|].
  split.
  { intros Hbad. unfold GogoProxy.fb, GogoProxy.FALLBACK_BASES.
    rewrite (fb_from_none fetch path ["https://jaybeeanime.vercel.app"] p);
      [reflexivity | now repeat constructor]. }
  assert (Hl : forall a b, truthy a = true -> (a || b)%js = a)
    by (intros a b H; unfold Js.or; now rewrite H).
  assert (Hr : forall a b, truthy a = false -> (a || b)%js = b)
    by (intros a b H; unfold Js.or; now rewrite H).
  assert (Hn : forall a b, nullish a = true -> (a ?? b)%js = b)
    by (intros a b H; unfold coalesce; now rewrite H).
  assert (Hnn : forall a b, truthy a = true -> (a ?? b)%js = a)
    by (intros a b H; unfold coalesce; now rewrite (truthy_not_nullish a H)).
  assert (Hnf : forall a, nullish a = true -> truthy a = false)
    by (intros a; destruct a; now try discriminate).
  unfold GogoProxy.items_of, claimed_items.
  repeat split.
  - intros Hd. now rewrite (Hl _ (oget body "results") Hd), (Hl _ body Hd), (Hl _ _ Hd).
  - intros Hd Hres. now rewrite (Hr _ _ Hd), (Hl _ body Hres), (Hl _ _ Hres).
  - intros Hd Hres Hb. now rewrite (Hr _ _ Hd), (Hr _ _ Hres), (Hl _ _ Hb).
  - intros Hd Hres Hb. now rewrite (Hr _ _ Hd), (Hr _ _ Hres), (Hr _ _ Hb).
  - intros Hb [Hd | Hd] [Hres | Hres].
    + rewrite (Hr _ _ (Hnf _ Hd)), (Hr _ _ (Hnf _ Hres)), (Hl _ _ Hb).
      now rewrite (Hn _ _ Hd), (Hn _ _ Hres).
    + rewrite (Hr _ _ (Hnf _ Hd)), (Hl _ body Hres), (Hl _ _ Hres).
      now rewrite (Hn _ _ Hd), (Hnn _ _ Hres).
    + rewrite (Hl _ (oget body "results") Hd), (Hl _ body Hd), (Hl _ _ Hd).
      now rewrite (Hnn _ (oget body "results") Hd), (Hnn _ body Hd).
    + rewrite (Hl _ (oget body "results") Hd), (Hl _ body Hd), (Hl _ _ Hd).
      now rewrite (Hnn _ (oget body "results") Hd), (Hnn _ body Hd).
Qed.

Lemma fallback_order_and_parse_witness :
  Forall (fun b => no_json (first_mirror_html (b ++ "/recent"))) ["https://a.example"] /\
  GogoProxy.fb_from first_mirror_html ["https://a.example"; "https://b.example"]
    "/recent" GogoProxy.boot
  = (Ok (JObj [("data", JArr [JObj [("id", JStr "bleach")]])]),
     mkProc None [Fetch "https://a.example/recent"; Fetch "https://b.example/recent"]) /\
  GogoProxy.items_of (JObj [("data", JNull); ("results", JArr [JObj [("id", JStr "bleach")]])])
  = JArr [JObj [("id", JStr "bleach")]].
Proof.
  assert (H : Forall (fun b => no_json (first_mirror_html (b ++ "/recent")))
                ["https://a.example"]).
  { constructor; [|constructor]. right. now eexists. }
  destruct (fallback_order_and_parse first_mirror_html "/recent" GogoProxy.boot
              (JObj [("data", JNull); ("results", JArr [JObj [("id", JStr "bleach")]])]))
    as (Hfirst & _ & _ & _ & _ & Hresults & _).
  split; [exact H|]. split.
  - exact (Hfirst ["https://a.example"] "https://b.example" [] 200
             (JObj [("data", JArr [JObj [("id", JStr "bleach")]])]) H eq_refl eq_refl).
  - exact (Hresults eq_refl eq_refl).
Defined.

(** C9 as stated fails.  The candidates are told apart by truthiness, not
    by being null: a body whose [data] is the empty string (or 0, or
    false) and whose [results] is a sequence gives the [results], where
    the first present non-null candidate is [data].  And a successful
    status is not enough for a base to be used: a mirror that answers 200
    with a page that is not JSON is passed over for the next one. *)
Lemma fallback_counterexample :
  GogoProxy.items_of
    (JObj [("data", JStr ""); ("results", JArr [JObj [("id", JStr "bleach")]])])
  = JArr [JObj [("id", JStr "bleach")]] /\
  claimed_items
    (JObj [("data", JStr ""); ("results", JArr [JObj [("id", JStr "bleach")]])])
  = JStr "" /\
  first_mirror_html "https://a.example/recent" = Responds 200 (Throw (error "SyntaxError" "Unexpected token")) /\
  GogoProxy.fb_from first_mirror_html ["https://a.example"; "https://b.example"]
    "/recent" GogoProxy.boot
  = (Ok (JObj [("data", JArr [JObj [("id", JStr "bleach")]])]),
     mkProc None [Fetch "https://a.example/recent"; Fetch "https://b.example/recent"]).
Proof. repeat split. Qed.

(** ** The earliest server *)

(** The earliest [/search] tests the raw parameter: a missing or empty one
    is answered with the empty sequence at once, but a parameter of white
    space is passed to the library as it is. *)
Remark earliest_search_does_not_trim :
  (forall g p, GogoMinimal.search g JUndef p = (Ok (mkResponse 200 (JArr [])), p)) /\
  (forall g p, GogoMinimal.search g (JStr "") p = (Ok (mkResponse 200 (JArr [])), p)) /\
  GogoMinimal.search (Some (lib_with "search" (Async (Returned (JArr []))))) (JStr "  ")
    (mkProc tt [])
  = (Ok (mkResponse 200 (JArr [])), mkProc tt [Native "search" (JStr "  ")]).
Proof. repeat split. Qed.

(* ================================================================== *)
(** * Further properties *)

(** ** Every route of the AniRatio server answers *)








Lemma aniratio_always_answers_sample :
  AniRatio.handle None 0 net_up (AniRatio.Search (JObj [("toString", JStr "x")]))
    AniRatio.boot = (Throw TypeError, AniRatio.boot) /\
  AniRatio.handle None 0 net_up (AniRatio.Stream (JArr [])) AniRatio.boot
    = (Ok (AniRatio.err 400 "missing_ep"), AniRatio.boot).
Proof. split; reflexivity. Qed.

(** ** What [jikan] keeps and for how long *)

Lemma find_after_set (now : Z) (k : string) (v : JsVal) (life : Z) (c : Lru.t) :
  (0 < Lru.max c)%nat ->
  Lru.find k (Lru.entries (Lru.set now k v (Some life) c))
    = Some (Lru.mkEntry k v (now + life)).
Proof.
  intros Hpos. unfold Lru.set. cbn [Lru.entries].
  destruct (Lru.remove k (Lru.entries c)) as [|e1 es].
  - cbn [List.length]. destruct (Nat.ltb_spec (Lru.max c) 1) as [Hlt|_]; [lia|].
    simpl. now rewrite String.eqb_refl.
  - destruct (Nat.ltb _ _); simpl; now rewrite String.eqb_refl.
Qed.

Lemma jikan_emits_on_miss (now : Z) (fetch : string -> FetchResult) (path : string)
  (p : Proc Lru.t) :
  Lru.has now (AniRatio.jikan_key path) (vars p) = false ->
  out (snd (AniRatio.jikan now fetch path p))
    = (out p ++ [Fetch (AniRatio.jikan_url path)])%list.
Proof.
  intros Hmiss.
  unfold AniRatio.jikan, AniRatio.cache_has, AniRatio.cache_set, bind, read, ret,
    emit, write, lift, throw.
  cbn [vars out]. rewrite Hmiss. cbn [vars out].
  destruct (fetch (AniRatio.jikan_url path)) as [e|status [j|e]]; [reflexivity| |];
    destruct (ok_status status); reflexivity.
Qed.

(** ** Entries outlive other lookups *)

Lemma remove_app (k : string) (xs ys : list Lru.Entry) :
  Lru.remove k (xs ++ ys) = (Lru.remove k xs ++ Lru.remove k ys)%list.
Proof.
  induction xs as [|x xs IH]; simpl; [reflexivity|].
  destruct (String.eqb k (Lru.e_key x)); [exact IH | simpl; now rewrite IH].
Qed.

Lemma remove_around (k : string) (front back : list Lru.Entry) (e : Lru.Entry) :
  k <> Lru.e_key e ->
  Lru.remove k (front ++ e :: back)
    = (Lru.remove k front ++ e :: Lru.remove k back)%list.
Proof.
  intros Hne. rewrite remove_app. cbn [Lru.remove].
  now destruct (String.eqb_spec k (Lru.e_key e)).
Qed.

Lemma find_behind (k : string) (front rest : list Lru.Entry) :
  ~ In k (List.map Lru.e_key front) -> Lru.find k (front ++ rest) = Lru.find k rest.
Proof.
  induction front as [|x front IH]; simpl; intros Hk; [reflexivity|].
  destruct (String.eqb_spec k (Lru.e_key x)) as [->|_]; [tauto|].
  apply IH. tauto.
Qed.

Lemma held_find (e : Lru.Entry) (touched : list string) (c : Lru.t) :
  ~ In (Lru.e_key e) touched -> held e touched c ->
  Lru.find (Lru.e_key e) (Lru.entries c) = Some e.
Proof.
  intros Hout (front & back & -> & _ & Hincl).
  rewrite find_behind by (intros Hin; apply Hout, Hincl, Hin).
  simpl. now rewrite String.eqb_refl.
Qed.

Lemma held_remove (e : Lru.Entry) (touched : list string) (k : string)
  (front : list Lru.Entry) :
  NoDup (List.map Lru.e_key front) -> incl (List.map Lru.e_key front) touched ->
  NoDup (List.map Lru.e_key (Lru.remove k front)) /\
  incl (List.map Lru.e_key (Lru.remove k front)) touched.
Proof.
  intros Hnd Hincl. split; [now apply remove_NoDup|].
  intros k' Hin. apply Hincl. eapply remove_subset; eassumption.
Qed.

(** Reading another key leaves the entry where it is, behind the entries
    used since. *)
Lemma held_get (e : Lru.Entry) (touched : list string) (now : Z) (k : string)
  (c : Lru.t) :
  ~ In (Lru.e_key e) touched -> In k touched ->
  held e touched c -> held e touched (snd (Lru.get now k c)).
Proof.
  intros Hout Hk Hheld.
  assert (Hne : k <> Lru.e_key e) by (intros ->; contradiction).
  destruct Hheld as (front & back & Hes & Hnd & Hincl).
  destruct (held_remove e touched k front Hnd Hincl) as [Hnd' Hincl'].
  unfold Lru.get.
  destruct (Lru.find k (Lru.entries c)) as [e'|] eqn:Hf;
    [|now exists front, back].
  destruct (find_key _ _ _ Hf) as [Hk' _].
  destruct (Lru.stale now e'); cbn [snd Lru.entries]; rewrite Hes, remove_around by exact Hne.
  - now exists (Lru.remove k front), (Lru.remove k back).
  - exists (e' :: Lru.remove k front), (Lru.remove k back).
    split; [reflexivity|]. cbn [List.map]. rewrite Hk'. split.
    + constructor; [apply remove_gone | exact Hnd'].
    + intros k' [<-|Hin]; [exact Hk | now apply Hincl'].
Qed.

(** Storing another key leaves the entry in the cache as long as fewer
    keys than the cache has room for were used since: the entry dropped
    at capacity is one behind it. *)
Lemma held_set (e : Lru.Entry) (touched : list string) (now : Z) (k : string)
  (v : JsVal) (life : option Z) (c : Lru.t) :
  ~ In (Lru.e_key e) touched -> In k touched ->
  (List.length touched < Lru.max c)%nat ->
  held e touched c -> held e touched (Lru.set now k v life c).
Proof.
  intros Hout Hk Hroom Hheld.
  assert (Hne : k <> Lru.e_key e) by (intros ->; contradiction).
  destruct Hheld as (front & back & Hes & Hnd & Hincl).
  destruct (held_remove e touched k front Hnd Hincl) as [Hnd' Hincl'].
  unfold Lru.set. cbn [Lru.entries]. rewrite Hes, remove_around by exact Hne.
  set (new := Lru.mkEntry k v _).
  assert (Hfront : NoDup (List.map Lru.e_key (new :: Lru.remove k front)) /\
                   incl (List.map Lru.e_key (new :: Lru.remove k front)) touched).
  { cbn [List.map Lru.e_key new]. split.
    - constructor; [apply remove_gone | exact Hnd'].
    - intros k' [<-|Hin]; [exact Hk | now apply Hincl']. }
  destruct Hfront as [Hnd2 Hincl2].
  pose proof (NoDup_incl_length Hnd2 Hincl2) as Hlen. rewrite length_map in Hlen.
  change (new :: (Lru.remove k front ++ e :: Lru.remove k back)%list)
    with ((new :: Lru.remove k front) ++ e :: Lru.remove k back)%list.
  destruct (Nat.ltb_spec (Lru.max c)
              (List.length ((new :: Lru.remove k front) ++ e :: Lru.remove k back)))
    as [Hover|_].
  - destruct (Lru.remove k back) as [|y ys] eqn:Hback.
    + rewrite length_app in Hover. cbn [List.length] in Hover, Hlen. lia.
    + exists (new :: Lru.remove k front), (removelast (y :: ys)).
      split; [|now split].
      rewrite removelast_app by discriminate.
      change (removelast (e :: y :: ys)) with (e :: removelast (y :: ys)).
      reflexivity.
  - now exists (new :: Lru.remove k front), (Lru.remove k back).
Qed.

(** The keys the requests look up, one request after the other. *)
Lemma keys_of_cons (a : AniRatio.Arrival) (rest : list AniRatio.Arrival) (path : string) :
  jikan_path_of (AniRatio.req a) = Some path ->
  keys_of (a :: rest) = AniRatio.jikan_key path :: keys_of rest.
Proof. intros H. unfold keys_of. cbn [flat_map]. now rewrite H. Qed.

(** An entry stays in the cache while the server answers other requests,
    as long as these look up other keys, fewer than the cache has room
    for. *)
Lemma serve_keeps (gogo : option Lib) (e : Lru.Entry) (touched : list string)
  (room : nat) (arrivals : list AniRatio.Arrival) :
  ~ In (Lru.e_key e) touched ->
  (List.length touched < room)%nat ->
  incl (keys_of arrivals) touched ->
  Sound (fun c => Lru.max c = room /\ held e touched c) quiet
    (AniRatio.serve gogo arrivals).
Proof.
  intros Hout Hroom.
  induction arrivals as [|a rest IH]; intros Hincl; cbn [AniRatio.serve].
  - apply sound_ret.
  - apply sound_bind.
    + apply handle_sound_own. intros path Hpath.
      assert (Hk : In (AniRatio.jikan_key path) touched).
      { apply Hincl. rewrite (keys_of_cons a rest path Hpath). now left. }
      apply jikan_sound_at.
      * reflexivity.
      * intros c [Hmax Hheld]. split; [now rewrite get_max | now apply held_get].
      * intros c j status [Hmax Hheld] _ _. split; [exact Hmax|].
        apply held_set; [exact Hout | exact Hk | now rewrite Hmax | exact Hheld].
    + intros r. apply sound_bind; [|intros rs; apply sound_ret].
      apply IH. intros k Hin. apply Hincl.
      unfold keys_of in *. cbn [flat_map]. apply in_or_app. now right.
Qed.

(** What [jikan] stores stands first in the cache. *)
Lemma held_after_set (now : Z) (k : string) (v : JsVal) (life : Z) (touched : list string)
  (c : Lru.t) :
  (0 < Lru.max c)%nat ->
  held (Lru.mkEntry k v (now + life)) touched (Lru.set now k v (Some life) c).
Proof.
  intros Hpos. unfold Lru.set. cbn [Lru.entries].
  destruct (Nat.ltb_spec (Lru.max c)
              (List.length (Lru.mkEntry k v (now + life) :: Lru.remove k (Lru.entries c))))
    as [Hover|_].
  - destruct (Lru.remove k (Lru.entries c)) as [|y ys].
    + cbn [List.length] in Hover. lia.
    + exists [], (removelast (y :: ys)). repeat split; [constructor | intros ? []].
  - exists [], (Lru.remove k (Lru.entries c)). repeat split; [constructor | intros ? []].
Qed.

(** The body [jikan] has stored is still there, under its key, after the
    server has answered [others]. *)
Lemma stored_outlives (gogo : option Lib) (now : Z) (path : string) (j : JsVal)
  (others : list AniRatio.Arrival) (c : Lru.t) (o : list Event) :
  (List.length (keys_of others) < Lru.max c)%nat ->
  ~ In (AniRatio.jikan_key path) (keys_of others) ->
  Lru.find (AniRatio.jikan_key path)
    (Lru.entries
       (vars (snd (AniRatio.serve gogo others
                     (mkProc (Lru.set now (AniRatio.jikan_key path) j
                                (Some (3 * 60 * 1000)) c) o)))))
    = Some (Lru.mkEntry (AniRatio.jikan_key path) j (now + 3 * 60 * 1000)).
Proof.
  intros Hroom Hout.
  set (e := Lru.mkEntry (AniRatio.jikan_key path) j (now + 3 * 60 * 1000)).
  destruct (serve_keeps gogo e (keys_of others) (Lru.max c) others Hout Hroom
              (incl_refl _)
              (mkProc (Lru.set now (AniRatio.jikan_key path) j (Some (3 * 60 * 1000)) c) o))
    as ((_ & Hheld) & _).
  { split; [reflexivity|]. apply held_after_set. lia. }
  exact (held_find e (keys_of others) _ Hout Hheld).
Qed.

(** X2.  A body that [jikan] has fetched is served from the cache for
    three minutes.  Let the server answer any requests in between, one
    after the other, with or without a library, as long as they look up
    other keys, fewer than the cache has room for: a second lookup of the
    same path, made once the first has returned and at any moment up to
    180000 ms after it, returns the very same body without an HTTP
    request, whatever the network does by then.  Past that moment the
    entry counts as absent and the lookup goes out to Jikan again. *)
Theorem jikan_serves_from_cache_for_three_minutes :
  forall (gogo : option Lib) (now later : Z) (fetch fetch' : string -> FetchResult)
         (path : string) (others : list AniRatio.Arrival)
         (p : Proc Lru.t) (status : Z) (j : JsVal),
  Lru.has now (AniRatio.jikan_key path) (vars p) = false ->
  fetch (AniRatio.jikan_url path) = Responds status (Ok j) ->
  ok_status status = true ->
  (List.length (keys_of others) < Lru.max (vars p))%nat ->
  ~ In (AniRatio.jikan_key path) (keys_of others) ->
  (later <= now + 180000 ->
   fst (AniRatio.jikan later fetch' path
          (snd (AniRatio.serve gogo others (snd (AniRatio.jikan now fetch path p))))) = Ok j /\
   out (snd (AniRatio.jikan later fetch' path
               (snd (AniRatio.serve gogo others (snd (AniRatio.jikan now fetch path p))))))
     = out (snd (AniRatio.serve gogo others (snd (AniRatio.jikan now fetch path p))))) /\
  (now + 180000 < later ->
   out (snd (AniRatio.jikan later fetch' path
               (snd (AniRatio.serve gogo others (snd (AniRatio.jikan now fetch path p))))))
     = (out (snd (AniRatio.serve gogo others (snd (AniRatio.jikan now fetch path p))))
          ++ [Fetch (AniRatio.jikan_url path)])%list).
Proof.
  intros gogo now later fetch fetch' path others p status j Hmiss Hfetch Hok Hroom Hout.
  rewrite (jikan_miss now fetch path p status j Hmiss Hfetch Hok).
  cbn [snd].
  pose proof (stored_outlives gogo now path j others (vars p)
                (out p ++ [Fetch (AniRatio.jikan_url path)]) Hroom Hout) as Hfind.
  set (p2 := snd (AniRatio.serve gogo others _)) in *.
  split; intros Hlater.
  - assert (Hlive : (now + 3 * 60 * 1000 <? later) = false) by (apply Z.ltb_ge; lia).
    assert (Hhit : Lru.has later (AniRatio.jikan_key path) (vars p2) = true).
    { unfold Lru.has. rewrite Hfind. unfold Lru.stale. cbn [Lru.e_expires].
      now rewrite Hlive. }
    rewrite (jikan_hit later fetch' path p2 Hhit). cbn [fst snd out vars].
    split; [|reflexivity].
    unfold Lru.get. rewrite Hfind. unfold Lru.stale. cbn [Lru.e_expires].
    now rewrite Hlive.
  - assert (Hstale : Lru.has later (AniRatio.jikan_key path) (vars p2) = false).
    { unfold Lru.has. rewrite Hfind. unfold Lru.stale. cbn [Lru.e_expires].
      apply negb_false_iff, Z.ltb_lt. lia. }
    exact (jikan_emits_on_miss later fetch' path p2 Hstale).
Qed.

Lemma jikan_serves_from_cache_for_three_minutes_witness :
  fst (AniRatio.jikan 180000 net_down "/anime/21"
         (snd (AniRatio.serve (Some two_recent)
                 [AniRatio.mkArrival 1000 net_up (AniRatio.Anime "mal-5");
                  AniRatio.mkArrival 2000 net_up (AniRatio.Recent None);
                  AniRatio.mkArrival 3000 net_up (AniRatio.Search (JStr "one piece"))]
                 (snd (AniRatio.jikan 0 net_up "/anime/21" AniRatio.boot)))))
    = Ok (JObj [("data", JArr [JObj [("mal_id", JNum 21); ("title", JStr "One Piece")]])]) /\
  out (snd (AniRatio.jikan 180000 net_down "/anime/21"
              (snd (AniRatio.serve (Some two_recent)
                      [AniRatio.mkArrival 1000 net_up (AniRatio.Anime "mal-5");
                       AniRatio.mkArrival 2000 net_up (AniRatio.Recent None);
                       AniRatio.mkArrival 3000 net_up (AniRatio.Search (JStr "one piece"))]
                      (snd (AniRatio.jikan 0 net_up "/anime/21" AniRatio.boot))))))
    = out (snd (AniRatio.serve (Some two_recent)
                  [AniRatio.mkArrival 1000 net_up (AniRatio.Anime "mal-5");
                   AniRatio.mkArrival 2000 net_up (AniRatio.Recent None);
                   AniRatio.mkArrival 3000 net_up (AniRatio.Search (JStr "one piece"))]
                  (snd (AniRatio.jikan 0 net_up "/anime/21" AniRatio.boot)))).
Proof.
  refine (proj1 (jikan_serves_from_cache_for_three_minutes (Some two_recent) 0 180000
                   net_up net_down "/anime/21"
                   [AniRatio.mkArrival 1000 net_up (AniRatio.Anime "mal-5");
                    AniRatio.mkArrival 2000 net_up (AniRatio.Recent None);
                    AniRatio.mkArrival 3000 net_up (AniRatio.Search (JStr "one piece"))]
                   AniRatio.boot 200 _ eq_refl eq_refl eq_refl _ _) _).
  - vm_compute. lia.
  - apply existsb_not_in. vm_compute. reflexivity.
  - lia.
Defined.

(** The bound is the capacity: behind 299 lookups of other keys the body
    is still served from the cache, behind 300 it has been evicted and the
    lookup goes out again. *)
Example evicted_by_as_many_lookups_as_the_cache_holds :
  fst (AniRatio.jikan 1000 net_down "/anime/21"
         (snd (AniRatio.serve None (other_lookups 299)
                 (snd (AniRatio.jikan 0 net_up "/anime/21" AniRatio.boot)))))
    = Ok (JObj [("data", JArr [JObj [("mal_id", JNum 21); ("title", JStr "One Piece")]])]) /\
  fst (AniRatio.jikan 1000 net_down "/anime/21"
         (snd (AniRatio.serve None (other_lookups 300)
                 (snd (AniRatio.jikan 0 net_up "/anime/21" AniRatio.boot)))))
    = Throw (error "Error" "Jikan 503").
Proof. split; vm_compute; reflexivity. Qed.

(** X3.  A lookup that fails is not remembered.  When the cache has no
    live entry and the request fails, comes back with a status outside
    200-299 or with a body that is not JSON, [jikan] throws, the cache is
    exactly what it was, and one request went out; for a status outside
    200-299 the error reads "Error: Jikan" followed by the status. *)
Theorem jikan_failure_is_not_cached :
  forall (now : Z) (fetch : string -> FetchResult) (path : string) (p : Proc Lru.t),
  Lru.has now (AniRatio.jikan_key path) (vars p) = false ->
  no_json (fetch (AniRatio.jikan_url path)) ->
  exists e,
    AniRatio.jikan now fetch path p
      = (Throw e, mkProc (vars p) (out p ++ [Fetch (AniRatio.jikan_url path)])) /\
    (forall status body,
        fetch (AniRatio.jikan_url path) = Responds status body ->
        ok_status status = false ->
        e = error "Error" ("Jikan " ++ number_to_string status) /\
        text e = "Error: Jikan " ++ number_to_string status).
Proof.
  intros now fetch path p Hmiss Hbad.
  unfold AniRatio.jikan, AniRatio.cache_has, AniRatio.cache_set, bind, read, ret,
    emit, write, lift, throw.
  cbn [vars out]. rewrite Hmiss. cbn [vars out].
  unfold no_json in Hbad.
  destruct (fetch (AniRatio.jikan_url path)) as [e|status body].
  - exists e. split; [reflexivity | intros ? ? [=]].
  - destruct (ok_status status) eqn:Hok; cbn [negb].
    + destruct Hbad as [Hbad | [e ->]]; [discriminate|].
      exists e. split; [reflexivity|]. intros st b [= <- _] Hst. congruence.
    + eexists. split; [reflexivity|]. intros st b [= <- _] _. split; reflexivity.
Qed.

Lemma jikan_failure_is_not_cached_witness :
  exists e,
    AniRatio.jikan 0 net_down "/anime/21" AniRatio.boot
      = (Throw e, mkProc AniRatio.cache [Fetch "https://api.jikan.moe/v4/anime/21"]) /\
    text e = "Error: Jikan 503".
Proof.
  destruct (jikan_failure_is_not_cached 0 net_down "/anime/21" AniRatio.boot eq_refl
              (or_introl eq_refl)) as (e & Hrun & Hmsg).
  exists e. split; [exact Hrun|]. exact (proj2 (Hmsg 503 _ eq_refl eq_refl)).
Defined.

(** ** A repeated request within the three minutes *)








(** ** Ids made by [mapJikan] lead back to Jikan *)

Lemma substring_all (s : string) : String.substring 0 (String.length s) s = s.
Proof. induction s as [|c s IH]; simpl; [reflexivity | now rewrite IH]. Qed.

Lemma mal_prefix (s : string) :
  startsWith "mal-" ("mal-" ++ s) = true /\ slice 4 ("mal-" ++ s) = s.
Proof.
  split.
  - unfold startsWith. simpl. now destruct s.
  - unfold slice. simpl. rewrite Nat.sub_0_r. apply substring_all.
Qed.

Lemma number_to_string_safe (n : Z) :
  Z.abs n < 2 ^ 53 -> number_to_string n = string_of_Z n.
Proof.
  intros H. unfold number_to_string.
  now destruct (Z.ltb_spec (Z.abs n) (2 ^ 53)); [|lia].
Qed.

(** X5.  The id that [mapJikan] gives an item can be handed to the details
    route as it is: for a raw item whose [mal_id] [String] converts to
    some text, the id is "mal-" followed by that text, and a details
    request for that id looks up the Jikan path [/anime/] followed by the
    same text, with or without a library; on a cache without a live entry
    for it the first thing the request does is the HTTP request to that
    URL.  For a [mal_id] that is an integer below 2^53 in size the text is
    its decimal digits. *)
Theorem jikan_ids_lead_back_to_jikan :
  forall (x : JsVal) (id_text : string),
  nullish x = false ->
  to_string (prop x "mal_id") = Ok id_text ->
  exists item,
    AniRatio.mapJikan_item x = Ok item /\
    prop item "anime_id" = JStr ("mal-" ++ id_text) /\
    (forall gogo now fetch p,
        Lru.has now (AniRatio.jikan_key ("/anime/" ++ id_text)) (vars p) = false ->
        exists evs,
          out (snd (AniRatio.anime gogo now fetch ("mal-" ++ id_text) p))
            = (out p ++ Fetch (AniRatio.jikan_url ("/anime/" ++ id_text)) :: evs)%list) /\
    (forall n, prop x "mal_id" = JNum n -> Z.abs n < 2 ^ 53 -> id_text = string_of_Z n).
Proof.
  intros x id_text Hx Hid.
  eexists. split; [apply (mapJikan_item_ok x id_text Hx Hid)|].
  split; [reflexivity|]. split.
  - intros gogo now fetch p Hmiss.
    destruct (mal_prefix id_text) as [Hpre Hslice].
    unfold AniRatio.anime. rewrite Hpre, Hslice.
    pose proof (jikan_emits_on_miss now fetch _ p Hmiss) as Hout.
    unfold try_catch, bind.
    destruct (AniRatio.jikan now fetch ("/anime/" ++ id_text) p) as [[jk|e] p1];
      cbn [snd] in Hout.
    + destruct (lift (get jk "data") p1) as [[jd|e] p2] eqn:Hd;
        unfold lift in Hd; injection Hd as _ <-.
      * exists []. cbn [snd ret]. exact Hout.
      * eexists. unfold AniRatio.failed, bind, emit, ret. cbn [snd out vars].
        rewrite Hout, <- app_assoc. reflexivity.
    + eexists. unfold AniRatio.failed, bind, emit, ret. cbn [snd out vars].
      rewrite Hout, <- app_assoc. reflexivity.
  - intros n Hn Hsafe. rewrite Hn in Hid. cbn [to_string] in Hid.
    injection Hid as <-. now apply number_to_string_safe.
Qed.

Lemma jikan_ids_lead_back_to_jikan_witness :
  exists item,
    AniRatio.mapJikan_item (JObj [("mal_id", JNum 21); ("title", JStr "One Piece")])
      = Ok item /\
    prop item "anime_id" = JStr "mal-21" /\
    exists evs,
      out (snd (AniRatio.anime None 0 net_up "mal-21" AniRatio.boot))
        = Fetch "https://api.jikan.moe/v4/anime/21" :: evs.
Proof.
  destruct (jikan_ids_lead_back_to_jikan
              (JObj [("mal_id", JNum 21); ("title", JStr "One Piece")]) "21"
              eq_refl eq_refl)
    as (item & Hitem & Hid & Hroute & _).
  exists item. split; [exact Hitem|]. split; [exact Hid|].
  exact (Hroute None 0 net_up AniRatio.boot eq_refl).
Defined.

(** ** The library comes first on the home page routes *)



(** ** Requests that stay away from Jikan *)





(** ** Loading the library of [server.js], candidate by candidate *)

Section Loader.

Variable import : string -> Res GogoProxy.ModuleNs.

Lemma load_from_skip (name : string) (rest : list string) (p : Proc (option Lib)) :
  unusable (import name) ->
  GogoProxy.load_from import (name :: rest) p =
    GogoProxy.load_from import rest (mkProc (vars p) (out p ++ [Import name])).
Proof.
  intros Hbad. cbn [GogoProxy.load_from].
  unfold bind at 1, try_catch, bind at 1, emit. cbn [vars out].
  unfold unusable in Hbad. unfold bind at 1, lift.
  destruct (import name) as [ns|e]; [|reflexivity].
  destruct Hbad as [-> | [e ->]]; reflexivity.
Qed.

Lemma load_from_take (name : string) (rest : list string) (p : Proc (option Lib))
  (ns : GogoProxy.ModuleNs) (lib : Lib) :
  import name = Ok ns -> GogoProxy.pick ns = Some (Ok lib) ->
  GogoProxy.load_from import (name :: rest) p =
    (Ok (Some lib),
     mkProc (Some lib)
       (out p ++ [Import name; Console ("[gogo] using optional lib: " ++ name)])).
Proof.
  intros Hns Hpick. cbn [GogoProxy.load_from].
  unfold bind, try_catch, emit, lift, write, ret. cbn [vars out].
  rewrite Hns, Hpick. cbn [vars out]. now rewrite <- app_assoc.
Qed.

End Loader.

(** X9.  [tryLoadLibs] tries [gogoanime-api] before [gogoanime-api-new],
    and a candidate that cannot be used, because its import fails, or its
    module exports no constructor, or its constructor throws, is passed
    over without a trace but the import itself.  When the first is of no
    use and the second loads, the second becomes [goLib]; when neither is
    of use, [goLib] stays null and the call returns null. *)
Theorem second_candidate_is_tried :
  forall (import : string -> Res GogoProxy.ModuleNs) (p : Proc (option Lib)),
  vars p = None ->
  unusable (import "gogoanime-api") ->
  (forall ns lib,
      import "gogoanime-api-new" = Ok ns -> GogoProxy.pick ns = Some (Ok lib) ->
      GogoProxy.tryLoadLibs import p =
        (Ok (Some lib),
         mkProc (Some lib)
           (out p ++ [Import "gogoanime-api"; Import "gogoanime-api-new";
                      Console "[gogo] using optional lib: gogoanime-api-new"]))) /\
  (unusable (import "gogoanime-api-new") ->
   GogoProxy.tryLoadLibs import p =
     (Ok None,
      mkProc None
        (out p ++ [Import "gogoanime-api"; Import "gogoanime-api-new";
                   Console "[gogo] no optional lib found; using public fallback only"]))).
Proof.
  intros import p Hnone Hfirst.
  assert (Hstart : GogoProxy.tryLoadLibs import p
                   = GogoProxy.load_from import GogoProxy.candidates p)
    by (unfold GogoProxy.tryLoadLibs, bind, read; now rewrite Hnone).
  rewrite Hstart. unfold GogoProxy.candidates.
  rewrite (load_from_skip import _ _ p Hfirst).
  split.
  - intros ns lib Hns Hpick.
    rewrite (load_from_take import _ _ _ ns lib Hns Hpick). cbn [vars out].
    now rewrite <- app_assoc.
  - intros Hsecond. rewrite (load_from_skip import _ _ _ Hsecond).
    cbn [GogoProxy.load_from]. unfold bind, emit, write, ret. cbn [vars out].
    now rewrite <- !app_assoc.
Qed.

Lemma second_candidate_is_tried_witness :
  GogoProxy.tryLoadLibs
    (fun name =>
       if String.eqb name "gogoanime-api"
       then Ok (GogoProxy.mkModule (Some (Throw (error "TypeError" "not a constructor"))) None None)
       else Ok (GogoProxy.mkModule None None (Some (Ok (lib_with "search" (Sync (Thrown (error "Error" "x"))))))))
    GogoProxy.boot
  = (Ok (Some (lib_with "search" (Sync (Thrown (error "Error" "x"))))),
     mkProc (Some (lib_with "search" (Sync (Thrown (error "Error" "x")))))
       [Import "gogoanime-api"; Import "gogoanime-api-new";
        Console "[gogo] using optional lib: gogoanime-api-new"]).
Proof.
  refine (proj1 (second_candidate_is_tried _ GogoProxy.boot eq_refl _)
            (GogoProxy.mkModule None None (Some (Ok (lib_with "search" (Sync (Thrown (error "Error" "x")))))))
            (lib_with "search" (Sync (Thrown (error "Error" "x")))) eq_refl eq_refl).
  right. now eexists.
Defined.

(** ** Once the library of [server.js] is loaded *)

Lemma tryLoadLibs_loaded (import : string -> Res GogoProxy.ModuleNs) (lib : Lib)
  (p : Proc (option Lib)) :
  vars p = Some lib -> GogoProxy.tryLoadLibs import p = (Ok (Some lib), p).
Proof. intros Hp. unfold GogoProxy.tryLoadLibs, bind, read, ret. now rewrite Hp. Qed.

Lemma via_lib_sound (I : option Lib -> Prop) (lib : option Lib) (name : string)
  (arg : JsVal) (render : JsVal -> Res JsVal) :
  Sound I quiet (GogoProxy.via_lib lib name arg render).
Proof. unfold GogoProxy.via_lib. repeat sound_step. Qed.

Lemma handle_sound_loaded (import : string -> Res GogoProxy.ModuleNs)
  (fetch : string -> FetchResult) (lib : Lib) (r : GogoProxy.Request) :
  Sound (fun v => v = Some lib) quiet (GogoProxy.handle import fetch r).
Proof.
  assert (Hload : Sound (fun v => v = Some lib) quiet (GogoProxy.tryLoadLibs import)).
  { intros p Hp. rewrite (tryLoadLibs_loaded import lib p Hp). cbn [snd].
    split; [exact Hp|]. exists []. now rewrite app_nil_r. }
  assert (Hroute : forall name arg render (k : string * (JsVal -> JsVal)),
            Sound (fun v => v = Some lib) quiet
              (l <- GogoProxy.tryLoadLibs import;;
               x <- GogoProxy.via_lib l name arg render;;
               GogoProxy.or_else x (data <- GogoProxy.fb fetch (fst k);;
                                    ret (GogoProxy.json (snd k data))))).
  { intros name arg render k. apply sound_bind; [exact Hload|]. intros l.
    apply sound_bind; [apply via_lib_sound|]. intros [resp|]; cbn [GogoProxy.or_else].
    - apply sound_ret.
    - apply sound_bind; [apply fb_sound | intros data; apply sound_ret]. }
  destruct r; cbn [GogoProxy.handle];
    unfold GogoProxy.trending, GogoProxy.recent, GogoProxy.genres, GogoProxy.search,
      GogoProxy.anime, GogoProxy.episodes, GogoProxy.watch.
  - apply (Hroute _ _ _ ("/trending", GogoProxy.items_of)).
  - apply (Hroute _ _ _ ("/recent", GogoProxy.items_of)).
  - apply (Hroute _ _ _ ("/genres", fun data => (oget data "genres" || data || JArr [])%js)).
  - apply sound_bind; [apply sound_lift|]. intros s. cbv zeta.
    destruct (String.eqb _ ""); [apply sound_ret|].
    apply (Hroute _ _ _ (_, GogoProxy.items_of)).
  - apply (Hroute _ _ _ (_, fun d => JObj _)).
  - apply (Hroute _ _ _ (_, GogoProxy.items_of)).
  - apply (Hroute _ _ _ (_, GogoProxy.source_of)).
Qed.

(** X10.  Once [tryLoadLibs] has loaded a library, [server.js] keeps it
    for good: whatever requests follow and however they end, [goLib] is
    still that library afterwards and no package has been imported
    again. *)
Theorem loaded_library_is_kept :
  forall (import : string -> Res GogoProxy.ModuleNs) (fetch : string -> FetchResult)
         (reqs : list GogoProxy.Request) (lib : Lib) (p : Proc (option Lib)),
  vars p = Some lib ->
  vars (snd (GogoProxy.serve import fetch reqs p)) = Some lib /\
  count is_import (out (snd (GogoProxy.serve import fetch reqs p)))
    = count is_import (out p).
Proof.
  intros import fetch reqs lib p Hp.
  assert (Hs : Sound (fun v => v = Some lib) quiet (GogoProxy.serve import fetch reqs)).
  { induction reqs as [|r rest IH]; cbn [GogoProxy.serve]; [apply sound_ret|].
    apply sound_bind; [apply handle_sound_loaded|]. intros x.
    apply sound_bind; [exact IH | intros xs; apply sound_ret]. }
  destruct (Hs p Hp) as (Hvars & evs & Hout & Hev).
  split; [exact Hvars|].
  rewrite Hout, count_app, (count_quiet evs Hev). lia.
Qed.

Lemma loaded_library_is_kept_witness :
  count is_import
    (out (snd (GogoProxy.serve no_packages net_down
                 [GogoProxy.Trending; GogoProxy.Search (JStr "naruto"); GogoProxy.Watch "e1"]
                 (mkProc (Some (lib_with "search" (Async (Thrown (error "Error" "timeout"))))) []))))
    = 0%nat.
Proof.
  exact (proj2 (loaded_library_is_kept no_packages net_down
                  [GogoProxy.Trending; GogoProxy.Search (JStr "naruto"); GogoProxy.Watch "e1"]
                  (lib_with "search" (Async (Thrown (error "Error" "timeout"))))
                  (mkProc (Some (lib_with "search" (Async (Thrown (error "Error" "timeout"))))) [])
                  eq_refl)).
Defined.

(** ** When the library of [server.js] is of no help *)

Section ViaLib.

Variable g : Lib.
Variable name : string.
Variable arg : JsVal.
Variable render : JsVal -> Res JsVal.

Lemma via_lib_missing (p : Proc (option Lib)) :
  has_member g name = false ->
  GogoProxy.via_lib (Some g) name arg render p = (Ok None, p).
Proof. intros H. unfold GogoProxy.via_lib. now rewrite H. Qed.

Lemma via_lib_fails (f : JsVal -> CallResult) (e : Exn) (p : Proc (option Lib)) :
  g name = MFun f -> fails_with (f arg) e ->
  GogoProxy.via_lib (Some g) name arg render p
    = (Ok None, mkProc (vars p) (out p ++ [Native name arg])).
Proof.
  intros Hg Hf. unfold GogoProxy.via_lib, has_member, try_catch. rewrite Hg.
  rewrite <- bind_assoc.
  now rewrite (bind_throws _ _ _ _ _ (call_fails g name arg f e p Hg Hf)).
Qed.

Lemma via_lib_resolves (f : JsVal -> CallResult) (v : JsVal) (p : Proc (option Lib)) :
  g name = MFun f -> resolves_to (f arg) v ->
  GogoProxy.via_lib (Some g) name arg render p
    = (match render v with
       | Ok r => Ok (Some (GogoProxy.json r))
       | Throw _ => Ok None
       end,
       mkProc (vars p) (out p ++ [Native name arg])).
Proof.
  intros Hg Hf. unfold GogoProxy.via_lib, has_member, try_catch. rewrite Hg.
  rewrite <- bind_assoc.
  rewrite (bind_eq _ _ _ _ _ (call_resolves g name arg f v p Hg Hf)).
  unfold bind, lift, ret. now destruct (render v).
Qed.

End ViaLib.

(** With the library loaded, a route that gets as far as the library is
    its library block followed by its fallback half. *)
Lemma route_with_lib (import : string -> Res GogoProxy.ModuleNs)
  (fetch : string -> FetchResult) (g : Lib) (r : GogoProxy.Request)
  (p p1 : Proc (option Lib)) :
  GogoProxy.tryLoadLibs import p = (Ok (Some g), p1) -> loads r = true ->
  exists render,
    GogoProxy.handle import fetch r p
      = bind (GogoProxy.via_lib (Some g) (lib_method r) (lib_arg r) render)
          (fun x => GogoProxy.or_else x (fallback_half fetch r)) p1 /\
    (lists_items r = true ->
     render = fun data => map_method data (fun a => Ok (GogoProxy.mapItem a))).
Proof.
  intros Hload Hloads.
  destruct r; cbn [GogoProxy.handle lib_method lists_items];
    try (cbn [fallback_half lib_arg];
         unfold GogoProxy.trending, GogoProxy.recent, GogoProxy.genres,
           GogoProxy.anime, GogoProxy.episodes, GogoProxy.watch;
         eexists; (split; [unfold bind at 1; rewrite Hload; reflexivity|]);
         first [reflexivity | discriminate]).
  destruct (loads_search q Hloads) as (text & Hq & Hne).
  rewrite (proxy_search_reads_text import fetch q text p Hq), Hne, (lib_arg_search q text Hq).
  eexists. split; [|reflexivity].
  unfold bind at 1. rewrite Hload.
  change (bind ?m ?k p1) with (bind m k p1).
  apply bind_ext.
  intros [resp|] p0; cbn [GogoProxy.or_else]; [reflexivity|].
  now rewrite (fallback_half_search fetch q text p0 Hq).
Qed.

Lemma route_after_load (import : string -> Res GogoProxy.ModuleNs)
  (fetch : string -> FetchResult) (g : Lib) (r : GogoProxy.Request)
  (p : Proc (option Lib)) :
  vars p = Some g -> loads r = true ->
  exists render,
    GogoProxy.handle import fetch r p
      = bind (GogoProxy.via_lib (Some g) (lib_method r) (lib_arg r) render)
          (fun x => GogoProxy.or_else x (fallback_half fetch r)) p /\
    (lists_items r = true ->
     render = fun data => map_method data (fun a => Ok (GogoProxy.mapItem a))).
Proof.
  intros Hp. apply route_with_lib. now apply tryLoadLibs_loaded.
Qed.

(** X11.  In [server.js] a library that is of no help is not an error.
    When the loaded library lacks the method of the route, the request
    goes on with the fallback as if there were no library; when the
    method is there and its call throws or rejects, the error is dropped
    without a log line and the request goes on with the fallback all the
    same, the call being its only trace. *)
Theorem useless_library_means_fallback :
  forall (import : string -> Res GogoProxy.ModuleNs) (fetch : string -> FetchResult)
         (g : Lib) (r : GogoProxy.Request) (p : Proc (option Lib)),
  vars p = Some g ->
  loads r = true ->
  (has_member g (lib_method r) = false ->
   GogoProxy.handle import fetch r p = fallback_half fetch r p) /\
  (forall f e,
      g (lib_method r) = MFun f -> fails_with (f (lib_arg r)) e ->
      GogoProxy.handle import fetch r p
        = fallback_half fetch r
            (mkProc (Some g) (out p ++ [Native (lib_method r) (lib_arg r)]))).
Proof.
  intros import fetch g r p Hp Hloads.
  destruct (route_after_load import fetch g r p Hp Hloads) as (render & -> & _).
  split.
  - intros Hmiss. unfold bind at 1. now rewrite via_lib_missing.
  - intros f e Hg Hf. unfold bind at 1.
    rewrite (via_lib_fails g _ _ render f e p Hg Hf). now rewrite Hp.
Qed.

Lemma useless_library_means_fallback_witness :
  GogoProxy.handle no_packages net_up (GogoProxy.Episodes "bleach")
    (mkProc (Some (lib_with "episodes" (Async (Thrown (error "Error" "timeout"))))) [])
  = fallback_half net_up (GogoProxy.Episodes "bleach")
      (mkProc (Some (lib_with "episodes" (Async (Thrown (error "Error" "timeout")))))
         [Native "episodes" (JStr "bleach")]).
Proof.
  exact (proj2 (useless_library_means_fallback no_packages net_up
                  (lib_with "episodes" (Async (Thrown (error "Error" "timeout"))))
                  (GogoProxy.Episodes "bleach")
                  (mkProc (Some (lib_with "episodes" (Async (Thrown (error "Error" "timeout"))))) [])
                  eq_refl eq_refl)
           (fun _ => Async (Thrown (error "Error" "timeout"))) (error "Error" "timeout") eq_refl
           (or_intror eq_refl)).
Defined.

(** X12.  On the item routes of [server.js] ([/trending], [/recent],
    [/search]) a sequence answered by the library is final: it is mapped
    item by item with [mapItem] and sent, and the fallback is not called,
    be the sequence empty or not.  An answer that is not a sequence, an
    object with a [results] field included, is not unwrapped: it is
    dropped and the request goes on with the fallback. *)
Theorem library_sequences_are_final :
  forall (import : string -> Res GogoProxy.ModuleNs) (fetch : string -> FetchResult)
         (g : Lib) (f : JsVal -> CallResult) (r : GogoProxy.Request)
         (p : Proc (option Lib)) (v : JsVal),
  vars p = Some g ->
  loads r = true ->
  lists_items r = true ->
  g (lib_method r) = MFun f ->
  resolves_to (f (lib_arg r)) v ->
  (forall xs, v = JArr xs ->
      GogoProxy.handle import fetch r p
        = (Ok (mkResponse 200 (JArr (List.map GogoProxy.mapItem xs))),
           mkProc (Some g) (out p ++ [Native (lib_method r) (lib_arg r)]))) /\
  (isArray v = false ->
   GogoProxy.handle import fetch r p
     = fallback_half fetch r
         (mkProc (Some g) (out p ++ [Native (lib_method r) (lib_arg r)]))).
Proof.
  intros import fetch g f r p v Hp Hloads Hlist Hg Hf.
  destruct (route_after_load import fetch g r p Hp Hloads) as (render & -> & Hrender).
  rewrite (Hrender Hlist).
  split; [intros xs Hv | intros Hv]; unfold bind at 1;
    rewrite (via_lib_resolves g _ _ _ f v p Hg Hf), Hp.
  - subst v. unfold map_method. now rewrite map_res_pure.
  - destruct v; try discriminate Hv; reflexivity.
Qed.

Lemma library_sequences_are_final_witness :
  GogoProxy.handle no_packages net_up GogoProxy.Trending
    (mkProc (Some (lib_with "trending"
                     (Async (Returned (JObj [("results", JArr [JObj [("id", JStr "x")]])])))))
       [])
  = fallback_half net_up GogoProxy.Trending
      (mkProc (Some (lib_with "trending"
                       (Async (Returned (JObj [("results", JArr [JObj [("id", JStr "x")]])])))))
         [Native "trending" JUndef]).
Proof.
  exact (proj2 (library_sequences_are_final no_packages net_up
                  (lib_with "trending"
                     (Async (Returned (JObj [("results", JArr [JObj [("id", JStr "x")]])]))))
                  (fun _ => Async (Returned (JObj [("results", JArr [JObj [("id", JStr "x")]])])))
                  GogoProxy.Trending
                  (mkProc (Some (lib_with "trending"
                     (Async (Returned (JObj [("results", JArr [JObj [("id", JStr "x")]])])))))
                     [])
                  (JObj [("results", JArr [JObj [("id", JStr "x")]])])
                  eq_refl eq_refl eq_refl eq_refl (or_intror eq_refl))
           eq_refl).
Defined.

(** ** What [server.js] sends *)

Lemma or_array_truthy (a : JsVal) (xs : list JsVal) : truthy (a || JArr xs)%js = true.
Proof. unfold Js.or. now destruct (truthy a) eqn:Ha. Qed.

Lemma map_method_truthy (f : JsVal -> Res JsVal) (d r : JsVal) :
  map_method d f = Ok r -> truthy r = true.
Proof.
  unfold map_method. destruct d; try discriminate.
  destruct (map_res f xs); [|discriminate]. now intros [= <-].
Qed.

(** X13.  A route of [server.js] never answers with an empty body or
    with an error status: whatever the loader, the library and the network
    do, an answer is a 200 whose body is a sequence, a record, or some
    other value that is neither null, undefined, false, 0 nor the empty
    string.  And every request is answered but one: a search whose [q]
    [String] cannot convert makes the handler throw before it has done
    anything. *)
Theorem server_js_never_answers_null :
  forall (import : string -> Res GogoProxy.ModuleNs) (fetch : string -> FetchResult)
         (r : GogoProxy.Request) (p : Proc (option Lib)),
  ends_with (fun resp => status resp = 200 /\ truthy (body resp) = true) r p
    (GogoProxy.handle import fetch r p).
Proof.
  intros import fetch r p.
  set (Q := fun resp => status resp = 200 /\ truthy (body resp) = true).
  assert (Hitems : forall data, Q (GogoProxy.json (GogoProxy.items_of data)))
    by (intros data; split; [reflexivity | apply or_array_truthy]).
  assert (Hmap : forall (f : JsVal -> Res JsVal) d x,
             map_method d f = Ok x -> Q (GogoProxy.json x))
    by (intros f d x H; split; [reflexivity | now apply (map_method_truthy f d)]).
  assert (Hsearch : forall text,
            Returns Q
              (lib <- GogoProxy.tryLoadLibs import;;
               x <- GogoProxy.via_lib lib "search" (JStr text)
                      (fun data => map_method data (fun a => Ok (GogoProxy.mapItem a)));;
               GogoProxy.or_else x
                 (data <- GogoProxy.fb fetch ("/search?q=" ++ encodeURIComponent text);;
                  ret (GogoProxy.json (GogoProxy.items_of data)))))
    by (intros text; apply route_returns; [intros d x; apply Hmap | exact Hitems]).
  destruct r as [| | |q|id|id|eid]; cbn [GogoProxy.handle];
    [apply returns_ends_with .. | | apply returns_ends_with
     | apply returns_ends_with | apply returns_ends_with];
    unfold GogoProxy.trending, GogoProxy.recent, GogoProxy.genres,
      GogoProxy.anime, GogoProxy.episodes, GogoProxy.watch.
  - apply route_returns; [intros d x; apply Hmap | exact Hitems].
  - apply route_returns; [intros d x; apply Hmap | exact Hitems].
  - apply (route_returns Q import fetch _ _ _
             (fun data => (oget data "genres" || data || JArr [])%js)).
    + intros d x [= <-]. split; [reflexivity|]. cbn [GogoProxy.json body].
      destruct (isArray d) eqn:Hd; [now destruct d | apply or_array_truthy].
    + intros data. split; [reflexivity | apply or_array_truthy].
  - destruct (query_text q) as [text|e] eqn:Hq.
    + rewrite (proxy_search_reads_text import fetch q text p Hq).
      apply returns_ends_with.
      destruct (String.eqb text ""); [now apply returns_ret | apply Hsearch].
    + rewrite (proxy_search_unread import fetch q e p Hq). cbn [ends_with].
      split; [reflexivity|]. now exists q.
  - apply (route_returns Q import fetch _ _ _ (fun d => JObj _));
      [now intros d x [= <-] | now split].
  - apply route_returns; [intros d x; apply Hmap | exact Hitems].
  - apply (route_returns Q import fetch _ _ _ GogoProxy.source_of);
      [now intros d x [= <-] | now split].
Qed.

(** ** [mapGogo] on what it has made *)

Lemma or_default_twice (a d : JsVal) : ((a || d) || d)%js = (a || d)%js.
Proof. unfold Js.or. destruct (truthy a) eqn:Ha; [now rewrite Ha | now destruct (truthy d)]. Qed.

Lemma or_default_truthy (a d : JsVal) : truthy d = true -> truthy (a || d)%js = true.
Proof. intros Hd. unfold Js.or. now destruct (truthy a) eqn:Ha. Qed.

Lemma mapGogo_item_settles (x y : JsVal) :
  AniRatio.mapGogo_item x = Ok y -> AniRatio.mapGogo_item y = Ok y.
Proof.
  intros Hy.
  assert (Hx : nullish x = false).
  { destruct (nullish x) eqn:Hn; [|reflexivity].
    unfold AniRatio.mapGogo_item, get in Hy. rewrite Hn in Hy. discriminate Hy. }
  rewrite (mapGogo_item_ok x Hx) in Hy. injection Hy as <-.
  rewrite mapGogo_item_ok by reflexivity.
  cbn [prop lookup String.eqb Ascii.eqb Bool.eqb].
  assert (Hu : forall a, (JUndef || a)%js = a) by reflexivity.
  rewrite !Hu, !or_default_twice.
  rewrite (or_truthy_l _ JUndef), or_default_twice; [reflexivity|].
  now apply or_default_truthy.
Qed.

(** X14.  [mapGogo] leaves alone what it has made: mapping the result of
    a mapping once more gives the same sequence, item by item, so a
    catalog item that has been normalized can be normalized again without
    change. *)
Theorem mapGogo_is_idempotent :
  forall (items m : JsVal),
  AniRatio.mapGogo items = Ok m -> AniRatio.mapGogo m = Ok m.
Proof.
  intros items m Hm.
  assert (Hlist : forall xs ys,
             map_res AniRatio.mapGogo_item xs = Ok ys ->
             map_res AniRatio.mapGogo_item ys = Ok ys).
  { induction xs as [|x xs IH]; intros ys; simpl.
    - now intros [= <-].
    - destruct (AniRatio.mapGogo_item x) as [y|e] eqn:Hy; [|discriminate].
      destruct (map_res AniRatio.mapGogo_item xs) as [ys'|e]; [|discriminate].
      intros [= <-]. simpl.
      now rewrite (mapGogo_item_settles x y Hy), (IH ys' eq_refl). }
  unfold AniRatio.mapGogo, map_method in *.
  destruct items; try discriminate Hm.
  - injection Hm as <-. reflexivity.
  - destruct (map_res AniRatio.mapGogo_item xs) as [ys|e] eqn:Hxs; [|discriminate].
    injection Hm as <-. now rewrite (Hlist xs ys Hxs).
Qed.

Lemma mapGogo_is_idempotent_witness :
  AniRatio.mapGogo
    (JArr [JObj [("title", JStr "Bleach"); ("image_url", JStr "b.jpg");
                 ("anime_id", JStr "bleach"); ("synopsis", JStr "")]])
  = Ok (JArr [JObj [("title", JStr "Bleach"); ("image_url", JStr "b.jpg");
                    ("anime_id", JStr "bleach"); ("synopsis", JStr "")]]).
Proof.
  exact (mapGogo_is_idempotent
           (JArr [JObj [("name", JStr "Bleach"); ("poster", JStr "b.jpg");
                        ("slug", JStr "bleach")]])
           _ eq_refl).
Defined.

(** ** The search of the earliest server *)

(** X15.  The earliest [/search].  Without a query it answers the empty
    sequence and does nothing else.  With a query, when the library did
    not load, the call on the undefined handle is a TypeError and the
    answer is a 500 that carries its message; when the library is there,
    what its [search] resolves to goes out unchanged in a 200, and what it
    throws or rejects with comes back as a 500 whose [error] is the
    [message] of the thrown value.  When that value is null or undefined,
    reading its [message] throws inside the [catch], and the request gets
    no answer. *)
Theorem earliest_search_answers :
  forall (q : JsVal) (p : Proc unit),
  (truthy q = false ->
   forall g, GogoMinimal.search g q p = (Ok (mkResponse 200 (JArr [])), p)) /\
  (truthy q = true ->
   exists msg,
     message TypeError = Some msg /\
     GogoMinimal.search None q p = (Ok (mkResponse 500 (JObj [("error", msg)])), p)) /\
  (truthy q = true ->
   forall g f, g "search" = MFun f ->
     (forall v, resolves_to (f q) v ->
        GogoMinimal.search (Some g) q p
          = (Ok (mkResponse 200 v), mkProc (vars p) (out p ++ [Native "search" q]))) /\
     (forall e msg, fails_with (f q) e -> message e = Some msg ->
        GogoMinimal.search (Some g) q p
          = (Ok (mkResponse 500 (JObj [("error", msg)])),
             mkProc (vars p) (out p ++ [Native "search" q]))) /\
     (forall e, fails_with (f q) e -> message e = None ->
        GogoMinimal.search (Some g) q p
          = (Throw TypeError, mkProc (vars p) (out p ++ [Native "search" q])))).
Proof.
  intros q p.
  assert (Hq : truthy q = true -> (q || JStr "")%js = q) by apply or_truthy_l.
  split; [|split].
  - intros Hfalse g. unfold GogoMinimal.search, Js.or. now rewrite Hfalse.
  - intros Htrue. unfold GogoMinimal.search. rewrite (Hq Htrue), Htrue.
    eexists. split; reflexivity.
  - intros Htrue g f Hg. split; [|split].
    + intros v Hv. unfold GogoMinimal.search. rewrite (Hq Htrue), Htrue. cbn [negb].
      unfold try_catch. rewrite <- bind_assoc.
      now rewrite (bind_eq _ _ _ _ _ (call_resolves g "search" q f v p Hg Hv)).
    + intros e msg He Hmsg. unfold GogoMinimal.search. rewrite (Hq Htrue), Htrue.
      cbn [negb]. unfold try_catch. rewrite <- bind_assoc.
      rewrite (bind_throws _ _ _ _ _ (call_fails g "search" q f e p Hg He)).
      unfold bind, lift, message_of. now rewrite Hmsg.
    + intros e He Hmsg. unfold GogoMinimal.search. rewrite (Hq Htrue), Htrue.
      cbn [negb]. unfold try_catch. rewrite <- bind_assoc.
      rewrite (bind_throws _ _ _ _ _ (call_fails g "search" q f e p Hg He)).
      unfold bind, lift, message_of. now rewrite Hmsg.
Qed.

Lemma earliest_search_answers_witness :
  GogoMinimal.search (Some (lib_with "search" (Async (Thrown (error "Error" "timeout")))))
    (JStr "naruto") (mkProc tt [])
  = (Ok (mkResponse 500 (JObj [("error", JStr "timeout")])),
     mkProc tt [Native "search" (JStr "naruto")]) /\
  GogoMinimal.search (Some (lib_with "search" (Async (Thrown (mkExn "null" None)))))
    (JStr "naruto") (mkProc tt [])
  = (Throw TypeError, mkProc tt [Native "search" (JStr "naruto")]).
Proof.
  split.
  - exact (proj1 (proj2 (proj2 (proj2 (earliest_search_answers (JStr "naruto")
                                          (mkProc tt []))) eq_refl
                           (lib_with "search" (Async (Thrown (error "Error" "timeout"))))
                           (fun _ => Async (Thrown (error "Error" "timeout"))) eq_refl))
             (error "Error" "timeout") (JStr "timeout") (or_intror eq_refl) eq_refl).
  - exact (proj2 (proj2 (proj2 (proj2 (earliest_search_answers (JStr "naruto")
                                          (mkProc tt []))) eq_refl
                           (lib_with "search" (Async (Thrown (mkExn "null" None))))
                           (fun _ => Async (Thrown (mkExn "null" None))) eq_refl))
             (mkExn "null" None) (or_intror eq_refl) eq_refl).
Defined.

(** ** Strings *)

Lemma append_empty_r (s : string) : s ++ "" = s.
Proof. induction s as [|c s IH]; simpl; [reflexivity | now rewrite IH]. Qed.

Lemma append_assoc_str (a b c : string) : (a ++ b) ++ c = a ++ (b ++ c).
Proof. induction a as [|x a IH]; simpl; [reflexivity | now rewrite IH]. Qed.




Lemma rev_str_spec (s acc : string) : rev_str s acc = rev_str s "" ++ acc.
Proof.
  revert acc. induction s as [|c s IH]; intros acc; simpl; [reflexivity|].
  rewrite (IH (String c acc)), (IH (String c "")), append_assoc_str. reflexivity.
Qed.

Lemma rev_str_append (a b : string) :
  rev_str (a ++ b) "" = rev_str b "" ++ rev_str a "".
Proof.
  induction a as [|c a IH]; simpl; [now rewrite append_empty_r|].
  rewrite (rev_str_spec (a ++ b)), (rev_str_spec a), IH, append_assoc_str. reflexivity.
Qed.

Lemma rev_str_involutive (s : string) : rev_str (rev_str s "") "" = s.
Proof.
  induction s as [|c s IH]; simpl; [reflexivity|].
  rewrite (rev_str_spec s), rev_str_append, IH. reflexivity.
Qed.

Lemma string_length_ind (P : string -> Prop) :
  (forall s, (forall t, (String.length t < String.length s)%nat -> P t) -> P s) ->
  forall s, P s.
Proof.
  intros H s. remember (String.length s) as n eqn:Hn. revert s Hn.
  induction n as [n IH] using lt_wf_ind. intros s ->.
  apply H. intros t Ht. now apply (IH (String.length t)).
Qed.

Section Strip.

Variable w2 : ascii -> ascii -> bool.
Variable w3 : ascii -> ascii -> ascii -> bool.

Lemma strip_cons (a : ascii) (rest : string) :
  strip w2 w3 (String a rest) =
    if is_ws a then strip w2 w3 rest
    else
      match rest with
      | EmptyString => String a rest
      | String b rest2 =>
          if w2 a b then strip w2 w3 rest2
          else
            match rest2 with
            | EmptyString => String a rest
            | String c rest3 => if w3 a b c then strip w2 w3 rest3 else String a rest
            end
      end.
Proof. reflexivity. Qed.

(** What [strip] returns does not begin with white space, and is the end
    of what it was given. *)
Lemma strip_clean (s : string) : starts_clean w2 w3 (strip w2 w3 s).
Proof.
  induction s as [s IH] using string_length_ind.
  destruct s as [|a rest]; [exact Logic.I|]. rewrite strip_cons.
  destruct (is_ws a) eqn:Ha; [apply IH; cbn; lia|].
  destruct rest as [|b rest2]; [now split|].
  destruct (w2 a b) eqn:Hab; [apply IH; cbn; lia|].
  destruct rest2 as [|c rest3]; [now repeat split|].
  destruct (w3 a b c) eqn:Habc; [apply IH; cbn; lia | now repeat split].
Qed.

Lemma strip_suffix (s : string) : exists dropped, s = dropped ++ strip w2 w3 s.
Proof.
  induction s as [s IH] using string_length_ind.
  assert (Hdrop : forall pre rest,
            (String.length rest < String.length s)%nat ->
            s = pre ++ rest -> exists dropped, s = dropped ++ strip w2 w3 rest).
  { intros pre rest Hlen ->. destruct (IH rest Hlen) as [d Hd].
    exists (pre ++ d). now rewrite append_assoc_str, <- Hd. }
  assert (Hkeep : exists dropped, s = dropped ++ s) by now exists "".
  destruct s as [|a rest]; [exact Hkeep|]. rewrite strip_cons.
  destruct (is_ws a); [apply (Hdrop (String a "")); [cbn; lia | reflexivity]|].
  destruct rest as [|b rest2]; [exact Hkeep|].
  destruct (w2 a b);
    [apply (Hdrop (String a (String b ""))); [cbn; lia | reflexivity]|].
  destruct rest2 as [|c rest3]; [exact Hkeep|].
  destruct (w3 a b c); [|exact Hkeep].
  apply (Hdrop (String a (String b (String c "")))); [cbn; lia | reflexivity].
Qed.

Lemma strip_of_clean (s : string) : starts_clean w2 w3 s -> strip w2 w3 s = s.
Proof.
  destruct s as [|a [|b [|c rest]]]; [reflexivity|..]; rewrite strip_cons;
    cbn [starts_clean].
  - now intros [-> _].
  - now intros (-> & -> & _).
  - now intros (-> & -> & ->).
Qed.

(** The beginning of a string that does not begin with white space does
    not begin with white space either. *)
Lemma clean_prefix (u v : string) : starts_clean w2 w3 (u ++ v) -> starts_clean w2 w3 u.
Proof.
  destruct u as [|a [|b [|c rest]]]; cbn [append starts_clean]; [trivial|..].
  - now intros [Ha _].
  - now intros (Ha & Hab & _).
  - trivial.
Qed.

End Strip.

Lemma trim_clean_both_ends (s : string) :
  starts_clean is_ws2 is_ws3 (trim s) /\
  starts_clean (fun a b => is_ws2 b a) (fun a b c => is_ws3 c b a) (rev_str (trim s) "").
Proof.
  unfold trim, trim_end, trim_start.
  set (t := strip is_ws2 is_ws3 s).
  set (back := strip (fun a b => is_ws2 b a) (fun a b c => is_ws3 c b a)).
  destruct (strip_suffix (fun a b => is_ws2 b a) (fun a b c => is_ws3 c b a) (rev_str t ""))
    as [d Hd].
  fold back in Hd. split.
  - apply (clean_prefix _ _ _ (rev_str d "")).
    rewrite <- rev_str_append, <- Hd, rev_str_involutive. apply strip_clean.
  - rewrite rev_str_involutive. apply strip_clean.
Qed.

Lemma trim_idempotent (s : string) : trim (trim s) = trim s.
Proof.
  destruct (trim_clean_both_ends s) as [Hstart Hend].
  unfold trim at 1, trim_end, trim_start.
  rewrite (strip_of_clean _ _ _ Hstart), (strip_of_clean _ _ _ Hend).
  apply rev_str_involutive.
Qed.

(** ** Searching with blanks around the text *)

Lemma query_text_of_string (s : string) : query_text (JStr s) = Ok (trim s).
Proof.
  unfold query_text, Js.or. cbn [truthy].
  destruct (String.eqb_spec s "") as [->|_]; reflexivity.
Qed.

(** X16.  White space around the search text makes no difference, be it
    that of ASCII or of Unicode: a search for a text and a search for the
    same text with blanks before or after it are one and the same request
    to both servers, with the same library call, the same Jikan or
    fallback URL, the same cache entry and the same reply. *)
Theorem search_ignores_surrounding_space :
  forall (s : string),
  (forall gogo now fetch p,
      AniRatio.search gogo now fetch (JStr s) p
        = AniRatio.search gogo now fetch (JStr (trim s)) p) /\
  (forall import fetch p,
      GogoProxy.search import fetch (JStr s) p
        = GogoProxy.search import fetch (JStr (trim s)) p).
Proof.
  intros s.
  pose proof (query_text_of_string s) as Hs.
  pose proof (query_text_of_string (trim s)) as Ht. rewrite trim_idempotent in Ht.
  split; intros.
  - now rewrite (search_reads_text gogo now fetch _ _ p Hs),
      (search_reads_text gogo now fetch _ _ p Ht).
  - now rewrite (proxy_search_reads_text import fetch _ _ p Hs),
      (proxy_search_reads_text import fetch _ _ p Ht).
Qed.

Lemma search_ignores_surrounding_space_sample :
  trim (utf8 [227; 128; 128; 110; 97; 114; 117; 116; 111; 194; 160; 10]%nat) = "naruto" /\
  GogoProxy.search no_packages net_down
    (JStr (utf8 [227; 128; 128; 110; 97; 114; 117; 116; 111; 194; 160; 10]%nat))
    GogoProxy.boot
  = GogoProxy.search no_packages net_down (JStr "naruto") GogoProxy.boot.
Proof. split; reflexivity. Qed.

(** ** Cache keys *)











(** Beyond 2^53 two page numbers that differ are one Number, one Jikan
    path and one cache key. *)
Example large_pages_share_a_key :
  AniRatio.jikan_key (recent_path (Some 9007199254740993))
    = AniRatio.jikan_key (recent_path (Some 9007199254740992)).
Proof. vm_compute. reflexivity. Qed.

(** ** Loading on first use *)

Lemma serve_sound_loaded (import : string -> Res GogoProxy.ModuleNs)
  (fetch : string -> FetchResult) (lib : Lib) (reqs : list GogoProxy.Request) :
  Sound (fun v => v = Some lib) quiet (GogoProxy.serve import fetch reqs).
Proof.
  induction reqs as [|r rest IH]; cbn [GogoProxy.serve]; [apply sound_ret|].
  apply sound_bind; [apply handle_sound_loaded|]. intros x.
  apply sound_bind; [exact IH | intros xs; apply sound_ret].
Qed.

Lemma route_tail_sound (I : option Lib -> Prop) (fetch : string -> FetchResult)
  (l : option Lib) (name : string) (arg : JsVal) (render : JsVal -> Res JsVal)
  (r : GogoProxy.Request) :
  Sound I quiet
    (x <- GogoProxy.via_lib l name arg render;;
     GogoProxy.or_else x (fallback_half fetch r)).
Proof.
  apply sound_bind; [apply via_lib_sound|]. intros [resp|]; cbn [GogoProxy.or_else].
  - apply sound_ret.
  - apply fallback_half_sound.
Qed.

(** Resumed at once after each [await], the call of [tryLoadLibs] in
    pieces is the call in one piece. *)
Lemma load_from_in_one_piece (import : string -> Res GogoProxy.ModuleNs)
  (names : list string) (p : Proc (option Lib)) :
  bind (Overlap.load_from import names) Overlap.finish p
    = GogoProxy.load_from import names p.
Proof.
  revert p. induction names as [|name rest IH]; intros p; [reflexivity|].
  cbn [Overlap.load_from GogoProxy.load_from].
  unfold bind at 1 2, emit at 1, ret at 1. cbn [Overlap.finish].
  specialize (IH (mkProc (vars p) (out p ++ [Import name]))).
  unfold bind at 1 in IH.
  unfold bind, try_catch, emit, lift, write, ret in *. cbn [vars out] in *.
  destruct (import name) as [ns|e]; [|exact IH].
  destruct (GogoProxy.pick ns) as [[lib|e]|]; [|exact IH|exact IH].
  cbn [vars out Overlap.finish]. reflexivity.
Qed.

Lemma tryLoadLibs_in_one_piece (import : string -> Res GogoProxy.ModuleNs)
  (p : Proc (option Lib)) :
  bind (Overlap.tryLoadLibs import) Overlap.finish p = GogoProxy.tryLoadLibs import p.
Proof.
  destruct p as [[lib|] o]; [reflexivity|].
  exact (load_from_in_one_piece import GogoProxy.candidates (mkProc None o)).
Qed.

(** X18.  [server.js] loads its library on the first request that needs
    it, and only then, as long as requests are served one after the
    other: when the first candidate can be loaded, a process that starts
    with a request reaching [tryLoadLibs] imports that one package once,
    during that request, and serves every later request with the library
    it got, without importing anything again.  Calls that overlap are
    another matter.  [goLib] is tested when [tryLoadLibs] is called and
    assigned after [await import(...)]; resumed at once the call is the
    one the requests above make, but a second call made while the first
    is suspended at its import finds no library either, and the package
    is imported and the library constructed a second time. *)
Theorem library_is_loaded_on_first_use :
  forall (import : string -> Res GogoProxy.ModuleNs) (fetch : string -> FetchResult)
         (ns : GogoProxy.ModuleNs) (lib : Lib) (r : GogoProxy.Request)
         (rest : list GogoProxy.Request),
  import "gogoanime-api" = Ok ns ->
  GogoProxy.pick ns = Some (Ok lib) ->
  loads r = true ->
  (vars (snd (GogoProxy.serve import fetch (r :: rest) GogoProxy.boot)) = Some lib /\
   count is_import (out (snd (GogoProxy.serve import fetch (r :: rest) GogoProxy.boot)))
     = 1%nat) /\
  (forall p,
      bind (Overlap.tryLoadLibs import) Overlap.finish p
        = GogoProxy.tryLoadLibs import p) /\
  Overlap.two_calls import GogoProxy.boot
    = (Ok (Some lib, Some lib),
       mkProc (Some lib)
         [Import "gogoanime-api"; Import "gogoanime-api";
          Console "[gogo] using optional lib: gogoanime-api";
          Console "[gogo] using optional lib: gogoanime-api"]).
Proof.
  intros import fetch ns lib r rest Hns Hpick Hloads.
  split; [|split; [apply tryLoadLibs_in_one_piece|]].
  2: { unfold Overlap.two_calls, Overlap.tryLoadLibs, GogoProxy.candidates.
       cbn [Overlap.load_from].
       unfold bind, try_catch, read, emit, lift, write, ret.
       cbn [vars out GogoProxy.boot Overlap.finish].
       rewrite Hns, Hpick. cbn [vars out Overlap.finish]. reflexivity. }
  set (p1 := mkProc (Some lib)
               [Import "gogoanime-api"; Console "[gogo] using optional lib: gogoanime-api"]).
  assert (Hload : GogoProxy.tryLoadLibs import GogoProxy.boot = (Ok (Some lib), p1)).
  { unfold GogoProxy.tryLoadLibs, bind, read. cbn [vars GogoProxy.boot].
    unfold GogoProxy.candidates.
    now rewrite (load_from_take import _ _ _ ns lib Hns Hpick). }
  destruct (route_with_lib import fetch lib r _ _ Hload Hloads) as (render & Hfirst & _).
  cbn [GogoProxy.serve]. unfold bind, ret. rewrite Hfirst.
  destruct (route_tail_sound (fun v => v = Some lib) fetch (Some lib) (lib_method r)
              (lib_arg r) render r p1 eq_refl) as (Hv1 & evs1 & Hout1 & Hq1).
  destruct (bind (GogoProxy.via_lib (Some lib) (lib_method r) (lib_arg r) render)
              (fun x => GogoProxy.or_else x (fallback_half fetch r)) p1) as [[x|e] p2];
    cbn [snd] in Hv1, Hout1.
  - destruct (serve_sound_loaded import fetch lib rest p2 Hv1)
      as (Hv2 & evs2 & Hout2 & Hq2).
    unfold bind, ret.
    destruct (GogoProxy.serve import fetch rest p2) as [[xs|e] p3]; cbn [snd] in *;
      (split; [exact Hv2|]);
      rewrite Hout2, Hout1, !count_app, (count_quiet _ Hq1), (count_quiet _ Hq2);
      reflexivity.
  - cbn [snd]. split; [exact Hv1|].
    rewrite Hout1, count_app, (count_quiet _ Hq1). reflexivity.
Qed.

Lemma library_is_loaded_on_first_use_witness :
  count is_import
    (out (snd (GogoProxy.serve
                 (fun _ => Ok (GogoProxy.mkModule
                                 (Some (Ok (lib_with "search" (Async (Returned (JArr []))))))
                                 None None))
                 net_down
                 [GogoProxy.Recent; GogoProxy.Search (JStr "naruto"); GogoProxy.Recent]
                 GogoProxy.boot)))
    = 1%nat /\
  count is_import
    (out (snd (Overlap.two_calls
                 (fun _ => Ok (GogoProxy.mkModule
                                 (Some (Ok (lib_with "search" (Async (Returned (JArr []))))))
                                 None None))
                 GogoProxy.boot)))
    = 2%nat.
Proof.
  destruct (library_is_loaded_on_first_use
              (fun _ => Ok (GogoProxy.mkModule
                              (Some (Ok (lib_with "search" (Async (Returned (JArr []))))))
                              None None))
              net_down _ (lib_with "search" (Async (Returned (JArr []))))
              GogoProxy.Recent [GogoProxy.Search (JStr "naruto"); GogoProxy.Recent]
              eq_refl eq_refl eq_refl) as ((_ & Hone) & _ & Htwo).
  split; [exact Hone|]. rewrite Htwo. reflexivity.
Defined.

(** ** Failures are logged *)


